(** * NodeEd25519: BIP32 extended keys over ed25519 (src/Impl/ed25519.ts)

    A shallow embedding of the class [NodeEd25519] and of the two child key
    derivation functions [CKDPriv] and [CKDPub]: construction from a seed,
    the extended key format, derivation by index and by path, signing
    and verifying. The method [toWIF], which only throws, is not part of
    it.

    - A JS [Buffer] is a mutable object: buffers live in a store and the
      fields of a node hold references into it, so that two nodes holding
      the same [Buffer] are seen to share it.
    - A node is an object too (its [__Q] field is assigned by the
      [publicKey] getter), so nodes live in the store as well and the
      methods take the reference [this].
    - A method is a computation in the monad [M]: it reads and updates the
      store and either returns a value or throws.
    - The collaborators imported from other packages (HMAC-SHA512, the
      curve operations, base58check, the [Network.CATAPULT] constants) are
      parameters of the section [Engine].
    - An index is an integer ([Z]); a JS string is a [string] of 8-bit
      characters. *)

From Stdlib Require Import ZArith Lia List Ascii String.
From Stdlib.Strings Require Import Byte.
From stdpp Require Import base option list.

Import ListNotations.
Local Open Scope Z_scope.

(** ** Bytes and numbers *)

(** The value of a byte as a JS number. *)
Definition byte_to_Z (b : byte) : Z := Z.of_N (Byte.to_N b).

(** Storing a number into a [Uint8Array] cell keeps its low 8 bits. *)
Definition byte_of_Z (z : Z) : byte :=
  default x00 (Byte.of_N (Z.to_N (Z.land z 255))).

(** The errors the code throws, named after the error kinds of the
    specification. The comment gives the [throw] site. *)
Inductive error : Set :=
| InvalidSeedLength        (* fromSeed: 'Seed should be at least 128 bits' / 'at most 512 bits' *)
| InvalidLength            (* fromBase58: 'Base58 payload must be exactly 78 bytes' *)
| InvalidVersion           (* fromBase58: 'Payload Version must be one of' *)
| InvalidMasterNode        (* fromBase58: 'Expected master node but got child' / 'Expected index 0 with depth 0' *)
| InvalidPrivateKeyMarker  (* fromBase58: 'Private key must start be prepended by 0x00.' *)
| InvalidPath              (* derivePath: 'Invalid BIP32 derivation path provided.' *)
| ExpectedMasterNode       (* derivePath: 'Expected master node with "m" derivation' *)
| MissingPrivateKey        (* derive: 'Missing private key for hardened child key derivation.';
                              privateKey: 'Missing private key.' *)
| IndexOverflow            (* deriveHardened: 'Hardened derivation maximum index overflow.' *)
| RangeError               (* Buffer.writeUInt32BE / writeUInt8 / readUInt32BE out of range *)
| Bs58checkError           (* bs58check.decode: bad character or checksum *)
| UndefinedKeyMaterial     (* publicKey on a node with neither key: extractPublicKey(undefined) *)
| NotAFunction             (* CKDPub: 'nacl_catapult.add is not a function', when the
                              imported object has no member add *)
| NaNIndex                 (* parseInt gave NaN; excluded by isValidPath *)
| DanglingReference        (* a reference outside the store; no JS value is one *)
| OutOfFuel.               (* the recursion of CKDPub was cut by the model *)

Inductive result (A : Type) : Type :=
| Ok (a : A)
| Err (e : error).
Arguments Ok {A} a.
Arguments Err {A} e.

(** ** Buffer primitives (Node.js [Buffer]) *)

(** Overwrite [buf] from [offset] on with [bs]; the caller checks that
    [bs] fits. *)
Definition write_bytes (bs : list byte) (offset : nat) (buf : list byte) : list byte :=
  take offset buf ++ bs ++ drop (offset + length bs) buf.

(** The four bytes of [value], most significant first. *)
Definition uint32_be (value : Z) : list byte :=
  [ byte_of_Z (Z.shiftr value 24); byte_of_Z (Z.shiftr value 16);
    byte_of_Z (Z.shiftr value 8); byte_of_Z value ].

(** [buf.writeUInt32BE(value, offset)]: throws unless [value] is a uint32
    and the four bytes fit. *)
Definition writeUInt32BE (value : Z) (offset : nat) (buf : list byte) : result (list byte) :=
  if (0 <=? value) && (value <=? 4294967295) && (offset + 4 <=? length buf)%nat
  then Ok (write_bytes (uint32_be value) offset buf)
  else Err RangeError.

(** [buf.writeUInt8(value, offset)]. *)
Definition writeUInt8 (value : Z) (offset : nat) (buf : list byte) : result (list byte) :=
  if (0 <=? value) && (value <=? 255) && (offset + 1 <=? length buf)%nat
  then Ok (write_bytes [byte_of_Z value] offset buf)
  else Err RangeError.

(** [buf.readUInt32BE(offset)]. *)
Definition readUInt32BE (offset : nat) (buf : list byte) : result Z :=
  match buf !! offset, buf !! (offset + 1)%nat, buf !! (offset + 2)%nat, buf !! (offset + 3)%nat with
  | Some a, Some b, Some c, Some d =>
      Ok (byte_to_Z a * 2 ^ 24 + byte_to_Z b * 2 ^ 16 + byte_to_Z c * 2 ^ 8 + byte_to_Z d)
  | _, _, _, _ => Err RangeError
  end.

(** [buf.readUInt8(offset)]. *)
Definition readUInt8 (offset : nat) (buf : list byte) : result Z :=
  match buf !! offset with
  | Some a => Ok (byte_to_Z a)
  | None => Err RangeError
  end.

(** [buf[i]]. Past the end JS gives [undefined]; every use in the class
    comes after the guard [buffer.length !== 78], and [0] stands for
    [undefined] there. *)
Definition byte_at (i : nat) (buf : list byte) : Z :=
  from_option byte_to_Z 0 (buf !! i).

(** [buf.slice(start, end)], for [0 <= start <= end]. JS returns a view of
    the same memory; the class only ever keeps views that do not overlap,
    and each is given a buffer of its own in the store. *)
Definition slice (start stop : nat) (buf : list byte) : list byte :=
  take (stop - start) (drop start buf).

(** [source.copy(target, targetStart)]: the bytes of [source] that fit are
    written into [target]; nothing is written when [targetStart] is past
    the end. *)
Definition buffer_copy (source : list byte) (targetStart : nat) (target : list byte) : list byte :=
  write_bytes (take (length target - targetStart) source) targetStart target.

(** The 78-byte record of an extended key: version, depth, parent
    fingerprint, index, chain code and the 33-byte key field. *)
Definition extended_key (version depth pf idx : Z) (cc key_field : list byte) : list byte :=
  uint32_be version ++ [byte_of_Z depth] ++ uint32_be pf ++ uint32_be idx
    ++ cc ++ key_field.

(** ** Strings (JS [String.prototype]) *)

Local Open Scope string_scope.

(** [s.split(sep)] for a one-character separator. *)
Fixpoint split (sep : ascii) (s : string) : list string :=
  match s with
  | EmptyString => [EmptyString]
  | String c s' =>
      if Ascii.eqb c sep then EmptyString :: split sep s'
      else match split sep s' with
           | x :: xs => String c x :: xs
           | [] => [String c EmptyString]
           end
  end.

(** [s.slice(-1)]: the last character, or the empty string. *)
Fixpoint slice_last (s : string) : string :=
  match s with
  | EmptyString => EmptyString
  | String c EmptyString => String c EmptyString
  | String _ s' => slice_last s'
  end.

(** [s.slice(0, -1)]: all but the last character. *)
Fixpoint slice_init (s : string) : string :=
  match s with
  | EmptyString => EmptyString
  | String _ EmptyString => EmptyString
  | String c s' => String c (slice_init s')
  end.

Definition is_digit (c : ascii) : bool :=
  ((48 <=? nat_of_ascii c) && (nat_of_ascii c <=? 57))%nat.

Definition digit_value (c : ascii) : Z := Z.of_nat (nat_of_ascii c) - 48.

(** The white space [parseInt] skips, among the 8-bit characters. *)
Definition is_space (c : ascii) : bool :=
  let n := nat_of_ascii c in
  ((n =? 9) || (n =? 10) || (n =? 11) || (n =? 12) || (n =? 13) || (n =? 32))%nat.

Fixpoint skip_spaces (s : string) : string :=
  match s with
  | String c s' => if is_space c then skip_spaces s' else s
  | EmptyString => EmptyString
  end.

(** The value of the longest prefix of decimal digits of [s], read after
    the digits of value [acc]; [seen] tells whether a digit was read. *)
Fixpoint parse_digits (seen : bool) (acc : Z) (s : string) : option Z :=
  match s with
  | String c s' =>
      if is_digit c then parse_digits true (10 * acc + digit_value c) s'
      else if seen then Some acc else None
  | EmptyString => if seen then Some acc else None
  end.

(** [parseInt(s, 10)]; [None] is NaN. The result is the exact integer:
    the rounding of a JS number starts above 2^53, where [derive] and
    [deriveHardened] reject the rounded and the exact value alike. *)
Definition parseInt (s : string) : option Z :=
  match skip_spaces s with
  | String "-" s' => Z.opp <$> parse_digits false 0 s'
  | String "+" s' => parse_digits false 0 s'
  | s' => parse_digits false 0 s'
  end.

(** ** Regular expressions, matched by derivatives *)

Inductive regex : Set :=
| Void
| Eps
| Chr (c : ascii)
| Digit                       (* \d *)
| Cat (r s : regex)
| Alt (r s : regex)
| Star (r : regex).

Definition Opt (r : regex) : regex := Alt Eps r.      (* r? *)
Definition Plus (r : regex) : regex := Cat r (Star r). (* r+ *)

Fixpoint nullable (r : regex) : bool :=
  match r with
  | Void | Chr _ | Digit => false
  | Eps | Star _ => true
  | Cat r s => nullable r && nullable s
  | Alt r s => nullable r || nullable s
  end.

Fixpoint deriv (a : ascii) (r : regex) : regex :=
  match r with
  | Void | Eps => Void
  | Chr c => if Ascii.eqb a c then Eps else Void
  | Digit => if is_digit a then Eps else Void
  | Cat r s => if nullable r then Alt (Cat (deriv a r) s) (deriv a s)
               else Cat (deriv a r) s
  | Alt r s => Alt (deriv a r) (deriv a s)
  | Star r => Cat (deriv a r) (Star r)
  end.

(** [s.match(/^r$/) !== null]. *)
Fixpoint re_match (r : regex) (s : string) : bool :=
  match s with
  | EmptyString => nullable r
  | String a s' => re_match (deriv a r) s'
  end.

(** [/^(m\/)?(\d+'?\/)*\d+'?$/] *)
Definition path_regex : regex :=
  Cat (Opt (Cat (Chr "m") (Chr "/")))
      (Cat (Star (Cat (Plus Digit) (Cat (Opt (Chr "'")) (Chr "/"))))
           (Cat (Plus Digit) (Opt (Chr "'")))).

(** The words of a regular expression. *)
Inductive re_lang : regex -> string -> Prop :=
| lang_eps : re_lang Eps EmptyString
| lang_chr c : re_lang (Chr c) (String c EmptyString)
| lang_digit c : is_digit c = true -> re_lang Digit (String c EmptyString)
| lang_cat r s u v : re_lang r u -> re_lang s v -> re_lang (Cat r s) (u ++ v)
| lang_alt_l r s u : re_lang r u -> re_lang (Alt r s) u
| lang_alt_r r s u : re_lang s u -> re_lang (Alt r s) u
| lang_star_nil r : re_lang (Star r) EmptyString
| lang_star_cons r u v : re_lang r u -> re_lang (Star r) v -> re_lang (Star r) (u ++ v).

Local Close Scope string_scope.

(** ** Paths, as the grammar describes them *)

Local Open Scope string_scope.

Fixpoint all_digits (s : string) : bool :=
  match s with
  | EmptyString => true
  | String c s' => is_digit c && all_digits s'
  end.

(** A segment of a path: its digits, and whether an apostrophe follows. *)
Record segment : Set := {
  seg_digits : string;
  seg_hardened : bool
}.

Definition segment_ok (g : segment) : Prop :=
  seg_digits g <> EmptyString /\ all_digits (seg_digits g) = true.

Definition show_segment (g : segment) : string :=
  seg_digits g ++ (if seg_hardened g then "'" else EmptyString).

(** The segments, each followed by a slash. *)
Fixpoint show_prefix (segs : list segment) : string :=
  match segs with
  | [] => EmptyString
  | g :: segs' => show_segment g ++ "/" ++ show_prefix segs'
  end.

(** [l.join('/')] *)
Fixpoint join_path (l : list string) : string :=
  match l with
  | [] => EmptyString
  | [x] => x
  | x :: l' => x ++ "/" ++ join_path l'
  end.

(** The path with the segments [segs], after [m/] when [rooted]. *)
Definition show_path (rooted : bool) (segs : list segment) : string :=
  (if rooted then "m/" else EmptyString) ++ join_path (map show_segment segs).

(** The number that the digits [s] denote, read after digits of value
    [acc]. *)
Fixpoint decimal (acc : Z) (s : string) : Z :=
  match s with
  | EmptyString => acc
  | String c s' => decimal (10 * acc + digit_value c) s'
  end.

Definition segment_index (g : segment) : Z := decimal 0 (seg_digits g).

Fixpoint no_slash (s : string) : bool :=
  match s with
  | EmptyString => true
  | String c s' => negb (Ascii.eqb c "/") && no_slash s'
  end.

Local Close Scope string_scope.

(** ** The store *)

(** [Network] (declared in index.ts): the two version prefixes. *)
Record Network : Set := {
  privateKeyPrefix : Z;
  publicKeyPrefix : Z
}.

(** The fields of a [NodeEd25519] object. A [Buffer] field holds the
    reference of the buffer; [None] is [undefined]. *)
Record NodeEd25519 : Set := {
  __D : option nat;              (* private key *)
  __Q : option nat;              (* public key, assigned once by the getter *)
  chainCode : nat;
  network : Network;
  __DEPTH : Z;
  __INDEX : Z;
  __PARENT_FINGERPRINT : Z
}.

(** The objects that exist: buffers and nodes, each referred to by its
    position. An object is created at the end and is never removed. *)
Record heap : Set := {
  buffers : list (list byte);
  nodes : list NodeEd25519
}.

(** A computation: from a store to a value or a thrown error, and the
    store it leaves. *)
Definition M (A : Type) : Type := heap -> result A * heap.

#[global] Instance M_ret : MRet M := fun A a σ => (Ok a, σ).

#[global] Instance M_bind : MBind M := fun A B f m σ =>
  match m σ with
  | (Ok a, σ') => f a σ'
  | (Err e, σ') => (Err e, σ')
  end.

Definition throw {A : Type} (e : error) : M A := fun σ => (Err e, σ).

(** A pure step that may throw. *)
Definition lift {A : Type} (r : result A) : M A := fun σ => (r, σ).

Definition alloc_buffer (bs : list byte) : M nat := fun σ =>
  (Ok (length (buffers σ)), {| buffers := buffers σ ++ [bs]; nodes := nodes σ |}).

Definition read_buffer (l : nat) : M (list byte) := fun σ =>
  match buffers σ !! l with
  | Some bs => (Ok bs, σ)
  | None => (Err DanglingReference, σ)
  end.

Definition write_buffer (l : nat) (bs : list byte) : M unit := fun σ =>
  (Ok tt, {| buffers := <[l := bs]> (buffers σ); nodes := nodes σ |}).

Definition alloc_node (n : NodeEd25519) : M nat := fun σ =>
  (Ok (length (nodes σ)), {| buffers := buffers σ; nodes := nodes σ ++ [n] |}).

Definition read_node (this : nat) : M NodeEd25519 := fun σ =>
  match nodes σ !! this with
  | Some n => (Ok n, σ)
  | None => (Err DanglingReference, σ)
  end.

Definition write_node (this : nat) (n : NodeEd25519) : M unit := fun σ =>
  (Ok tt, {| buffers := buffers σ; nodes := <[this := n]> (nodes σ) |}).

(** [arr.reduce(f, init)]: left to right, stopping at the first throw. *)
Fixpoint reduce {A B : Type} (f : B -> A -> M B) (l : list A) (init : B) : M B :=
  match l with
  | [] => mret init
  | x :: l' => b ← f init x; reduce f l' b
  end.

(** What a variable of type [Buffer | null] holds. *)
Inductive nullable_buffer : Set :=
| JSNull
| JSBuffer (l : nat).

(** [v === null] *)
Definition is_null (v : nullable_buffer) : bool :=
  match v with
  | JSNull => true
  | JSBuffer _ => false
  end.

(** ** A sample of collaborators and a sample store

    Simple functions in the place of the collaborators, and a store with a
    master node that has a private key and a neutered node; the statements
    below are checked against them. *)

Module Sample.

Definition hmac_sha512 (key data : list byte) : list byte :=
  resize 64 x2a (data ++ key).

Definition extractPublicKey (d : list byte) : list byte := reverse d.

(** The object [nacl_catapult] that nem2-library exports has no member
    [add]. *)
Definition nacl_add : option (list byte -> list byte -> list byte) := None.

Definition bs58check_encode (b : list byte) : string := string_of_list_byte b.

Definition bs58check_decode (s : string) : option (list byte) :=
  Some (list_byte_of_string s).

Definition CATAPULT : Network :=
  {| privateKeyPrefix := 76066276; publicKeyPrefix := 76067358 |}.

Definition uninitialised (n : nat) : list byte := repeat xff n.

Definition private_key : list byte := x01 :: repeat x00 31.
Definition chain_code : list byte := repeat x02 32.
Definition public_key : list byte := x03 :: repeat x00 31.

Definition master : NodeEd25519 :=
  {| __D := Some 0%nat; __Q := None; chainCode := 1%nat; network := CATAPULT;
     __DEPTH := 0; __INDEX := 0; __PARENT_FINGERPRINT := 0 |}.

Definition watcher : NodeEd25519 :=
  {| __D := None; __Q := Some 2%nat; chainCode := 1%nat; network := CATAPULT;
     __DEPTH := 0; __INDEX := 0; __PARENT_FINGERPRINT := 0 |}.

Definition store : heap :=
  {| buffers := [private_key; chain_code; public_key];
     nodes := [master; watcher] |}.

(** The record of an extended private key, with a marker that is not 0. *)
Definition bad_marker : list byte :=
  extended_key 76066276 0 0 0 chain_code (x01 :: private_key).


Definition CatapultECC_sign (hash Q K : list byte) (hasher : nat) : list byte :=
  resize 64 x00 (K ++ Q ++ hash).

Definition CatapultECC_verify (hash Q signature : list byte) (hasher : nat) : bool :=
  (hasher =? 64)%nat.

(** A public key in the 33-byte encoding, and a neutered node that holds
    it. *)
Definition public_key_33 : list byte := x02 :: repeat x07 32.

Definition watcher_33 : NodeEd25519 :=
  {| __D := None; __Q := Some 3%nat; chainCode := 1%nat; network := CATAPULT;
     __DEPTH := 1; __INDEX := 5; __PARENT_FINGERPRINT := 9 |}.

Definition store_33 : heap :=
  {| buffers := [private_key; chain_code; public_key; public_key_33];
     nodes := [master; watcher; watcher_33] |}.

(** The record of an extended private key. *)
Definition private_record : list byte :=
  extended_key 76066276 2 7 2147483649 chain_code (x00 :: private_key).

Definition hash160 (q : list byte) : list byte := resize 20 x00 (reverse q).

(** Two paths, as segments: [0'/1] and [0/2147483648']. *)
Definition path_0h_1 : list segment :=
  [ {| seg_digits := "0"; seg_hardened := true |};
    {| seg_digits := "1"; seg_hardened := false |} ].

Definition path_0_big : list segment :=
  [ {| seg_digits := "0"; seg_hardened := false |};
    {| seg_digits := "2147483648"; seg_hardened := true |} ].

Definition path_0_1 : list segment :=
  [ {| seg_digits := "0"; seg_hardened := false |};
    {| seg_digits := "1"; seg_hardened := false |} ].

End Sample.

(** ** The class *)

Section Engine.

(** [createHmac('sha512', key).update(data).digest()] *)
Variable hmac_sha512 : list byte -> list byte -> list byte.

(** [CatapultECC.extractPublicKey(d, Cryptography.sha3Hash)] *)
Variable extractPublicKey : list byte -> list byte.

(** [Cryptography.hash160(q)] *)
Variable hash160 : list byte -> list byte.

(** The member [add] of the object [nacl_catapult] imported from
    nem2-library: [None] when the object has no such member, and the call
    [nacl_catapult.add(p, q)] then throws a [TypeError]. For [Some add],
    the call is made for its effect, its result is dropped: [add p q] is
    what the buffer [p] holds when the call returns. The second buffer is
    not kept by any node. *)
Variable nacl_add : option (list byte -> list byte -> list byte).

(** [bs58check.encode] and [bs58check.decode]; [None] when [decode]
    throws. *)
Variable bs58check_encode : list byte -> string.
Variable bs58check_decode : string -> option (list byte).

(** [Network.CATAPULT] *)
Variable CATAPULT : Network.

(** What [Buffer.allocUnsafe(n)] finds in the memory it is given. *)
Variable uninitialised : nat -> list byte.

(** A bound on the depth of the recursion of [CKDPub]. *)
Variable fuel : nat.

Definition allocUnsafe (n : nat) : list byte := resize n x00 (uninitialised n).

Definition HIGHEST_BIT : Z := 2147483648. (* 0x80000000 *)

(** [new NodeEd25519(D, Q, chainCode, network, DEPTH, INDEX, PARENT_FINGERPRINT)] *)
Definition new_NodeEd25519 (D Q : option nat) (cc : nat) (net : Network)
    (DEPTH INDEX PARENT_FINGERPRINT : Z) : M nat :=
  alloc_node {| __D := D; __Q := Q; chainCode := cc; network := net;
                __DEPTH := DEPTH; __INDEX := INDEX;
                __PARENT_FINGERPRINT := PARENT_FINGERPRINT |}.

(** [new NodeEd25519(D, Q, chainCode)]: the other parameters take their
    defaults [Network.CATAPULT], [0], [0] and [0x00000000]. *)
Definition new_NodeEd25519_default (D Q : option nat) (cc : nat) : M nat :=
  new_NodeEd25519 D Q cc CATAPULT 0 0 0.

Definition fromSeed (seed : list byte) (net : Network) : M nat :=
  if (length seed <? 16)%nat then throw InvalidSeedLength
  else if (64 <? length seed)%nat then throw InvalidSeedLength
  else
    let I := hmac_sha512 (list_byte_of_string "Catapult seed") seed in
    IL ← alloc_buffer (slice 0 32 I);
    IR ← alloc_buffer (drop 32 I);
    new_NodeEd25519 (Some IL) None IR net 0 0 0.

Definition fromBase58 (inString : string) (net : Network) : M nat :=
  match bs58check_decode inString with
  | None => throw Bs58checkError
  | Some buffer =>
    if negb (length buffer =? 78)%nat then throw InvalidLength else
    version ← lift (readUInt32BE 0 buffer);
    if negb (version =? privateKeyPrefix CATAPULT)
       && negb (version =? publicKeyPrefix CATAPULT)
    then throw InvalidVersion else
    let depth := byte_at 4 buffer in
    parentFingerprint ← lift (readUInt32BE 5 buffer);
    if (depth =? 0) && negb (parentFingerprint =? 0) then throw InvalidMasterNode else
    index ← lift (readUInt32BE 9 buffer);
    if (depth =? 0) && negb (index =? 0) then throw InvalidMasterNode else
    cc ← alloc_buffer (slice 13 45 buffer);
    if version =? privateKeyPrefix CATAPULT then
      marker ← lift (readUInt8 45 buffer);
      if negb (marker =? 0) then throw InvalidPrivateKeyMarker else
      k ← alloc_buffer (slice 46 78 buffer);
      new_NodeEd25519 (Some k) None cc net depth index parentFingerprint
    else
      X ← alloc_buffer (slice 45 78 buffer);
      new_NodeEd25519 None (Some X) cc net depth index parentFingerprint
  end.

Definition depth (this : nat) : M Z :=
  n ← read_node this; mret (__DEPTH n).

Definition index (this : nat) : M Z :=
  n ← read_node this; mret (__INDEX n).

Definition parentFingerprint (this : nat) : M Z :=
  n ← read_node this; mret (__PARENT_FINGERPRINT n).

(** The getter [publicKey]: computes and stores [__Q] when it is not set,
    and hands out the buffer itself. *)
Definition publicKey (this : nat) : M nat :=
  n ← read_node this;
  match __Q n with
  | Some q => mret q
  | None =>
    match __D n with
    | None => throw UndefinedKeyMaterial
    | Some d =>
      k ← read_buffer d;
      q ← alloc_buffer (extractPublicKey k);
      write_node this {| __D := __D n; __Q := Some q; chainCode := chainCode n;
                         network := network n; __DEPTH := __DEPTH n;
                         __INDEX := __INDEX n;
                         __PARENT_FINGERPRINT := __PARENT_FINGERPRINT n |};;
      mret q
    end
  end.

Definition privateKey (this : nat) : M nat :=
  n ← read_node this;
  match __D n with
  | None => throw MissingPrivateKey
  | Some d => mret d
  end.

Definition identifier (this : nat) : M (list byte) :=
  q ← publicKey this; Q ← read_buffer q; mret (hash160 Q).

Definition fingerprint (this : nat) : M (list byte) :=
  i ← identifier this; mret (slice 0 4 i).

Definition isNeutered (this : nat) : M bool :=
  n ← read_node this; mret (bool_decide (__D n = None)).

Definition neutered (this : nat) : M nat :=
  q ← publicKey this;
  n ← read_node this;
  d ← depth this;
  i ← index this;
  pf ← parentFingerprint this;
  new_NodeEd25519 None (Some q) (chainCode n) (network n) d i pf.

Definition toBase58 (this : nat) : M string :=
  n ← read_node this;
  neut ← isNeutered this;
  let version := if negb neut then privateKeyPrefix CATAPULT
                 else publicKeyPrefix CATAPULT in
  let buffer := allocUnsafe 78 in
  buffer ← lift (writeUInt32BE version 0 buffer);
  d ← depth this;
  buffer ← lift (writeUInt8 d 4 buffer);
  pf ← parentFingerprint this;
  buffer ← lift (writeUInt32BE pf 5 buffer);
  i ← index this;
  buffer ← lift (writeUInt32BE i 9 buffer);
  cc ← read_buffer (chainCode n);
  let buffer := buffer_copy cc 13 buffer in
  neut ← isNeutered this;
  if negb neut then
    buffer ← lift (writeUInt8 0 45 buffer);
    k ← privateKey this;
    K ← read_buffer k;
    mret (bs58check_encode (buffer_copy K 46 buffer))
  else
    q ← publicKey this;
    Q ← read_buffer q;
    mret (bs58check_encode (buffer_copy Q 45 buffer)).

Definition isValidPath (path : string) : bool := re_match path_regex path.

Definition CKDPriv (parent : nat) (index : Z) : M nat :=
  indexBuffer ← lift (writeUInt32BE index 0 (allocUnsafe 4));
  k ← privateKey parent;
  K ← read_buffer k;
  let data := [x00] ++ K ++ indexBuffer in
  n ← read_node parent;
  cc ← read_buffer (chainCode n);
  let I := hmac_sha512 cc data in
  IL ← alloc_buffer (slice 0 32 I);
  IR ← alloc_buffer (drop 32 I);
  new_NodeEd25519_default (Some IL) None IR.

Fixpoint CKDPub_rec (gas : nat) (parent : nat) (index : Z) : M nat :=
  match gas with
  | O => throw OutOfFuel
  | S gas' =>
    indexBuffer ← lift (writeUInt32BE index 0 (allocUnsafe 4));
    q ← publicKey parent;
    Q ← read_buffer q;
    let data := Q ++ indexBuffer in
    n ← read_node parent;
    cc ← read_buffer (chainCode n);
    let I := hmac_sha512 cc data in
    IL ← alloc_buffer (slice 0 32 I);
    IR ← alloc_buffer (drop 32 I);
    Ki ← publicKey parent;
    (* nacl_catapult.add(Ki, IL) *)
    match nacl_add with
    | None => throw NotAFunction
    | Some add =>
      point ← read_buffer Ki;
      scalar ← read_buffer IL;
      write_buffer Ki (add point scalar)
    end;;
    if is_null (JSBuffer Ki) then CKDPub_rec gas' parent (index + 1)
    else new_NodeEd25519_default None (Some Ki) IR
  end.

Definition CKDPub (parent : nat) (index : Z) : M nat :=
  CKDPub_rec fuel parent index.

Definition derive (this : nat) (index : Z) : M nat :=
  let isHardened := HIGHEST_BIT <=? index in
  (* isHardened && this.isNeutered() *)
  (if isHardened then isNeutered this else mret false) ≫= fun refused : bool =>
  if refused then throw MissingPrivateKey else
  let parentKey := this in
  neut ← isNeutered this;
  if negb neut then CKDPriv parentKey index
  else CKDPub parentKey index.

Definition deriveHardened (this : nat) (index : Z) : M nat :=
  let UINT31_MAX := 2 ^ 31 - 1 in
  if UINT31_MAX <? index then throw IndexOverflow
  else derive this (index + HIGHEST_BIT).

(** The function that [derivePath] folds over the segments. *)
Definition derivePath_step (prevHd : nat) (indexStr : string) : M nat :=
  if String.eqb (slice_last indexStr) "'" then
    match parseInt (slice_init indexStr) with
    | Some index => deriveHardened prevHd index
    | None => throw NaNIndex
    end
  else
    match parseInt indexStr with
    | Some index => derive prevHd index
    | None => throw NaNIndex
    end.

Definition derivePath (this : nat) (path : string) : M nat :=
  if negb (isValidPath path) then throw InvalidPath else
  let splitPath := split "/" path in
  let rooted := match splitPath with
                | s :: _ => String.eqb s "m"
                | [] => false
                end in
  pf ← (if rooted then parentFingerprint this else (mret 0 : M Z));
  if rooted && negb (pf =? 0) then throw ExpectedMasterNode else
  let splitPath := if rooted then tail splitPath else splitPath in
  reduce derivePath_step splitPath this.

(** ** Results, named for the statements below *)

(** A node with the defaults of the constructor that owns the two
    buffers created last in [σ]: the private key, then the chain code. *)
Definition seed_node (net : Network) (σ : heap) : NodeEd25519 :=
  {| __D := Some (length (buffers σ)); __Q := None;
     chainCode := S (length (buffers σ)); network := net;
     __DEPTH := 0; __INDEX := 0; __PARENT_FINGERPRINT := 0 |}.

(** The store after [CKDPriv] on a parent with private key [K] and chain
    code [cc]. *)
Definition CKDPriv_store (K cc : list byte) (index : Z) (σ : heap) : heap :=
  let I := hmac_sha512 cc ([x00] ++ K ++ uint32_be index) in
  {| buffers := buffers σ ++ [slice 0 32 I; drop 32 I];
     nodes := nodes σ ++ [seed_node CATAPULT σ] |}.

(** The store when [CKDPub] throws at the curve addition, on a parent
    whose public key holds [Q] and whose chain code is [cc]: the two halves
    of the HMAC have been created, and nothing else. *)
Definition CKDPub_store (Q cc : list byte) (index : Z) (σ : heap) : heap :=
  let I := hmac_sha512 cc (Q ++ uint32_be index) in
  {| buffers := buffers σ ++ [slice 0 32 I; drop 32 I];
     nodes := nodes σ |}.

(** A node of the data model has a key: its public key is set, or its
    private key is a buffer of the store. *)
Definition key_present (σ : heap) (n : NodeEd25519) : Prop :=
  is_Some (__Q n) \/ exists d K, __D n = Some d /\ buffers σ !! d = Some K.

(** [n'] is [n] but for the field [__Q]. *)
Definition same_but_Q (n n' : NodeEd25519) : Prop :=
  __D n' = __D n /\ chainCode n' = chainCode n /\ network n' = network n /\
  __DEPTH n' = __DEPTH n /\ __INDEX n' = __INDEX n /\
  __PARENT_FINGERPRINT n' = __PARENT_FINGERPRINT n.

(** [n] with its public key set to the buffer [q], as the getter
    [publicKey] leaves it. *)
Definition with_Q (n : NodeEd25519) (q : nat) : NodeEd25519 :=
  {| __D := __D n; __Q := Some q; chainCode := chainCode n;
     network := network n; __DEPTH := __DEPTH n; __INDEX := __INDEX n;
     __PARENT_FINGERPRINT := __PARENT_FINGERPRINT n |}.

(** The node [neutered] builds from [n] and the buffer [q] of its public
    key. *)
Definition neutered_node (n : NodeEd25519) (q : nat) : NodeEd25519 :=
  {| __D := None; __Q := Some q; chainCode := chainCode n;
     network := network n; __DEPTH := __DEPTH n; __INDEX := __INDEX n;
     __PARENT_FINGERPRINT := __PARENT_FINGERPRINT n |}.

(** The node [fromBase58] builds from a payload with parent fingerprint
    [pf] and index [idx]: the chain code, then the key, are the two buffers
    created last in [σ]. [private] tells which prefix the payload has. *)
Definition decoded_node (private : bool) (net : Network) (buffer : list byte)
    (pf idx : Z) (σ : heap) : NodeEd25519 :=
  {| __D := if private then Some (S (length (buffers σ))) else None;
     __Q := if private then None else Some (S (length (buffers σ)));
     chainCode := length (buffers σ); network := net;
     __DEPTH := byte_at 4 buffer; __INDEX := idx;
     __PARENT_FINGERPRINT := pf |}.

Definition decoded_store (private : bool) (net : Network) (buffer : list byte)
    (pf idx : Z) (σ : heap) : heap :=
  {| buffers := buffers σ ++ [slice 13 45 buffer;
                              slice (if private then 46 else 45) 78 buffer];
     nodes := nodes σ ++ [decoded_node private net buffer pf idx σ] |}.

(** The numeric fields of a node fit the record. *)
Definition fields_in_range (n : NodeEd25519) : Prop :=
  0 <= __DEPTH n < 256 /\ 0 <= __INDEX n < 2 ^ 32 /\
  0 <= __PARENT_FINGERPRINT n < 2 ^ 32.

(** The invariant of a master node, as far as [fromBase58] checks it. *)
Definition master_invariant (n : NodeEd25519) : Prop :=
  __DEPTH n = 0 -> __PARENT_FINGERPRINT n = 0 /\ __INDEX n = 0.

(** One step of a path: [deriveHardened] for a segment with the
    apostrophe, [derive] for one without. *)
Definition derive_segment (prev : nat) (g : segment) : M nat :=
  if seg_hardened g then deriveHardened prev (segment_index g)
  else derive prev (segment_index g).

(** ** Signing and verifying *)

(** [CatapultECC.sign(hash, publicKey, secretKey, hasher)] and
    [CatapultECC.verify(hash, publicKey, signature, hasher)]; a hasher
    [Cryptography.createSha3Hasher(length)] is given by its [length]. *)
Variable CatapultECC_sign : list byte -> list byte -> list byte -> nat -> list byte.
Variable CatapultECC_verify : list byte -> list byte -> list byte -> nat -> bool.

(** [sign(hash, length)]: the parameter [length] is not read. *)
Definition sign (this : nat) (hash : list byte) (length : nat) : M (list byte) :=
  secretKey ← privateKey this;
  let hasher := 64%nat in
  q ← publicKey this;
  Q ← read_buffer q;
  K ← read_buffer secretKey;
  mret (CatapultECC_sign hash Q K hasher).

Definition verify (this : nat) (hash signature : list byte) : M bool :=
  let length := if (length signature =? 32)%nat then 32%nat else 64%nat in
  let hasher := length in
  q ← publicKey this;
  Q ← read_buffer q;
  mret (CatapultECC_verify hash Q signature hasher).

(** ** Well-formed nodes, named for the statements below *)

(** The node [this] has a private key and a chain code in the store. *)
Definition private_ok (σ : heap) (this : nat) : Prop :=
  exists n k K cc,
    nodes σ !! this = Some n /\ __D n = Some k /\
    buffers σ !! k = Some K /\ buffers σ !! chainCode n = Some cc.

(** The node [this] is neutered, its public key is the buffer [q], and
    its chain code is in the store. *)
Definition holds_public_key (q : nat) (σ : heap) (this : nat) : Prop :=
  exists n Q cc,
    nodes σ !! this = Some n /\ __D n = None /\ __Q n = Some q /\
    buffers σ !! q = Some Q /\ buffers σ !! chainCode n = Some cc.

(** The index of a segment is one that derivation from a private key
    accepts: at most 2^31 - 1 with the apostrophe, a uint32 without. *)
Definition segment_in_range (g : segment) : Prop :=
  if seg_hardened g then segment_index g <= 2 ^ 31 - 1
  else segment_index g < 2 ^ 32.

(** Every object of [σ] is in [σ'], unchanged. *)
Definition store_extends (σ σ' : heap) : Prop :=
  (forall l bs, buffers σ !! l = Some bs -> buffers σ' !! l = Some bs) /\
  (forall j n, nodes σ !! j = Some n -> nodes σ' !! j = Some n).

(** The index that the text of a segment denotes, as [derivePath] reads
    it; [None] is NaN. *)
Definition segment_text_index (indexStr : string) : option Z :=
  if String.eqb (slice_last indexStr) "'" then parseInt (slice_init indexStr)
  else parseInt indexStr.

(** The segments that [derivePath] folds over: the parts of the path,
    without a first part [m]. *)
Definition path_segments (path : string) : list string :=
  match split "/" path with
  | s :: rest => if String.eqb s "m" then rest else s :: rest
  | [] => []
  end.

(** The error of a step from a neutered node at the segment [g], when
    [nacl_catapult.add] is no function. *)
Definition neutered_step_error (g : segment) : error :=
  if seg_hardened g then
    if 2 ^ 31 - 1 <? segment_index g then IndexOverflow else MissingPrivateKey
  else
    if segment_index g <? 2 ^ 31 then NotAFunction else MissingPrivateKey.

(** ** The life of a node *)

(** What a node [n] may become: [n'] has the fields of [n], but that a
    public key that was not set may be set. *)
Definition node_evolves (n n' : NodeEd25519) : Prop :=
  same_but_Q n n' /\ (forall q, __Q n = Some q -> __Q n' = Some q).

(** What a store may become: every buffer holds what it held, and every
    node is what it may become. *)
Definition store_evolves (σ σ' : heap) : Prop :=
  (forall l bs, buffers σ !! l = Some bs -> buffers σ' !! l = Some bs) /\
  (forall j n, nodes σ !! j = Some n ->
     exists n', nodes σ' !! j = Some n' /\ node_evolves n n').

(** A computation that leaves the store so, whatever it returns or
    throws. *)
Definition evolving {A : Type} (m : M A) : Prop :=
  forall σ, store_evolves σ (snd (m σ)).

(** A call of a method of the class or of one of the two child key
    derivation functions, with its arguments. *)
Inductive operation : Set :=
| call_fromSeed (seed : list byte) (net : Network)
| call_fromBase58 (inString : string) (net : Network)
| call_depth (this : nat)
| call_index (this : nat)
| call_parentFingerprint (this : nat)
| call_publicKey (this : nat)
| call_privateKey (this : nat)
| call_identifier (this : nat)
| call_fingerprint (this : nat)
| call_isNeutered (this : nat)
| call_neutered (this : nat)
| call_toBase58 (this : nat)
| call_derivePath (this : nat) (path : string)
| call_deriveHardened (this : nat) (index : Z)
| call_derive (this : nat) (index : Z)
| call_sign (this : nat) (hash : list byte) (length : nat)
| call_verify (this : nat) (hash signature : list byte)
| call_CKDPriv (parent : nat) (index : Z)
| call_CKDPub (parent : nat) (index : Z).

(** The store after a call, returned or thrown. *)
Definition perform (σ : heap) (op : operation) : heap :=
  match op with
  | call_fromSeed seed net => snd (fromSeed seed net σ)
  | call_fromBase58 inString net => snd (fromBase58 inString net σ)
  | call_depth this => snd (depth this σ)
  | call_index this => snd (index this σ)
  | call_parentFingerprint this => snd (parentFingerprint this σ)
  | call_publicKey this => snd (publicKey this σ)
  | call_privateKey this => snd (privateKey this σ)
  | call_identifier this => snd (identifier this σ)
  | call_fingerprint this => snd (fingerprint this σ)
  | call_isNeutered this => snd (isNeutered this σ)
  | call_neutered this => snd (neutered this σ)
  | call_toBase58 this => snd (toBase58 this σ)
  | call_derivePath this path => snd (derivePath this path σ)
  | call_deriveHardened this index => snd (deriveHardened this index σ)
  | call_derive this index => snd (derive this index σ)
  | call_sign this hash length => snd (sign this hash length σ)
  | call_verify this hash signature => snd (verify this hash signature σ)
  | call_CKDPriv parent index => snd (CKDPriv parent index σ)
  | call_CKDPub parent index => snd (CKDPub parent index σ)
  end.

(** * Properties *)

Set Default Proof Using "Type".

(** Unfold the monad and the store primitives. *)
Ltac unfold_monad :=
  unfold mbind, M_bind, mret, M_ret, throw, lift,
    alloc_buffer, read_buffer, write_buffer,
    alloc_node, read_node, write_node in *.

(** ** The primitives on examples *)

Local Open Scope string_scope.

Example uint32_be_hardened_0 :
  uint32_be 2147483648 = [x80; x00; x00; x00].
Proof. reflexivity. Qed.

Example readUInt32BE_example :
  readUInt32BE 1 [xff; x04; x88; xad; xe4] = Ok 76066276.
Proof. reflexivity. Qed.

Example buffer_copy_short :
  buffer_copy [x01; x02] 1 [xaa; xbb; xcc; xdd] = [xaa; x01; x02; xdd].
Proof. reflexivity. Qed.

Example buffer_copy_long :
  buffer_copy [x01; x02; x03] 2 [xaa; xbb; xcc; xdd] = [xaa; xbb; x01; x02].
Proof. reflexivity. Qed.

Example split_example : split "/" "m/0'/1" = ["m"; "0'"; "1"].
Proof. reflexivity. Qed.

Example split_empty_segment : split "/" "1//2/" = ["1"; EmptyString; "2"; EmptyString].
Proof. reflexivity. Qed.

Example parseInt_examples :
  parseInt "44" = Some 44 /\ parseInt "007" = Some 7 /\
  parseInt " 12'" = Some 12 /\ parseInt "-3" = Some (-3) /\
  parseInt "m" = None /\ parseInt EmptyString = None.
Proof. repeat split. Qed.

Example isValidPath_examples :
  isValidPath "m/44'/43'/0'/0'/0'" = true /\
  isValidPath "0/1'" = true /\
  isValidPath "m" = false /\
  isValidPath "m/" = false /\
  isValidPath "m//1" = false /\
  isValidPath "1/m/2" = false /\
  isValidPath "m/1''" = false /\
  isValidPath EmptyString = false.
Proof. repeat split. Qed.

Local Close Scope string_scope.

(** ** Running a computation step by step *)

Lemma bind_Ok {A B : Type} (m : M A) (f : A -> M B) σ a σ' :
  m σ = (Ok a, σ') -> (m ≫= f) σ = f a σ'.
Proof. intros H. unfold mbind, M_bind. rewrite H. reflexivity. Qed.

Lemma bind_Err {A B : Type} (m : M A) (f : A -> M B) σ e σ' :
  m σ = (Err e, σ') -> (m ≫= f) σ = (Err e, σ').
Proof. intros H. unfold mbind, M_bind. rewrite H. reflexivity. Qed.

Lemma read_node_Ok this σ n :
  nodes σ !! this = Some n -> read_node this σ = (Ok n, σ).
Proof. intros H. unfold read_node. rewrite H. reflexivity. Qed.

Lemma read_buffer_Ok l σ bs :
  buffers σ !! l = Some bs -> read_buffer l σ = (Ok bs, σ).
Proof. intros H. unfold read_buffer. rewrite H. reflexivity. Qed.

Lemma isNeutered_Ok this σ n :
  nodes σ !! this = Some n ->
  isNeutered this σ = (Ok (bool_decide (__D n = None)), σ).
Proof.
  intros H. unfold isNeutered.
  rewrite (bind_Ok _ _ _ _ _ (read_node_Ok _ _ _ H)). reflexivity.
Qed.

(** ** Bytes and numbers *)

Lemma byte_to_of_Z z : byte_to_Z (byte_of_Z z) = z mod 256.
Proof.
  unfold byte_to_Z, byte_of_Z.
  change 255 with (Z.ones 8). rewrite Z.land_ones by lia.
  change (2 ^ 8) with 256.
  pose proof (Z.mod_pos_bound z 256 ltac:(lia)) as Hb.
  destruct (Byte.of_N (Z.to_N (z mod 256))) as [b|] eqn:E.
  - cbn. apply Byte.to_of_N in E. rewrite E. lia.
  - apply Byte.of_N_None_iff in E. lia.
Qed.

Lemma uint32_be_value v a b c d :
  0 <= v < 2 ^ 32 -> uint32_be v = [a; b; c; d] ->
  byte_to_Z a * 2 ^ 24 + byte_to_Z b * 2 ^ 16 + byte_to_Z c * 2 ^ 8 + byte_to_Z d = v.
Proof.
  intros Hv E. unfold uint32_be in E. injection E as <- <- <- <-.
  rewrite !byte_to_of_Z, !Z.shiftr_div_pow2 by lia.
  change (2 ^ 24) with 16777216. change (2 ^ 16) with 65536.
  change (2 ^ 8) with 256. change (2 ^ 32) with 4294967296 in Hv.
  clear - Hv. Z.div_mod_to_equations. lia.
Qed.

Lemma readUInt32BE_uint32_be v rest :
  0 <= v < 2 ^ 32 -> readUInt32BE 0 (uint32_be v ++ rest) = Ok v.
Proof.
  intros Hv. unfold readUInt32BE. cbn.
  f_equal. eapply uint32_be_value; [exact Hv | reflexivity].
Qed.

(** ** Buffer writes fail with [RangeError] only *)

Lemma writeUInt32BE_Err value offset buf e :
  writeUInt32BE value offset buf = Err e -> e = RangeError.
Proof. unfold writeUInt32BE. case_match; congruence. Qed.

Lemma writeUInt32BE_Ok value offset buf :
  0 <= value < 2 ^ 32 -> (offset + 4 <= length buf)%nat ->
  writeUInt32BE value offset buf = Ok (write_bytes (uint32_be value) offset buf).
Proof.
  intros Hv Ho. unfold writeUInt32BE.
  replace (0 <=? value) with true by (symmetry; apply Z.leb_le; lia).
  replace (value <=? 4294967295) with true by (symmetry; apply Z.leb_le; lia).
  replace (offset + 4 <=? length buf)%nat with true
    by (symmetry; apply Nat.leb_le; lia).
  reflexivity.
Qed.

Lemma length_allocUnsafe n : length (allocUnsafe n) = n.
Proof. apply length_resize. Qed.

(** ** Strings *)

Local Open Scope string_scope.

Lemma append_nil_r (s : string) : s ++ EmptyString = s.
Proof. induction s as [|c s IH]; cbn; [reflexivity | rewrite IH; reflexivity]. Qed.

Lemma append_assoc (s t u : string) : (s ++ t) ++ u = s ++ t ++ u.
Proof. induction s as [|c s IH]; cbn; [reflexivity | rewrite IH; reflexivity]. Qed.

Lemma all_digits_app s t :
  all_digits (s ++ t) = all_digits s && all_digits t.
Proof.
  induction s as [|c s IH]; cbn; [reflexivity|].
  rewrite IH, andb_assoc. reflexivity.
Qed.

Lemma is_digit_not_slash c : is_digit c = true -> Ascii.eqb c "/" = false.
Proof.
  intros H. destruct (Ascii.eqb_spec c "/") as [->|]; [discriminate | reflexivity].
Qed.

Lemma all_digits_no_slash s : all_digits s = true -> no_slash s = true.
Proof.
  induction s as [|c s IH]; cbn; [reflexivity|].
  intros [Hc Hs]%andb_true_iff.
  rewrite (is_digit_not_slash _ Hc), IH by exact Hs. reflexivity.
Qed.

Lemma no_slash_app s t : no_slash (s ++ t) = no_slash s && no_slash t.
Proof.
  induction s as [|c s IH]; cbn; [reflexivity|].
  rewrite IH, andb_assoc. reflexivity.
Qed.

Lemma show_segment_no_slash g : segment_ok g -> no_slash (show_segment g) = true.
Proof.
  intros [_ H]. unfold show_segment.
  rewrite no_slash_app, (all_digits_no_slash _ H).
  destruct (seg_hardened g); reflexivity.
Qed.

(** *** split *)

Lemma split_no_slash s : no_slash s = true -> split "/" s = [s].
Proof.
  induction s as [|c s IH]; cbn; [reflexivity|].
  intros [Hc Hs]%andb_true_iff. apply negb_true_iff in Hc.
  rewrite Hc, IH by exact Hs. reflexivity.
Qed.

Lemma split_app_slash s rest :
  no_slash s = true -> split "/" (s ++ String "/" rest) = s :: split "/" rest.
Proof.
  induction s as [|c s IH]; cbn; [reflexivity|].
  intros [Hc Hs]%andb_true_iff. apply negb_true_iff in Hc.
  rewrite Hc, IH by exact Hs. reflexivity.
Qed.

Lemma split_join_path (l : list string) :
  l <> [] -> Forall (fun s => no_slash s = true) l ->
  split "/" (join_path l) = l.
Proof.
  intros Hne Hall. induction Hall as [|x l Hx Hl IH]; [congruence|].
  destruct l as [|y l].
  - cbn. apply split_no_slash, Hx.
  - change (join_path (x :: y :: l)) with (x ++ String "/" (join_path (y :: l))).
    rewrite split_app_slash by exact Hx. rewrite IH by discriminate.
    reflexivity.
Qed.

Lemma join_path_snoc segs g :
  show_prefix segs ++ show_segment g = join_path (map show_segment (segs ++ [g])).
Proof.
  induction segs as [|h segs IH]; [reflexivity|].
  cbn [show_prefix app map]. rewrite !append_assoc, IH.
  destruct (map show_segment (segs ++ [g])) eqn:E; [|reflexivity].
  destruct segs; discriminate.
Qed.

(** *** The two slices of a segment *)

Lemma slice_last_app_char s c : slice_last (s ++ String c EmptyString) = String c EmptyString.
Proof.
  induction s as [|a s IH]; [reflexivity|].
  cbn [append slice_last]. rewrite IH. destruct s; reflexivity.
Qed.

Lemma slice_init_app_char s c : slice_init (s ++ String c EmptyString) = s.
Proof.
  induction s as [|a s IH]; [reflexivity|].
  cbn [append slice_init]. rewrite IH. destruct s; reflexivity.
Qed.

Lemma slice_last_digits s :
  all_digits s = true -> String.eqb (slice_last s) "'" = false.
Proof.
  induction s as [|a s IH]; [reflexivity|].
  cbn [all_digits]. intros [Ha Hs]%andb_true_iff.
  destruct s as [|b s].
  - cbn [slice_last String.eqb].
    destruct (Ascii.eqb_spec a "'") as [->|]; [discriminate | reflexivity].
  - exact (IH Hs).
Qed.

(** *** parseInt on digits *)

Lemma parse_digits_all seen acc s :
  all_digits s = true -> seen = true \/ s <> EmptyString ->
  parse_digits seen acc s = Some (decimal acc s).
Proof.
  revert seen acc. induction s as [|c s IH]; intros seen acc Hall Hne; cbn.
  - destruct Hne as [->|Hne]; [reflexivity | congruence].
  - cbn in Hall. apply andb_true_iff in Hall as [Hc Hs].
    rewrite Hc. apply IH; [exact Hs | left; reflexivity].
Qed.

Lemma parseInt_digits s :
  s <> EmptyString -> all_digits s = true -> parseInt s = Some (decimal 0 s).
Proof.
  intros Hne Hall. destruct s as [|c s]; [congruence|].
  pose proof (parse_digits_all false 0 (String c s) Hall (or_intror Hne)) as H.
  cbn [all_digits] in Hall. apply andb_true_iff in Hall as [Hc _].
  unfold parseInt. cbn [skip_spaces].
  destruct c as [[] [] [] [] [] [] [] []]; try discriminate Hc; exact H.
Qed.

Local Close Scope string_scope.

(** ** The path grammar *)

Local Open Scope string_scope.

Lemma re_lang_nullable r : nullable r = true -> re_lang r EmptyString.
Proof.
  induction r as [| |c| |r1 IH1 r2 IH2|r1 IH1 r2 IH2|r IH]; cbn;
    try discriminate; intros H.
  - constructor.
  - apply andb_true_iff in H as [H1 H2].
    change EmptyString with (EmptyString ++ EmptyString).
    apply lang_cat; auto.
  - apply orb_true_iff in H as [H|H];
      [apply lang_alt_l | apply lang_alt_r]; auto.
  - constructor.
Qed.

Lemma re_lang_deriv a r s : re_lang (deriv a r) s -> re_lang r (String a s).
Proof.
  revert s.
  induction r as [| |c| |r1 IH1 r2 IH2|r1 IH1 r2 IH2|r IH];
    intros s H; cbn in H.
  - inversion H.
  - inversion H.
  - destruct (Ascii.eqb_spec a c) as [->|]; inversion H; subst. constructor.
  - destruct (is_digit a) eqn:E; inversion H; subst. constructor. exact E.
  - destruct (nullable r1) eqn:N.
    + inversion H as [| | | |? ? ? H'|? ? ? H'| |]; subst.
      * inversion H'; subst.
        change (String a (?u ++ ?v)) with (String a u ++ v).
        apply lang_cat; auto.
      * change (String a s) with (EmptyString ++ String a s).
        apply lang_cat; [apply re_lang_nullable, N | auto].
    + inversion H; subst.
      change (String a (?u ++ ?v)) with (String a u ++ v).
      apply lang_cat; auto.
  - inversion H; subst; [apply lang_alt_l | apply lang_alt_r]; auto.
  - inversion H; subst.
    change (String a (?u ++ ?v)) with (String a u ++ v).
    apply lang_star_cons; auto.
Qed.

Lemma re_match_sound r s : re_match r s = true -> re_lang r s.
Proof.
  revert r. induction s as [|a s IH]; intros r H; cbn in H.
  - apply re_lang_nullable, H.
  - apply re_lang_deriv, IH, H.
Qed.

Lemma lang_star_digits v : re_lang (Star Digit) v -> all_digits v = true.
Proof.
  intros H. remember (Star Digit) as r eqn:E.
  induction H as [| | | | | | |r u v Hu _ Hv IH]; try discriminate E.
  - reflexivity.
  - injection E as ->. inversion Hu; subst. cbn.
    rewrite IH by reflexivity. rewrite andb_true_r. assumption.
Qed.

Lemma lang_plus_digits u :
  re_lang (Plus Digit) u -> u <> EmptyString /\ all_digits u = true.
Proof.
  intros H. inversion H as [| | |? ? ? ? Hd Hs| | | |]; subst.
  inversion Hd; subst. split; [discriminate|].
  cbn. rewrite (lang_star_digits _ Hs), andb_true_r. assumption.
Qed.

Lemma lang_opt_char c u :
  re_lang (Opt (Chr c)) u -> u = EmptyString \/ u = String c EmptyString.
Proof.
  intros H. inversion H as [| | | |? ? ? H'|? ? ? H'| |]; subst;
    inversion H'; subst; auto.
Qed.

(** A word of [\d+'?] is a segment. *)
Lemma lang_last_segment u :
  re_lang (Cat (Plus Digit) (Opt (Chr "'"))) u ->
  exists g, segment_ok g /\ u = show_segment g.
Proof.
  intros H. inversion H as [| | |? ? ds q Hds Hq| | | |]; subst.
  apply lang_plus_digits in Hds as [Hne Hall].
  apply lang_opt_char in Hq as [->| ->].
  - exists {| seg_digits := ds; seg_hardened := false |}.
    split; [split; assumption | reflexivity].
  - exists {| seg_digits := ds; seg_hardened := true |}.
    split; [split; assumption | reflexivity].
Qed.

(** A word of [\d+'?\/] is a segment and a slash. *)
Lemma lang_segment_slash u :
  re_lang (Cat (Plus Digit) (Cat (Opt (Chr "'")) (Chr "/"))) u ->
  exists g, segment_ok g /\ u = show_segment g ++ "/".
Proof.
  intros H. inversion H as [| | |? ? ds t Hds Ht| | | |]; subst.
  inversion Ht as [| | |? ? q sl Hq Hsl| | | |]; subst.
  inversion Hsl; subst.
  apply lang_plus_digits in Hds as [Hne Hall].
  apply lang_opt_char in Hq as [->| ->].
  - exists {| seg_digits := ds; seg_hardened := false |}.
    split; [split; assumption|]. unfold show_segment. cbn.
    rewrite append_assoc. reflexivity.
  - exists {| seg_digits := ds; seg_hardened := true |}.
    split; [split; assumption|]. unfold show_segment. cbn.
    rewrite append_assoc. reflexivity.
Qed.

Lemma lang_segments m :
  re_lang (Star (Cat (Plus Digit) (Cat (Opt (Chr "'")) (Chr "/")))) m ->
  exists segs, Forall segment_ok segs /\ m = show_prefix segs.
Proof.
  intros H.
  remember (Star (Cat (Plus Digit) (Cat (Opt (Chr "'")) (Chr "/")))) as r eqn:E.
  induction H as [| | | | | | |r u v Hu _ Hv IH]; try discriminate E.
  - exists []. split; [constructor | reflexivity].
  - injection E as ->.
    destruct (lang_segment_slash _ Hu) as (g & Hg & ->).
    destruct (IH eq_refl) as (segs & Hsegs & ->).
    exists (g :: segs). split; [constructor; assumption|].
    cbn [show_prefix]. rewrite append_assoc. reflexivity.
Qed.

(** A valid path is [m/], or nothing, and one segment or more. *)
Lemma isValidPath_shape path :
  isValidPath path = true ->
  exists rooted segs,
    segs <> [] /\ Forall segment_ok segs /\ path = show_path rooted segs.
Proof.
  intros H. apply re_match_sound in H. unfold path_regex in H.
  inversion H as [| | |? ? p t Hp Ht| | | |]; subst.
  inversion Ht as [| | |? ? m l Hm Hl| | | |]; subst.
  apply lang_segments in Hm as (segs & Hsegs & ->).
  apply lang_last_segment in Hl as (g & Hg & ->).
  rewrite join_path_snoc.
  assert (Hp' : p = EmptyString \/ p = "m/").
  { inversion Hp as [| | | |? ? ? H'|? ? ? H'| |]; subst.
    - inversion H'; subst. left. reflexivity.
    - inversion H' as [| | |? ? a b Ha Hb| | | |]; subst.
      inversion Ha; subst. inversion Hb; subst. right. reflexivity. }
  assert (Hok : Forall segment_ok (segs ++ [g])%list)
    by (apply Forall_app; split; [assumption | constructor; [assumption | constructor]]).
  assert (Hne : (segs ++ [g])%list <> []) by (destruct segs; discriminate).
  destruct Hp' as [->| ->].
  - exists false, (segs ++ [g])%list. repeat split; assumption.
  - exists true, (segs ++ [g])%list. repeat split; assumption.
Qed.

Local Close Scope string_scope.

(** ** fromSeed *)

(** C7: [fromSeed] throws the seed length error exactly for the seeds
    shorter than 16 or longer than 64 bytes; a seed of 16 to 64 bytes gives
    a master node whose private key and chain code are the two halves of
    the HMAC of the seed. *)
Theorem fromSeed_seed_boundary (seed : list byte) (net : Network) (σ : heap) :
  (fst (fromSeed seed net σ) = Err InvalidSeedLength <->
   (length seed < 16 \/ 64 < length seed)%nat) /\
  ((16 <= length seed <= 64)%nat ->
   let I := hmac_sha512 (list_byte_of_string "Catapult seed") seed in
   fromSeed seed net σ =
     (Ok (length (nodes σ)),
      {| buffers := buffers σ ++ [slice 0 32 I] ++ [drop 32 I];
         nodes := nodes σ ++ [seed_node net σ] |})).
Proof.
  unfold fromSeed, new_NodeEd25519, seed_node. unfold_monad.
  destruct (Nat.ltb_spec (length seed) 16) as [Hlo|Hlo];
    [|destruct (Nat.ltb_spec 64 (length seed)) as [Hhi|Hhi]]; cbn.
  - split; [split; [lia | reflexivity] | lia].
  - split; [split; [lia | reflexivity] | lia].
  - split; [split; [discriminate | lia] |].
    intros _. rewrite length_app, <- app_assoc. cbn.
    repeat f_equal; lia.
Qed.

(** ** Running the child key derivation functions *)

Lemma write_bytes_whole (bs buf : list byte) :
  length buf = length bs -> write_bytes bs 0 buf = bs.
Proof.
  intros H. unfold write_bytes. cbn. rewrite drop_ge by lia.
  apply app_nil_r.
Qed.

Lemma indexBuffer_Ok index :
  0 <= index < 2 ^ 32 ->
  writeUInt32BE index 0 (allocUnsafe 4) = Ok (uint32_be index).
Proof.
  intros H. rewrite writeUInt32BE_Ok; [|lia|rewrite length_allocUnsafe; lia].
  rewrite write_bytes_whole; [reflexivity|apply length_allocUnsafe].
Qed.

Lemma lookup_old {A : Type} (l l' : list A) i x :
  l !! i = Some x -> (l ++ l') !! i = Some x.
Proof. intros H. rewrite lookup_app_l; [exact H|]. eapply lookup_lt_Some, H. Qed.

Lemma lookup_new {A : Type} (l l' : list A) x :
  (l ++ x :: l') !! length l = Some x.
Proof. apply list_lookup_middle. reflexivity. Qed.

Lemma CKDPriv_run parent index σ n k K cc :
  nodes σ !! parent = Some n -> __D n = Some k ->
  buffers σ !! k = Some K -> buffers σ !! chainCode n = Some cc ->
  0 <= index < 2 ^ 32 ->
  CKDPriv parent index σ = (Ok (length (nodes σ)), CKDPriv_store K cc index σ).
Proof.
  intros Hn Hk HK Hcc Hi. unfold CKDPriv.
  rewrite (indexBuffer_Ok _ Hi).
  unfold privateKey, new_NodeEd25519_default, new_NodeEd25519. unfold_monad.
  cbn. rewrite Hn. cbn. rewrite Hk. cbn. rewrite HK. cbn.
  rewrite Hn. cbn. rewrite Hcc. cbn.
  unfold CKDPriv_store, seed_node. cbn.
  rewrite length_app, <- app_assoc. cbn.
  repeat f_equal; lia.
Qed.

Lemma CKDPub_rec_run gas parent index σ n q Q cc :
  nacl_add = None ->
  nodes σ !! parent = Some n -> __Q n = Some q ->
  buffers σ !! q = Some Q -> buffers σ !! chainCode n = Some cc ->
  0 <= index < 2 ^ 32 ->
  CKDPub_rec (S gas) parent index σ =
    (Err NotAFunction, CKDPub_store Q cc index σ).
Proof.
  intros Hadd Hn Hq HQ Hcc Hi. cbn [CKDPub_rec].
  rewrite (indexBuffer_Ok _ Hi), Hadd.
  unfold publicKey, new_NodeEd25519_default, new_NodeEd25519. unfold_monad.
  cbn. rewrite Hn. cbn. rewrite Hq. cbn. rewrite HQ. cbn.
  rewrite Hn. cbn. rewrite Hcc. cbn. rewrite Hn. cbn. rewrite Hq. cbn.
  rewrite <- app_assoc. reflexivity.
Qed.

(** [CKDPub] returns nothing when the curve addition is no function. *)
Lemma CKDPub_rec_no_child gas parent index σ child σ' :
  nacl_add = None -> CKDPub_rec gas parent index σ <> (Ok child, σ').
Proof.
  intros Hadd. destruct gas as [|gas]; cbn [CKDPub_rec]; [discriminate|].
  rewrite Hadd.
  unfold publicKey, new_NodeEd25519_default, new_NodeEd25519. unfold_monad.
  repeat (case_match; simplify_eq/=; try congruence).
Qed.

Lemma lookup_new2 {A : Type} (l : list A) x y :
  (l ++ [x; y]) !! S (length l) = Some y.
Proof.
  rewrite lookup_app_r by lia.
  replace (S (length l) - length l)%nat with 1%nat by lia. reflexivity.
Qed.

(** C1: [CKDPriv] gives the child the two halves of the HMAC as private
    key and chain code and no public key; the child is built with the
    defaults of the constructor, so its depth, index and parent fingerprint
    are 0 whatever the parent and the index are. *)
Theorem CKDPriv_child (parent : nat) (index : Z) (σ : heap)
    (n : NodeEd25519) (k : nat) (K cc : list byte) :
  nodes σ !! parent = Some n -> __D n = Some k ->
  buffers σ !! k = Some K -> buffers σ !! chainCode n = Some cc ->
  0 <= index < 2 ^ 32 ->
  let I := hmac_sha512 cc ([x00] ++ K ++ uint32_be index) in
  exists child σ' c IL,
    CKDPriv parent index σ = (Ok child, σ') /\
    nodes σ' !! child = Some c /\
    __D c = Some IL /\ buffers σ' !! IL = Some (slice 0 32 I) /\
    buffers σ' !! chainCode c = Some (drop 32 I) /\
    __Q c = None /\
    __DEPTH c = 0 /\ __INDEX c = 0 /\ __PARENT_FINGERPRINT c = 0 /\
    (0 <= __DEPTH n -> __DEPTH c <> __DEPTH n + 1).
Proof.
  intros Hn Hk HK Hcc Hi I.
  exists (length (nodes σ)), (CKDPriv_store K cc index σ),
    (seed_node CATAPULT σ), (length (buffers σ)).
  split; [eapply CKDPriv_run; eassumption|].
  split; [apply lookup_new|].
  split; [reflexivity|].
  split; [apply lookup_new|].
  split; [apply lookup_new2|].
  cbn. repeat split. lia.
Qed.

(** C10: one call of [CKDPub] never reaches the call of itself: more fuel
    does not change what it does, and it never runs out of fuel. It does
    not return on its first invocation either when [nacl_catapult] has no
    member [add], as in nem2-library: then no call of [CKDPub] returns a
    child, and on a parent with a public key and a uint32 index the call
    throws the TypeError of the curve addition, after it has created the
    two halves of the HMAC; no node is changed and the buffer of the
    parent's public key holds what it held. *)
Theorem CKDPub_throws_without_retry (parent : nat) (index : Z) (σ : heap) :
  (forall gas, CKDPub_rec (S gas) parent index σ = CKDPub_rec 1 parent index σ) /\
  fst (CKDPub_rec 1 parent index σ) <> Err OutOfFuel /\
  (nacl_add = None ->
   (forall gas child σ', CKDPub_rec gas parent index σ <> (Ok child, σ')) /\
   (forall n q Q cc,
      nodes σ !! parent = Some n -> __Q n = Some q ->
      buffers σ !! q = Some Q -> buffers σ !! chainCode n = Some cc ->
      0 <= index < 2 ^ 32 ->
      exists σ',
        CKDPub_rec 1 parent index σ = (Err NotAFunction, σ') /\
        nodes σ' = nodes σ /\ buffers σ' !! q = Some Q /\
        (forall l bs, buffers σ !! l = Some bs -> buffers σ' !! l = Some bs))).
Proof.
  split; [|split].
  - intros gas. reflexivity.
  - cbn. unfold publicKey, new_NodeEd25519_default, new_NodeEd25519.
    unfold_monad.
    repeat (case_match; simplify_eq/=; try congruence);
    match goal with H : writeUInt32BE _ _ _ = Err _ |- _ =>
      apply writeUInt32BE_Err in H; congruence end.
  - intros Hadd. split.
    + intros gas child σ'. apply CKDPub_rec_no_child, Hadd.
    + intros n q Q cc Hn Hq HQ Hcc Hi.
      exists (CKDPub_store Q cc index σ).
      split; [eapply CKDPub_rec_run; eassumption|].
      split; [reflexivity|].
      split; [apply lookup_old, HQ|].
      intros l bs Hl. apply lookup_old, Hl.
Qed.

(** ** What the derivation functions can throw *)

Lemma CKDPriv_not_overflow parent index σ :
  fst (CKDPriv parent index σ) <> Err IndexOverflow.
Proof.
  unfold CKDPriv, privateKey, new_NodeEd25519_default, new_NodeEd25519.
  unfold_monad.
  repeat (case_match; simplify_eq/=; try congruence).
  match goal with H : writeUInt32BE _ _ _ = Err _ |- _ =>
    apply writeUInt32BE_Err in H; congruence end.
Qed.

Lemma CKDPub_rec_not_overflow gas parent index σ :
  fst (CKDPub_rec gas parent index σ) <> Err IndexOverflow.
Proof.
  revert index σ. induction gas as [|gas IH]; intros index σ; cbn.
  - discriminate.
  - unfold publicKey, new_NodeEd25519_default, new_NodeEd25519.
    unfold_monad.
    repeat (case_match; simplify_eq/=; try congruence);
    match goal with H : writeUInt32BE _ _ _ = Err _ |- _ =>
      apply writeUInt32BE_Err in H; congruence end.
Qed.

Lemma derive_not_overflow this index σ :
  fst (derive this index σ) <> Err IndexOverflow.
Proof.
  unfold derive, isNeutered, CKDPub. unfold_monad.
  repeat (case_match; simplify_eq/=; try congruence);
    first [apply CKDPriv_not_overflow | apply CKDPub_rec_not_overflow].
Qed.

Lemma deriveHardened_in_range this index σ :
  index <= 2 ^ 31 - 1 ->
  deriveHardened this index σ = derive this (index + 2 ^ 31) σ.
Proof.
  intros H. unfold deriveHardened.
  destruct (Z.ltb_spec (2 ^ 31 - 1) index); [lia | reflexivity].
Qed.

(** C5: [deriveHardened] throws the index overflow error exactly when the
    index exceeds 2^31 - 1, and is [derive] at [index + 2^31] otherwise. *)
Theorem deriveHardened_overflow (this : nat) (index : Z) (σ : heap) :
  (fst (deriveHardened this index σ) = Err IndexOverflow <-> 2 ^ 31 - 1 < index) /\
  (index <= 2 ^ 31 - 1 ->
   deriveHardened this index σ = derive this (index + 2 ^ 31) σ).
Proof.
  unfold deriveHardened.
  destruct (Z.ltb_spec (2 ^ 31 - 1) index) as [Hgt|Hle].
  - split; [split; [intros _; exact Hgt | reflexivity] | lia].
  - split; [|reflexivity].
    split; [|lia]. intros H. exfalso. exact (derive_not_overflow _ _ _ H).
Qed.

Lemma derive_neutered_hardened this index σ n :
  nodes σ !! this = Some n -> __D n = None -> 2 ^ 31 <= index ->
  derive this index σ = (Err MissingPrivateKey, σ).
Proof.
  intros Hn HD Hi. unfold derive.
  replace (HIGHEST_BIT <=? index) with true
    by (symmetry; apply Z.leb_le; unfold HIGHEST_BIT; lia).
  rewrite (bind_Ok _ _ _ _ _ (isNeutered_Ok _ _ _ Hn)).
  rewrite bool_decide_eq_true_2 by exact HD.
  reflexivity.
Qed.

Lemma derive_private this index σ n :
  nodes σ !! this = Some n -> __D n <> None ->
  derive this index σ = CKDPriv this index σ.
Proof.
  intros Hn HD. unfold derive.
  assert (E : (if HIGHEST_BIT <=? index then isNeutered this
               else (mret false : M bool)) σ = (Ok false, σ)).
  { destruct (HIGHEST_BIT <=? index); [|reflexivity].
    rewrite (isNeutered_Ok _ _ _ Hn).
    rewrite bool_decide_eq_false_2 by exact HD. reflexivity. }
  rewrite (bind_Ok _ _ _ _ _ E).
  rewrite (bind_Ok _ _ _ _ _ (isNeutered_Ok _ _ _ Hn)).
  rewrite bool_decide_eq_false_2 by exact HD. reflexivity.
Qed.

Lemma derive_neutered_normal this index σ n :
  nodes σ !! this = Some n -> __D n = None -> index < 2 ^ 31 ->
  derive this index σ = CKDPub this index σ.
Proof.
  intros Hn HD Hi. unfold derive.
  replace (HIGHEST_BIT <=? index) with false
    by (symmetry; apply Z.leb_gt; unfold HIGHEST_BIT; lia).
  unfold mbind at 1, M_bind at 1, mret, M_ret.
  rewrite (bind_Ok _ _ _ _ _ (isNeutered_Ok _ _ _ Hn)).
  rewrite bool_decide_eq_true_2 by exact HD. reflexivity.
Qed.

(** C4: on a neutered node [derive] throws for every index that has the
    hardened bit, leaving the store as it was; a node with a private key is
    derived by [CKDPriv], a neutered node at an index without the hardened
    bit by [CKDPub]. *)
Theorem derive_dispatch (this : nat) (index : Z) (σ : heap) (n : NodeEd25519) :
  nodes σ !! this = Some n ->
  (__D n = None -> 2 ^ 31 <= index ->
   derive this index σ = (Err MissingPrivateKey, σ)) /\
  (__D n <> None -> derive this index σ = CKDPriv this index σ) /\
  (__D n = None -> index < 2 ^ 31 ->
   derive this index σ = CKDPub this index σ).
Proof.
  intros Hn. split; [|split].
  - apply derive_neutered_hardened, Hn.
  - apply derive_private, Hn.
  - apply derive_neutered_normal, Hn.
Qed.

(** ** The getter [publicKey] *)

Lemma publicKey_cached this σ n q :
  nodes σ !! this = Some n -> __Q n = Some q ->
  publicKey this σ = (Ok q, σ).
Proof.
  intros Hn Hq. unfold publicKey.
  rewrite (bind_Ok _ _ _ _ _ (read_node_Ok _ _ _ Hn)), Hq. reflexivity.
Qed.

Lemma publicKey_computed this σ n d K :
  nodes σ !! this = Some n -> __Q n = None ->
  __D n = Some d -> buffers σ !! d = Some K ->
  publicKey this σ =
    (Ok (length (buffers σ)),
     {| buffers := buffers σ ++ [extractPublicKey K];
        nodes := <[this := with_Q n (length (buffers σ))]> (nodes σ) |}).
Proof.
  intros Hn Hq Hd HK. unfold publicKey.
  rewrite (bind_Ok _ _ _ _ _ (read_node_Ok _ _ _ Hn)), Hq, Hd.
  rewrite (bind_Ok _ _ _ _ _ (read_buffer_Ok _ _ _ HK)).
  unfold with_Q. rewrite Hd. reflexivity.
Qed.

(** ** neutered *)

Lemma neutered_run this σ n q σ1 :
  publicKey this σ = (Ok q, σ1) -> nodes σ1 !! this = Some n ->
  neutered this σ =
    (Ok (length (nodes σ1)),
     {| buffers := buffers σ1; nodes := nodes σ1 ++ [neutered_node n q] |}).
Proof.
  intros Hpk Hn. unfold neutered, depth, index, parentFingerprint.
  rewrite (bind_Ok _ _ _ _ _ Hpk).
  rewrite (bind_Ok _ _ _ _ _ (read_node_Ok _ _ _ Hn)).
  unfold new_NodeEd25519. unfold_monad. rewrite !Hn. reflexivity.
Qed.

(** C9: [neutered] returns a new node without private key whose other
    fields are those of the node; the node keeps its fields, but for its
    public key being stored if it was not yet, and no buffer is changed.
    The new node is neutered and its public key is the public key of the
    node. *)
Theorem neutered_strips_private_key (this : nat) (σ : heap) (n : NodeEd25519) :
  nodes σ !! this = Some n -> key_present σ n ->
  exists new σ' q n',
    neutered this σ = (Ok new, σ') /\
    new = length (nodes σ) /\
    nodes σ' !! new = Some (neutered_node n q) /\
    nodes σ' !! this = Some n' /\
    same_but_Q n n' /\ __Q n' = Some q /\ (__Q n = None \/ __Q n = Some q) /\
    (forall l bs, buffers σ !! l = Some bs -> buffers σ' !! l = Some bs) /\
    isNeutered new σ' = (Ok true, σ') /\
    publicKey new σ' = (Ok q, σ') /\
    publicKey this σ' = (Ok q, σ') /\
    exists σ1, publicKey this σ = (Ok q, σ1) /\
               buffers σ1 !! q = buffers σ' !! q.
Proof.
  intros Hn Hkey. unfold key_present in Hkey.
  assert (Hlt : (this < length (nodes σ))%nat) by (eapply lookup_lt_Some, Hn).
  destruct (__Q n) as [q|] eqn:HQ.
  - pose proof (publicKey_cached _ _ _ _ Hn HQ) as Hpk.
    pose proof (neutered_run _ _ _ _ _ Hpk Hn) as Hrun.
    set (σ' := {| buffers := buffers σ; nodes := nodes σ ++ [neutered_node n q] |}) in *.
    assert (Hnew : nodes σ' !! length (nodes σ) = Some (neutered_node n q))
      by apply lookup_new.
    assert (Hthis : nodes σ' !! this = Some n) by (apply lookup_old, Hn).
    exists (length (nodes σ)), σ', q, n.
    repeat split; try assumption; try reflexivity.
    + right. reflexivity.
    + intros l bs H. exact H.
    + rewrite (isNeutered_Ok _ _ _ Hnew). reflexivity.
    + apply (publicKey_cached _ _ _ _ Hnew). reflexivity.
    + apply (publicKey_cached _ _ _ _ Hthis). exact HQ.
    + exists σ. split; [exact Hpk | reflexivity].
  - destruct Hkey as [[q Hq]|(d & K & Hd & HK)]; [discriminate|].
    pose proof (publicKey_computed _ _ _ _ _ Hn HQ Hd HK) as Hpk.
    set (q := length (buffers σ)) in *.
    set (σ1 := {| buffers := buffers σ ++ [extractPublicKey K];
                  nodes := <[this := with_Q n q]> (nodes σ) |}) in *.
    assert (Hn1 : nodes σ1 !! this = Some (with_Q n q))
      by (apply list_lookup_insert_eq, Hlt).
    pose proof (neutered_run _ _ _ _ _ Hpk Hn1) as Hrun.
    set (σ' := {| buffers := buffers σ1;
                  nodes := nodes σ1 ++ [neutered_node (with_Q n q) q] |}) in *.
    assert (Hlen : length (nodes σ1) = length (nodes σ)) by apply length_insert.
    assert (Hnew : nodes σ' !! length (nodes σ) = Some (neutered_node n q))
      by (rewrite <- Hlen; apply lookup_new).
    assert (Hthis : nodes σ' !! this = Some (with_Q n q)) by (apply lookup_old, Hn1).
    exists (length (nodes σ)), σ', q, (with_Q n q).
    rewrite Hlen in Hrun.
    repeat split; try assumption; try reflexivity.
    + left. reflexivity.
    + intros l bs H. apply lookup_old, H.
    + rewrite (isNeutered_Ok _ _ _ Hnew). reflexivity.
    + apply (publicKey_cached _ _ _ _ Hnew). reflexivity.
    + apply (publicKey_cached _ _ _ _ Hthis). reflexivity.
    + exists σ1. split; [exact Hpk | reflexivity].
Qed.

(** ** fromBase58 *)

Lemma readUInt32BE_is_Ok offset (buf : list byte) :
  (offset + 4 <= length buf)%nat -> exists v, readUInt32BE offset buf = Ok v.
Proof.
  intros H. unfold readUInt32BE.
  destruct (lookup_lt_is_Some_2 buf offset) as [a ->]; [lia|].
  destruct (lookup_lt_is_Some_2 buf (offset + 1)) as [b ->]; [lia|].
  destruct (lookup_lt_is_Some_2 buf (offset + 2)) as [c ->]; [lia|].
  destruct (lookup_lt_is_Some_2 buf (offset + 3)) as [d ->]; [lia|].
  eexists. reflexivity.
Qed.

Lemma readUInt8_is_Ok offset (buf : list byte) :
  (offset < length buf)%nat -> exists v, readUInt8 offset buf = Ok v.
Proof.
  intros H. unfold readUInt8.
  destruct (lookup_lt_is_Some_2 buf offset) as [a ->]; [lia|].
  eexists. reflexivity.
Qed.

Lemma fromBase58_run inString net σ buffer version pf idx marker :
  bs58check_decode inString = Some buffer -> length buffer = 78%nat ->
  readUInt32BE 0 buffer = Ok version -> readUInt32BE 5 buffer = Ok pf ->
  readUInt32BE 9 buffer = Ok idx -> readUInt8 45 buffer = Ok marker ->
  version = privateKeyPrefix CATAPULT \/ version = publicKeyPrefix CATAPULT ->
  (byte_at 4 buffer = 0 -> pf = 0 /\ idx = 0) ->
  (version = privateKeyPrefix CATAPULT -> marker = 0) ->
  let private := version =? privateKeyPrefix CATAPULT in
  fromBase58 inString net σ =
    (Ok (length (nodes σ)), decoded_store private net buffer pf idx σ).
Proof.
  intros Hdec Hlen Hv Hpf Hidx Hm Hver Hmaster Hmark private.
  unfold fromBase58. rewrite Hdec, Hlen, Hv, Hpf, Hidx, Hm. cbn [Nat.eqb negb].
  unfold new_NodeEd25519. unfold_monad.
  replace (negb (version =? privateKeyPrefix CATAPULT)
           && negb (version =? publicKeyPrefix CATAPULT)) with false
    by (destruct Hver as [->| ->]; rewrite Z.eqb_refl;
        [reflexivity | symmetry; apply andb_false_r]).
  replace ((byte_at 4 buffer =? 0) && negb (pf =? 0)) with false
    by (destruct (Z.eqb_spec (byte_at 4 buffer) 0) as [E|E];
        [destruct (Hmaster E) as [-> _]|]; reflexivity).
  replace ((byte_at 4 buffer =? 0) && negb (idx =? 0)) with false
    by (destruct (Z.eqb_spec (byte_at 4 buffer) 0) as [E|E];
        [destruct (Hmaster E) as [_ ->]|]; reflexivity).
  subst private. unfold decoded_store, decoded_node.
  destruct (Z.eqb_spec version (privateKeyPrefix CATAPULT)) as [E|E]; cbn.
  - rewrite (Hmark E). cbn. rewrite !length_app, <- app_assoc. cbn.
    repeat f_equal; lia.
  - rewrite !length_app, <- app_assoc. cbn. repeat f_equal; lia.
Qed.

(** C6: what [fromBase58] does with a payload that base58check decodes,
    check by check: the length, the version, the master node fields, the
    marker of a private key; a payload that passes them gives a node with
    the private key set under the private prefix and with the public key
    set otherwise, never both. *)
Theorem fromBase58_checks (inString : string) (net : Network) (σ : heap)
    (buffer : list byte) :
  bs58check_decode inString = Some buffer ->
  (length buffer <> 78%nat ->
   fromBase58 inString net σ = (Err InvalidLength, σ)) /\
  (length buffer = 78%nat ->
   exists version pf idx marker,
     readUInt32BE 0 buffer = Ok version /\ readUInt32BE 5 buffer = Ok pf /\
     readUInt32BE 9 buffer = Ok idx /\ readUInt8 45 buffer = Ok marker /\
     let depth := byte_at 4 buffer in
     let is_private := version = privateKeyPrefix CATAPULT in
     let is_public := version = publicKeyPrefix CATAPULT in
     let master_ok := depth = 0 -> pf = 0 /\ idx = 0 in
     (~ is_private -> ~ is_public ->
      fromBase58 inString net σ = (Err InvalidVersion, σ)) /\
     (is_private \/ is_public -> depth = 0 -> pf <> 0 \/ idx <> 0 ->
      fromBase58 inString net σ = (Err InvalidMasterNode, σ)) /\
     (is_private -> master_ok -> marker <> 0 ->
      fst (fromBase58 inString net σ) = Err InvalidPrivateKeyMarker) /\
     (is_private -> master_ok -> marker = 0 ->
      exists this σ' c k,
        fromBase58 inString net σ = (Ok this, σ') /\
        nodes σ' !! this = Some c /\
        __D c = Some k /\ __Q c = None /\
        buffers σ' !! k = Some (slice 46 78 buffer) /\
        buffers σ' !! chainCode c = Some (slice 13 45 buffer) /\
        network c = net /\ __DEPTH c = depth /\ __INDEX c = idx /\
        __PARENT_FINGERPRINT c = pf) /\
     (~ is_private -> is_public -> master_ok ->
      exists this σ' c X,
        fromBase58 inString net σ = (Ok this, σ') /\
        nodes σ' !! this = Some c /\
        __D c = None /\ __Q c = Some X /\
        buffers σ' !! X = Some (slice 45 78 buffer) /\
        buffers σ' !! chainCode c = Some (slice 13 45 buffer) /\
        network c = net /\ __DEPTH c = depth /\ __INDEX c = idx /\
        __PARENT_FINGERPRINT c = pf)).
Proof.
  intros Hdec. split.
  - intros Hlen. unfold fromBase58. rewrite Hdec.
    replace (length buffer =? 78)%nat with false
      by (symmetry; apply Nat.eqb_neq, Hlen).
    reflexivity.
  - intros Hlen.
    destruct (readUInt32BE_is_Ok 0 buffer) as [version Hv]; [lia|].
    destruct (readUInt32BE_is_Ok 5 buffer) as [pf Hpf]; [lia|].
    destruct (readUInt32BE_is_Ok 9 buffer) as [idx Hidx]; [lia|].
    destruct (readUInt8_is_Ok 45 buffer) as [marker Hm]; [lia|].
    exists version, pf, idx, marker.
    do 4 (split; [assumption|]). cbn zeta.
    split; [|split; [|split; [|split]]].
    + intros Hpriv Hpub. unfold fromBase58.
      rewrite Hdec, Hlen, Hv. cbn [Nat.eqb negb]. unfold_monad.
      apply Z.eqb_neq in Hpriv, Hpub. rewrite Hpriv, Hpub. reflexivity.
    + intros Hver Hd Hbad. unfold fromBase58.
      rewrite Hdec, Hlen, Hv, Hpf, Hidx. cbn [Nat.eqb negb]. unfold_monad.
      replace (negb (version =? privateKeyPrefix CATAPULT)
               && negb (version =? publicKeyPrefix CATAPULT)) with false
        by (destruct Hver as [->| ->]; rewrite Z.eqb_refl;
            [reflexivity | symmetry; apply andb_false_r]).
      rewrite Hd. cbn.
      destruct (Z.eqb_spec pf 0) as [E|E]; cbn; [|reflexivity].
      destruct (Z.eqb_spec idx 0) as [E'|E']; cbn; [|reflexivity].
      destruct Hbad; contradiction.
    + intros Hpriv Hmaster Hmark. unfold fromBase58.
      rewrite Hdec, Hlen, Hv, Hpf, Hidx, Hm. cbn [Nat.eqb negb]. unfold_monad.
      rewrite Hpriv, Z.eqb_refl. cbn [negb andb].
      replace ((byte_at 4 buffer =? 0) && negb (pf =? 0)) with false
        by (destruct (Z.eqb_spec (byte_at 4 buffer) 0) as [E|E];
            [destruct (Hmaster E) as [-> _]|]; reflexivity).
      replace ((byte_at 4 buffer =? 0) && negb (idx =? 0)) with false
        by (destruct (Z.eqb_spec (byte_at 4 buffer) 0) as [E|E];
            [destruct (Hmaster E) as [_ ->]|]; reflexivity).
      cbn. apply Z.eqb_neq in Hmark. rewrite Hmark. reflexivity.
    + intros Hpriv Hmaster Hmark.
      pose proof (fromBase58_run inString net σ buffer version pf idx marker
                    Hdec Hlen Hv Hpf Hidx Hm (or_introl Hpriv) Hmaster
                    (fun _ => Hmark)) as Hrun.
      cbn zeta in Hrun. rewrite Hpriv, Z.eqb_refl in Hrun.
      eexists _, _, _, _. split; [exact Hrun|].
      split; [apply lookup_new|]. cbn.
      repeat split. apply lookup_new2. apply lookup_new.
    + intros Hpriv Hpub Hmaster.
      pose proof (fromBase58_run inString net σ buffer version pf idx marker
                    Hdec Hlen Hv Hpf Hidx Hm (or_intror Hpub) Hmaster
                    (fun H => False_ind _ (Hpriv H))) as Hrun.
      cbn zeta in Hrun. apply Z.eqb_neq in Hpriv. rewrite Hpriv in Hrun.
      eexists _, _, _, _. split; [exact Hrun|].
      split; [apply lookup_new|]. cbn.
      repeat split. apply lookup_new2. apply lookup_new.
Qed.

(** ** toBase58 *)

Lemma write_bytes_extend (p bs b0 : list byte) o :
  o = length p ->
  write_bytes bs o (p ++ drop o b0) = (p ++ bs) ++ drop (o + length bs) b0.
Proof.
  intros ->. unfold write_bytes.
  rewrite take_app_length, drop_app_add, drop_drop, <- app_assoc.
  reflexivity.
Qed.

Lemma length_extend (p b0 : list byte) o :
  o = length p -> (o <= length b0)%nat -> length (p ++ drop o b0) = length b0.
Proof. intros -> H. rewrite length_app, length_drop. lia. Qed.

Lemma lift_bind {A B : Type} (r : result A) (f : A -> M B) σ a :
  r = Ok a -> (lift r ≫= f) σ = f a σ.
Proof. intros ->. reflexivity. Qed.

Lemma depth_Ok this σ n :
  nodes σ !! this = Some n -> depth this σ = (Ok (__DEPTH n), σ).
Proof.
  intros H. unfold depth.
  rewrite (bind_Ok _ _ _ _ _ (read_node_Ok _ _ _ H)). reflexivity.
Qed.

Lemma index_Ok this σ n :
  nodes σ !! this = Some n -> index this σ = (Ok (__INDEX n), σ).
Proof.
  intros H. unfold index.
  rewrite (bind_Ok _ _ _ _ _ (read_node_Ok _ _ _ H)). reflexivity.
Qed.

Lemma parentFingerprint_Ok this σ n :
  nodes σ !! this = Some n ->
  parentFingerprint this σ = (Ok (__PARENT_FINGERPRINT n), σ).
Proof.
  intros H. unfold parentFingerprint.
  rewrite (bind_Ok _ _ _ _ _ (read_node_Ok _ _ _ H)). reflexivity.
Qed.

Lemma privateKey_Ok this σ n k :
  nodes σ !! this = Some n -> __D n = Some k ->
  privateKey this σ = (Ok k, σ).
Proof.
  intros H Hk. unfold privateKey.
  rewrite (bind_Ok _ _ _ _ _ (read_node_Ok _ _ _ H)), Hk. reflexivity.
Qed.

(** The header of the record: the four numeric fields, written over the
    first 13 bytes of the fresh buffer. *)
Lemma toBase58_header (junk : list byte) version d pf idx :
  length junk = 78%nat ->
  0 <= version < 2 ^ 32 -> 0 <= d < 256 -> 0 <= pf < 2 ^ 32 -> 0 <= idx < 2 ^ 32 ->
  let header := uint32_be version ++ [byte_of_Z d] ++ uint32_be pf ++ uint32_be idx in
  exists b1 b2 b3,
    writeUInt32BE version 0 junk = Ok b1 /\
    writeUInt8 d 4 b1 = Ok b2 /\
    writeUInt32BE pf 5 b2 = Ok b3 /\
    writeUInt32BE idx 9 b3 = Ok (header ++ drop 13 junk).
Proof.
  intros Hlen Hv Hd Hpf Hidx header.
  exists (uint32_be version ++ drop 4 junk),
    ((uint32_be version ++ [byte_of_Z d]) ++ drop 5 junk),
    (((uint32_be version ++ [byte_of_Z d]) ++ uint32_be pf) ++ drop 9 junk).
  split; [|split; [|split]].
  - rewrite writeUInt32BE_Ok by (try rewrite Hlen; lia).
    reflexivity.
  - unfold writeUInt8.
    rewrite length_extend by (try rewrite Hlen; cbn; lia). rewrite Hlen.
    replace (0 <=? d) with true by (symmetry; apply Z.leb_le; lia).
    replace (d <=? 255) with true by (symmetry; apply Z.leb_le; lia).
    cbn [andb Nat.leb Nat.add].
    rewrite (write_bytes_extend _ _ junk 4) by reflexivity. reflexivity.
  - rewrite writeUInt32BE_Ok;
      [|lia|rewrite length_extend by (try rewrite Hlen; cbn; lia); lia].
    rewrite (write_bytes_extend _ _ junk 5) by reflexivity. reflexivity.
  - rewrite writeUInt32BE_Ok;
      [|lia|rewrite length_extend by (try rewrite Hlen; cbn; lia); lia].
    rewrite (write_bytes_extend _ _ junk 9) by reflexivity.
    subst header. rewrite <- !app_assoc. reflexivity.
Qed.

(** What [toBase58] encodes for a node with a private key of 32 bytes. *)
Lemma toBase58_private this σ n k K cc :
  nodes σ !! this = Some n -> __D n = Some k ->
  buffers σ !! k = Some K -> length K = 32%nat ->
  buffers σ !! chainCode n = Some cc -> length cc = 32%nat ->
  fields_in_range n -> 0 <= privateKeyPrefix CATAPULT < 2 ^ 32 ->
  toBase58 this σ =
    (Ok (bs58check_encode
           (extended_key (privateKeyPrefix CATAPULT) (__DEPTH n)
              (__PARENT_FINGERPRINT n) (__INDEX n) cc ([x00] ++ K))), σ).
Proof.
  intros Hn Hk HK HlK Hcc Hlcc (Hd & Hi & Hpf) Hv.
  pose proof (length_allocUnsafe 78) as Hj.
  destruct (toBase58_header (allocUnsafe 78) _ _ _ _ Hj Hv Hd Hpf Hi)
    as (b1 & b2 & b3 & E1 & E2 & E3 & E4).
  unfold toBase58.
  rewrite (bind_Ok _ _ _ _ _ (read_node_Ok _ _ _ Hn)).
  rewrite (bind_Ok _ _ _ _ _ (isNeutered_Ok _ _ _ Hn)).
  rewrite bool_decide_eq_false_2 by congruence. cbn [negb].
  rewrite (lift_bind _ _ _ _ E1).
  rewrite (bind_Ok _ _ _ _ _ (depth_Ok _ _ _ Hn)).
  rewrite (lift_bind _ _ _ _ E2).
  rewrite (bind_Ok _ _ _ _ _ (parentFingerprint_Ok _ _ _ Hn)).
  rewrite (lift_bind _ _ _ _ E3).
  rewrite (bind_Ok _ _ _ _ _ (index_Ok _ _ _ Hn)).
  rewrite (lift_bind _ _ _ _ E4).
  rewrite (bind_Ok _ _ _ _ _ (read_buffer_Ok _ _ _ Hcc)).
  rewrite (bind_Ok _ _ _ _ _ (isNeutered_Ok _ _ _ Hn)).
  rewrite bool_decide_eq_false_2 by congruence. cbn [negb].
  set (header := uint32_be _ ++ _ ++ _ ++ _) in *.
  assert (Hh : length header = 13%nat) by reflexivity.
  assert (Ecc : buffer_copy cc 13 (header ++ drop 13 (allocUnsafe 78))
                = (header ++ cc) ++ drop 45 (allocUnsafe 78)).
  { unfold buffer_copy. rewrite length_extend by (rewrite ?Hj, ?Hh; lia).
    rewrite Hj, take_ge by lia.
    rewrite write_bytes_extend by (rewrite Hh; reflexivity).
    rewrite Hlcc. reflexivity. }
  rewrite Ecc.
  assert (E5 : writeUInt8 0 45 ((header ++ cc) ++ drop 45 (allocUnsafe 78))
               = Ok (((header ++ cc) ++ [x00]) ++ drop 46 (allocUnsafe 78))).
  { unfold writeUInt8.
    rewrite length_extend by (rewrite ?Hj, ?length_app, ?Hh, ?Hlcc; lia).
    rewrite Hj. cbn [Z.leb Z.compare andb Nat.leb Nat.add]. f_equal.
    rewrite write_bytes_extend by (rewrite length_app, Hh, Hlcc; reflexivity).
    reflexivity. }
  rewrite (lift_bind _ _ _ _ E5).
  rewrite (bind_Ok _ _ _ _ _ (privateKey_Ok _ _ _ _ Hn Hk)).
  rewrite (bind_Ok _ _ _ _ _ (read_buffer_Ok _ _ _ HK)).
  unfold mret, M_ret. do 3 f_equal.
  unfold buffer_copy.
  rewrite length_extend by (rewrite ?Hj, ?length_app, ?Hh, ?Hlcc; cbn; lia).
  rewrite Hj, take_ge by lia.
  rewrite write_bytes_extend by (rewrite !length_app, Hh, Hlcc; reflexivity).
  rewrite HlK, drop_ge by (rewrite Hj; lia).
  unfold extended_key. subst header. rewrite app_nil_r, <- !app_assoc.
  reflexivity.
Qed.

(** What [toBase58] encodes for a neutered node: a public key shorter
    than the 33 bytes of the key field leaves the end of the field as
    [allocUnsafe] gave it. *)
Lemma toBase58_public this σ n q Q cc :
  nodes σ !! this = Some n -> __D n = None -> __Q n = Some q ->
  buffers σ !! q = Some Q -> (length Q <= 33)%nat ->
  buffers σ !! chainCode n = Some cc -> length cc = 32%nat ->
  fields_in_range n -> 0 <= publicKeyPrefix CATAPULT < 2 ^ 32 ->
  toBase58 this σ =
    (Ok (bs58check_encode
           (extended_key (publicKeyPrefix CATAPULT) (__DEPTH n)
              (__PARENT_FINGERPRINT n) (__INDEX n) cc
              (Q ++ drop (45 + length Q) (allocUnsafe 78)))), σ).
Proof.
  intros Hn HD Hq HQ HlQ Hcc Hlcc (Hd & Hi & Hpf) Hv.
  pose proof (length_allocUnsafe 78) as Hj.
  destruct (toBase58_header (allocUnsafe 78) _ _ _ _ Hj Hv Hd Hpf Hi)
    as (b1 & b2 & b3 & E1 & E2 & E3 & E4).
  unfold toBase58.
  rewrite (bind_Ok _ _ _ _ _ (read_node_Ok _ _ _ Hn)).
  rewrite (bind_Ok _ _ _ _ _ (isNeutered_Ok _ _ _ Hn)).
  rewrite bool_decide_eq_true_2 by exact HD. cbn [negb].
  rewrite (lift_bind _ _ _ _ E1).
  rewrite (bind_Ok _ _ _ _ _ (depth_Ok _ _ _ Hn)).
  rewrite (lift_bind _ _ _ _ E2).
  rewrite (bind_Ok _ _ _ _ _ (parentFingerprint_Ok _ _ _ Hn)).
  rewrite (lift_bind _ _ _ _ E3).
  rewrite (bind_Ok _ _ _ _ _ (index_Ok _ _ _ Hn)).
  rewrite (lift_bind _ _ _ _ E4).
  rewrite (bind_Ok _ _ _ _ _ (read_buffer_Ok _ _ _ Hcc)).
  rewrite (bind_Ok _ _ _ _ _ (isNeutered_Ok _ _ _ Hn)).
  rewrite bool_decide_eq_true_2 by exact HD. cbn [negb].
  set (header := uint32_be _ ++ _ ++ _ ++ _) in *.
  assert (Hh : length header = 13%nat) by reflexivity.
  assert (Ecc : buffer_copy cc 13 (header ++ drop 13 (allocUnsafe 78))
                = (header ++ cc) ++ drop 45 (allocUnsafe 78)).
  { unfold buffer_copy. rewrite length_extend by (rewrite ?Hj, ?Hh; lia).
    rewrite Hj, take_ge by lia.
    rewrite write_bytes_extend by (rewrite Hh; reflexivity).
    rewrite Hlcc. reflexivity. }
  rewrite Ecc.
  rewrite (bind_Ok _ _ _ _ _ (publicKey_cached _ _ _ _ Hn Hq)).
  rewrite (bind_Ok _ _ _ _ _ (read_buffer_Ok _ _ _ HQ)).
  unfold mret, M_ret. do 3 f_equal.
  unfold buffer_copy.
  rewrite length_extend by (rewrite ?Hj, ?length_app, ?Hh, ?Hlcc; cbn; lia).
  rewrite Hj, take_ge by lia.
  rewrite write_bytes_extend by (rewrite !length_app, Hh, Hlcc; reflexivity).
  unfold extended_key. subst header. rewrite <- !app_assoc.
  reflexivity.
Qed.

(** ** Reading an extended key back *)

Lemma extended_key_fields version d pf idx (cc kf : list byte) :
  length cc = 32%nat -> length kf = 33%nat ->
  0 <= version < 2 ^ 32 -> 0 <= d < 256 -> 0 <= pf < 2 ^ 32 -> 0 <= idx < 2 ^ 32 ->
  let buffer := extended_key version d pf idx cc kf in
  length buffer = 78%nat /\
  readUInt32BE 0 buffer = Ok version /\
  byte_at 4 buffer = d /\
  readUInt32BE 5 buffer = Ok pf /\
  readUInt32BE 9 buffer = Ok idx /\
  readUInt8 45 buffer = from_option (fun b => Ok (byte_to_Z b)) (Err RangeError) (head kf) /\
  slice 13 45 buffer = cc /\
  slice 45 78 buffer = kf /\
  slice 46 78 buffer = drop 1 kf.
Proof.
  intros Hcc Hkf Hv Hd Hpf Hidx buffer. subst buffer. unfold extended_key.
  repeat split.
  - rewrite !length_app, Hcc, Hkf. reflexivity.
  - apply readUInt32BE_uint32_be, Hv.
  - unfold byte_at. cbn. rewrite byte_to_of_Z. apply Z.mod_small. lia.
  - unfold readUInt32BE. cbn. f_equal.
    eapply uint32_be_value; [exact Hpf | reflexivity].
  - unfold readUInt32BE. cbn. f_equal.
    eapply uint32_be_value; [exact Hidx | reflexivity].
  - destruct kf as [|b kf]; [discriminate|].
    unfold readUInt8.
    change (?h ++ [?x] ++ ?p ++ ?i ++ cc ++ b :: kf)
      with ((h ++ [x] ++ p ++ i) ++ cc ++ b :: kf).
    rewrite (lookup_app_r (_ ++ _)) by (cbn; lia). cbn [length app Nat.sub uint32_be].
    rewrite (list_lookup_middle cc kf b 32) by lia. reflexivity.
  - unfold slice. cbn. apply take_app_length'. lia.
  - unfold slice. cbn. rewrite drop_app_length' by lia. apply take_ge. lia.
  - unfold slice. cbn.
    change 33%nat with (32 + 1)%nat. rewrite <- Hcc, drop_app_add.
    apply take_ge. rewrite length_drop. lia.
Qed.

(** ** Encoding, then decoding *)

(** A node with a private key of 32 bytes is read back with all its
    fields. *)
Lemma fromBase58_toBase58_private this σ n k K cc net :
  (forall b, bs58check_decode (bs58check_encode b) = Some b) ->
  nodes σ !! this = Some n -> __D n = Some k ->
  buffers σ !! k = Some K -> length K = 32%nat ->
  buffers σ !! chainCode n = Some cc -> length cc = 32%nat ->
  fields_in_range n -> master_invariant n ->
  0 <= privateKeyPrefix CATAPULT < 2 ^ 32 ->
  exists s this' σ' c k',
    toBase58 this σ = (Ok s, σ) /\
    fromBase58 s net σ = (Ok this', σ') /\
    nodes σ' !! this' = Some c /\
    __DEPTH c = __DEPTH n /\ __INDEX c = __INDEX n /\
    __PARENT_FINGERPRINT c = __PARENT_FINGERPRINT n /\
    buffers σ' !! chainCode c = Some cc /\
    __D c = Some k' /\ buffers σ' !! k' = Some K /\ __Q c = None.
Proof.
  intros bs58check_decode_encode Hn Hk HK HlK Hcc Hlcc Hrange Hmaster Hv.
  pose proof (toBase58_private _ _ _ _ _ _ Hn Hk HK HlK Hcc Hlcc Hrange Hv) as Henc.
  destruct Hrange as (Hd & Hi & Hpf).
  set (buffer := extended_key _ _ _ _ _ _) in Henc.
  destruct (extended_key_fields (privateKeyPrefix CATAPULT) (__DEPTH n)
              (__PARENT_FINGERPRINT n) (__INDEX n) cc ([x00] ++ K))
    as (Hlen & Rv & Rd & Rpf & Ri & Rm & Scc & _ & Sk);
    [assumption | cbn; lia | assumption..|].
  fold buffer in Hlen, Rv, Rd, Rpf, Ri, Rm, Scc, Sk. clearbody buffer.
  assert (Hmaster' : byte_at 4 buffer = 0 ->
                     __PARENT_FINGERPRINT n = 0 /\ __INDEX n = 0)
    by (rewrite Rd; exact Hmaster).
  pose proof (fromBase58_run (bs58check_encode buffer) net σ buffer _ _ _ _
                (bs58check_decode_encode buffer) Hlen Rv Rpf Ri Rm
                (or_introl eq_refl) Hmaster' (fun _ => eq_refl)) as Hdec.
  cbn zeta in Hdec. rewrite Z.eqb_refl in Hdec.
  eexists _, _, _, _, _. split; [exact Henc|]. split; [exact Hdec|].
  split; [apply lookup_new|]. cbn -[byte_at slice].
  rewrite Rd, Scc, Sk.
  repeat split. apply lookup_new. apply lookup_new2.
Qed.

(** A neutered node whose public key has at most 33 bytes is read back
    with its numeric fields and chain code, and with a public key of 33
    bytes: the key of the node, then the bytes that [allocUnsafe] left at
    the end of the key field. *)
Lemma fromBase58_toBase58_public this σ n q Q cc net :
  (forall b, bs58check_decode (bs58check_encode b) = Some b) ->
  nodes σ !! this = Some n -> __D n = None -> __Q n = Some q ->
  buffers σ !! q = Some Q -> (length Q <= 33)%nat ->
  buffers σ !! chainCode n = Some cc -> length cc = 32%nat ->
  fields_in_range n -> master_invariant n ->
  0 <= publicKeyPrefix CATAPULT < 2 ^ 32 ->
  publicKeyPrefix CATAPULT <> privateKeyPrefix CATAPULT ->
  exists s this' σ' c X,
    toBase58 this σ = (Ok s, σ) /\
    fromBase58 s net σ = (Ok this', σ') /\
    nodes σ' !! this' = Some c /\
    __DEPTH c = __DEPTH n /\ __INDEX c = __INDEX n /\
    __PARENT_FINGERPRINT c = __PARENT_FINGERPRINT n /\
    buffers σ' !! chainCode c = Some cc /\
    __D c = None /\ __Q c = Some X /\
    buffers σ' !! X = Some (Q ++ drop (45 + length Q) (allocUnsafe 78)).
Proof.
  intros bs58check_decode_encode Hn HD Hq HQ HlQ Hcc Hlcc Hrange Hmaster Hv Hne.
  pose proof (toBase58_public _ _ _ _ _ _ Hn HD Hq HQ HlQ Hcc Hlcc Hrange Hv) as Henc.
  destruct Hrange as (Hd & Hi & Hpf).
  set (kf := Q ++ drop _ _) in *.
  assert (Hkf : length kf = 33%nat).
  { subst kf. rewrite length_app, length_drop, length_allocUnsafe. lia. }
  set (buffer := extended_key _ _ _ _ _ _) in Henc.
  destruct (extended_key_fields (publicKeyPrefix CATAPULT) (__DEPTH n)
              (__PARENT_FINGERPRINT n) (__INDEX n) cc kf)
    as (Hlen & Rv & Rd & Rpf & Ri & Rm & Scc & SX & _);
    [assumption..|].
  fold buffer in Hlen, Rv, Rd, Rpf, Ri, Rm, Scc, SX. clearbody buffer.
  assert (Hmaster' : byte_at 4 buffer = 0 ->
                     __PARENT_FINGERPRINT n = 0 /\ __INDEX n = 0)
    by (rewrite Rd; exact Hmaster).
  destruct (readUInt8_is_Ok 45 buffer) as [marker Hm]; [lia|].
  pose proof (fromBase58_run (bs58check_encode buffer) net σ buffer _ _ _ _
                (bs58check_decode_encode buffer) Hlen Rv Rpf Ri Hm
                (or_intror eq_refl) Hmaster'
                (fun H => False_ind _ (Hne H))) as Hdec.
  cbn zeta in Hdec. apply Z.eqb_neq in Hne. rewrite Hne in Hdec.
  eexists _, _, _, _, _. split; [exact Henc|]. split; [exact Hdec|].
  split; [apply lookup_new|]. cbn -[byte_at slice].
  rewrite Rd, Scc, SX.
  repeat split. apply lookup_new. apply lookup_new2.
Qed.

(** C2: a neutered node with a public key of 32 bytes is not read back
    with its key: the key that [fromBase58] gives the decoded node has 33
    bytes, the 32 of the node and the byte that [allocUnsafe] left at the
    end of the record. *)
Theorem base58_roundtrip_public_key_32 (this : nat) (σ : heap)
    (n : NodeEd25519) (q : nat) (Q cc : list byte) (net : Network) :
  (forall b, bs58check_decode (bs58check_encode b) = Some b) ->
  nodes σ !! this = Some n -> __D n = None -> __Q n = Some q ->
  buffers σ !! q = Some Q -> length Q = 32%nat ->
  buffers σ !! chainCode n = Some cc -> length cc = 32%nat ->
  fields_in_range n -> master_invariant n ->
  0 <= publicKeyPrefix CATAPULT < 2 ^ 32 ->
  publicKeyPrefix CATAPULT <> privateKeyPrefix CATAPULT ->
  exists s this' σ' c X Q',
    toBase58 this σ = (Ok s, σ) /\
    fromBase58 s net σ = (Ok this', σ') /\
    nodes σ' !! this' = Some c /\
    __Q c = Some X /\ buffers σ' !! X = Some Q' /\
    Q' = Q ++ drop 77 (allocUnsafe 78) /\ length Q' = 33%nat /\ Q' <> Q.
Proof.
  intros Hrt Hn HD Hq HQ HlQ Hcc Hlcc Hrange Hmaster Hv Hne.
  destruct (fromBase58_toBase58_public this σ n q Q cc net Hrt)
    as (s & this' & σ' & c & X & Henc & Hdec & Hc & _ & _ & _ & _ & _ & HX & HQ');
    [assumption | assumption | assumption | assumption | lia | assumption..|].
  rewrite HlQ in HQ'. cbn [Nat.add] in HQ'.
  assert (Hl : length (Q ++ drop 77 (allocUnsafe 78)) = 33%nat)
    by (rewrite length_app, length_drop, length_allocUnsafe; lia).
  exists s, this', σ', c, X, (Q ++ drop 77 (allocUnsafe 78)).
  repeat split; try assumption.
  intros E. rewrite E in Hl. lia.
Qed.

(** ** derivePath *)

Local Open Scope string_scope.

Lemma show_segment_not_m g :
  segment_ok g -> String.eqb (show_segment g) "m" = false.
Proof.
  intros [Hne Hall]. unfold show_segment.
  destruct (seg_digits g) as [|c s]; [congruence|].
  cbn in Hall. apply andb_true_iff in Hall as [Hc _].
  cbn. destruct (Ascii.eqb_spec c "m") as [->|]; [discriminate | reflexivity].
Qed.

(** On the text of a segment, the step of [derivePath] is the step of the
    segment. *)
Lemma derivePath_step_segment prev g :
  segment_ok g -> derivePath_step prev (show_segment g) = derive_segment prev g.
Proof.
  intros [Hne Hall]. unfold derivePath_step, derive_segment, show_segment, segment_index.
  destruct (seg_hardened g).
  - rewrite slice_last_app_char, slice_init_app_char.
    rewrite (parseInt_digits _ Hne Hall). reflexivity.
  - rewrite append_nil_r, (slice_last_digits _ Hall).
    rewrite (parseInt_digits _ Hne Hall). reflexivity.
Qed.

Lemma reduce_segments segs this σ :
  Forall segment_ok segs ->
  reduce derivePath_step (map show_segment segs) this σ
  = reduce derive_segment segs this σ.
Proof.
  intros H. revert this σ.
  induction H as [|g segs Hg _ IH]; intros this σ; [reflexivity|].
  cbn [map reduce]. rewrite (derivePath_step_segment _ _ Hg).
  unfold mbind, M_bind. destruct (derive_segment this g σ) as [[b|e] σ'].
  - apply IH.
  - reflexivity.
Qed.

Lemma derivePath_show_path this σ n rooted segs :
  nodes σ !! this = Some n ->
  isValidPath (show_path rooted segs) = true ->
  segs <> [] -> Forall segment_ok segs ->
  derivePath this (show_path rooted segs) σ =
    if rooted && negb (__PARENT_FINGERPRINT n =? 0)%Z
    then (Err ExpectedMasterNode, σ)
    else reduce derive_segment segs this σ.
Proof.
  intros Hn Hvalid Hne Hok. unfold derivePath. rewrite Hvalid. cbn [negb].
  assert (Hsplit : split "/" (join_path (map show_segment segs))
                   = map show_segment segs).
  { apply split_join_path.
    - destruct segs; [congruence | discriminate].
    - apply Forall_map. eapply Forall_impl; [exact Hok|].
      intros g Hg. apply show_segment_no_slash, Hg. }
  destruct rooted; unfold show_path.
  - change ("m/" ++ ?s) with ("m" ++ String "/" s).
    rewrite split_app_slash by reflexivity. rewrite Hsplit.
    cbn [String.eqb Ascii.eqb Bool.eqb andb tail].
    change (("m" =? "m")%string) with true. cbn match.
    rewrite (bind_Ok _ _ _ _ _ (parentFingerprint_Ok _ _ _ Hn)).
    cbn [andb]. destruct (negb (__PARENT_FINGERPRINT n =? 0)%Z); [reflexivity|].
    apply reduce_segments, Hok.
  - cbn [append]. rewrite Hsplit.
    destruct segs as [|g segs]; [congruence|].
    cbn [map]. rewrite show_segment_not_m by (inversion Hok; assumption).
    unfold mbind, M_bind, mret, M_ret. cbn [andb].
    apply (reduce_segments (g :: segs)), Hok.
Qed.

Lemma derivePath_m_0h_1 this σ n :
  nodes σ !! this = Some n -> __PARENT_FINGERPRINT n = 0 ->
  derivePath this "m/0'/1" σ
  = (deriveHardened this 0 ≫= fun child => derive child 1) σ.
Proof.
  intros Hn Hpf.
  pose proof (derivePath_show_path this σ n true
                [ {| seg_digits := "0"; seg_hardened := true |};
                  {| seg_digits := "1"; seg_hardened := false |} ] Hn) as H.
  rewrite Hpf in H. cbn [Z.eqb negb andb] in H.
  change (show_path _ _) with "m/0'/1" in H.
  rewrite H.
  - change (reduce _ _ _ σ)
      with ((deriveHardened this 0
               ≫= fun child => derive child 1 ≫= mret) σ).
    unfold mbind, M_bind, mret, M_ret.
    destruct (deriveHardened this 0 σ) as [[b|e] σ']; [|reflexivity].
    destruct (derive b 1 σ') as [[c|e] σ'']; reflexivity.
  - reflexivity.
  - discriminate.
  - repeat constructor; discriminate.
Qed.

(** From a node with a private key, [m/0'/1] is derived. *)
Lemma derivePath_m_0h_1_Ok this σ n k K cc :
  nodes σ !! this = Some n -> __PARENT_FINGERPRINT n = 0 ->
  __D n = Some k -> buffers σ !! k = Some K ->
  buffers σ !! chainCode n = Some cc ->
  exists child σ', derivePath this "m/0'/1" σ = (Ok child, σ').
Proof.
  intros Hn Hpf Hk HK Hcc.
  rewrite (derivePath_m_0h_1 _ _ _ Hn Hpf).
  assert (E1 : deriveHardened this 0 σ
               = (Ok (length (nodes σ)), CKDPriv_store K cc (2 ^ 31) σ)).
  { rewrite deriveHardened_in_range by lia.
    rewrite (derive_private _ _ _ _ Hn) by congruence.
    eapply CKDPriv_run; try eassumption. lia. }
  rewrite (bind_Ok _ _ _ _ _ E1).
  set (σ1 := CKDPriv_store K cc (2 ^ 31) σ).
  assert (Hc : nodes σ1 !! length (nodes σ) = Some (seed_node CATAPULT σ))
    by apply lookup_new.
  rewrite (derive_private _ _ _ _ Hc) by discriminate.
  eexists _, _. eapply CKDPriv_run.
  - exact Hc.
  - reflexivity.
  - apply lookup_new.
  - apply lookup_new2.
  - lia.
Qed.

(** C8: from a master node, [m/0'/1] is [deriveHardened(0)] then
    [derive(1)], and gives a node when the node has a private key; a valid
    path is [m/] or nothing, then one segment or more, and is derived by
    folding the segments from the left over the node, [deriveHardened] for
    a segment with the apostrophe and [derive] for one without, after the
    check that a path with [m/] starts from a node without parent
    fingerprint. *)
Theorem derivePath_folds (this : nat) (σ : heap) (n : NodeEd25519) :
  nodes σ !! this = Some n ->
  (__PARENT_FINGERPRINT n = 0 ->
   derivePath this "m/0'/1" σ
   = (deriveHardened this 0 ≫= fun child => derive child 1) σ /\
   forall k K cc,
     __D n = Some k -> buffers σ !! k = Some K ->
     buffers σ !! chainCode n = Some cc ->
     exists child σ', derivePath this "m/0'/1" σ = (Ok child, σ')) /\
  (forall path, isValidPath path = true ->
   exists rooted segs,
     segs <> [] /\ Forall segment_ok segs /\ path = show_path rooted segs /\
     derivePath this path σ =
       if rooted && negb (__PARENT_FINGERPRINT n =? 0)%Z
       then (Err ExpectedMasterNode, σ)
       else reduce derive_segment segs this σ).
Proof.
  intros Hn. split.
  - intros Hpf. split.
    + apply (derivePath_m_0h_1 _ _ _ Hn Hpf).
    + intros k K cc Hk HK Hcc.
      apply (derivePath_m_0h_1_Ok _ _ _ _ _ _ Hn Hpf Hk HK Hcc).
  - intros path Hvalid.
    destruct (isValidPath_shape _ Hvalid) as (rooted & segs & Hne & Hok & ->).
    exists rooted, segs. repeat split; try assumption.
    apply (derivePath_show_path _ _ _ _ _ Hn Hvalid Hne Hok).
Qed.

Local Close Scope string_scope.

(** * Further properties *)

(** ** The path grammar, completely *)

Local Open Scope string_scope.

Lemma append_eq_nil (u v : string) :
  u ++ v = EmptyString -> u = EmptyString /\ v = EmptyString.
Proof. destruct u; [auto | discriminate]. Qed.

Lemma re_lang_nil_nullable r : re_lang r EmptyString -> nullable r = true.
Proof.
  intros H. remember EmptyString as w eqn:E.
  induction H as [| | |r s u v _ IHu _ IHv|r s u _ IH|r s u _ IH| |];
    try discriminate E; try reflexivity.
  - apply append_eq_nil in E as [-> ->]. cbn. rewrite IHu, IHv; reflexivity.
  - cbn. rewrite IH by exact E. reflexivity.
  - cbn. rewrite IH by exact E. apply orb_true_r.
Qed.

Lemma re_lang_deriv_complete a r w s :
  re_lang r w -> w = String a s -> re_lang (deriv a r) s.
Proof.
  intros H. revert s.
  induction H as [|c|c Hc|r1 r2 u v Hu IHu Hv IHv|r1 r2 u _ IH|r1 r2 u _ IH
                  |r|r u v Hu IHu Hv IHv]; intros s E.
  - discriminate E.
  - injection E as -> <-. cbn. rewrite Ascii.eqb_refl. constructor.
  - injection E as -> <-. cbn. rewrite Hc. constructor.
  - destruct u as [|b u].
    + cbn in E. subst v. cbn.
      rewrite (re_lang_nil_nullable _ Hu).
      apply lang_alt_r. apply IHv. reflexivity.
    + cbn in E. injection E as -> <-. cbn.
      destruct (nullable r1); [apply lang_alt_l|];
        (apply lang_cat; [apply IHu; reflexivity | exact Hv]).
  - cbn. apply lang_alt_l, IH, E.
  - cbn. apply lang_alt_r, IH, E.
  - discriminate E.
  - destruct u as [|b u].
    + cbn in E. apply IHv, E.
    + cbn in E. injection E as -> <-. cbn.
      apply lang_cat; [apply IHu; reflexivity | exact Hv].
Qed.

Lemma re_match_complete r s : re_lang r s -> re_match r s = true.
Proof.
  revert r. induction s as [|a s IH]; intros r H; cbn.
  - apply re_lang_nil_nullable, H.
  - apply IH. eapply re_lang_deriv_complete; [exact H | reflexivity].
Qed.

Lemma lang_digits_star s : all_digits s = true -> re_lang (Star Digit) s.
Proof.
  induction s as [|c s IH]; cbn; intros H; [constructor|].
  apply andb_true_iff in H as [Hc Hs].
  change (String c s) with (String c EmptyString ++ s).
  apply lang_star_cons; [constructor; exact Hc | apply IH, Hs].
Qed.

Lemma lang_digits_plus s :
  s <> EmptyString -> all_digits s = true -> re_lang (Plus Digit) s.
Proof.
  intros Hne H. destruct s as [|c s]; [congruence|].
  cbn in H. apply andb_true_iff in H as [Hc Hs].
  change (String c s) with (String c EmptyString ++ s).
  apply lang_cat; [constructor; exact Hc | apply lang_digits_star, Hs].
Qed.

Lemma lang_opt_apostrophe (b : bool) :
  re_lang (Opt (Chr "'")) (if b then "'" else EmptyString).
Proof.
  destruct b; [apply lang_alt_r | apply lang_alt_l]; constructor.
Qed.

Lemma lang_show_segment g :
  segment_ok g -> re_lang (Cat (Plus Digit) (Opt (Chr "'"))) (show_segment g).
Proof.
  intros [Hne Hall]. unfold show_segment.
  apply lang_cat; [apply lang_digits_plus; assumption | apply lang_opt_apostrophe].
Qed.

Lemma lang_show_segment_slash g :
  segment_ok g ->
  re_lang (Cat (Plus Digit) (Cat (Opt (Chr "'")) (Chr "/")))
    (show_segment g ++ "/").
Proof.
  intros [Hne Hall]. unfold show_segment. rewrite append_assoc.
  apply lang_cat; [apply lang_digits_plus; assumption|].
  apply lang_cat; [apply lang_opt_apostrophe | constructor].
Qed.

Lemma lang_show_prefix segs :
  Forall segment_ok segs ->
  re_lang (Star (Cat (Plus Digit) (Cat (Opt (Chr "'")) (Chr "/"))))
    (show_prefix segs).
Proof.
  induction 1 as [|g segs Hg _ IH]; cbn [show_prefix]; [constructor|].
  rewrite <- append_assoc.
  apply lang_star_cons; [apply lang_show_segment_slash, Hg | exact IH].
Qed.

Lemma show_path_valid rooted segs :
  segs <> [] -> Forall segment_ok segs ->
  isValidPath (show_path rooted segs) = true.
Proof.
  intros Hne Hok. apply re_match_complete. unfold path_regex, show_path.
  destruct segs as [|g0 segs0] using rev_ind; [congruence|]. clear IHsegs0.
  rewrite <- join_path_snoc.
  apply Forall_app in Hok as [Hinit Hlast].
  apply lang_cat.
  - destruct rooted; [apply lang_alt_r | apply lang_alt_l; constructor].
    change "m/" with ("m" ++ "/"). apply lang_cat; constructor.
  - apply lang_cat; [apply lang_show_prefix, Hinit|].
    apply lang_show_segment. inversion Hlast; assumption.
Qed.

(** X1: [isValidPath] accepts exactly the paths made of one segment or
    more, separated by slashes, after [m/] or nothing; a segment is one
    decimal digit or more, with or without an apostrophe after them. *)
Theorem isValidPath_iff (path : string) :
  isValidPath path = true <->
  exists rooted segs,
    segs <> [] /\ Forall segment_ok segs /\ path = show_path rooted segs.
Proof.
  split.
  - apply isValidPath_shape.
  - intros (rooted & segs & Hne & Hok & ->). apply show_path_valid; assumption.
Qed.

Local Close Scope string_scope.

(** ** The indices of a valid path *)

Local Open Scope string_scope.

Lemma digit_value_nonneg c : is_digit c = true -> (0 <= digit_value c)%Z.
Proof.
  unfold is_digit, digit_value. intros [H _]%andb_true_iff.
  apply Nat.leb_le in H. lia.
Qed.

Lemma decimal_nonneg s acc :
  all_digits s = true -> (0 <= acc)%Z -> (0 <= decimal acc s)%Z.
Proof.
  revert acc. induction s as [|c s IH]; intros acc H Hacc; cbn; [exact Hacc|].
  cbn in H. apply andb_true_iff in H as [Hc Hs].
  apply IH; [exact Hs|]. pose proof (digit_value_nonneg _ Hc). lia.
Qed.

Lemma segment_index_nonneg g : segment_ok g -> (0 <= segment_index g)%Z.
Proof. intros [_ H]. apply decimal_nonneg; [exact H | lia]. Qed.

Lemma segment_text_index_show g :
  segment_ok g -> segment_text_index (show_segment g) = Some (segment_index g).
Proof.
  intros [Hne Hall]. unfold segment_text_index, show_segment, segment_index.
  destruct (seg_hardened g).
  - rewrite slice_last_app_char, slice_init_app_char.
    apply parseInt_digits; assumption.
  - rewrite append_nil_r, (slice_last_digits _ Hall).
    apply parseInt_digits; assumption.
Qed.

Lemma split_show_path rooted segs :
  segs <> [] -> Forall segment_ok segs ->
  split "/" (show_path rooted segs)
  = ((if rooted then ["m"] else []) ++ map show_segment segs)%list.
Proof.
  intros Hne Hok.
  assert (Hsplit : split "/" (join_path (map show_segment segs))
                   = map show_segment segs).
  { apply split_join_path.
    - destruct segs; [congruence | discriminate].
    - apply Forall_map. eapply Forall_impl; [exact Hok|].
      intros g Hg. apply show_segment_no_slash, Hg. }
  unfold show_path. destruct rooted.
  - change ("m/" ++ ?s) with ("m" ++ String "/" s).
    rewrite split_app_slash by reflexivity. rewrite Hsplit. reflexivity.
  - cbn [append]. exact Hsplit.
Qed.

Lemma path_segments_show_path rooted segs :
  segs <> [] -> Forall segment_ok segs ->
  path_segments (show_path rooted segs) = map show_segment segs.
Proof.
  intros Hne Hok. unfold path_segments.
  rewrite (split_show_path _ _ Hne Hok). destruct rooted.
  - reflexivity.
  - destruct segs as [|g segs]; [congruence|]. cbn [map app].
    rewrite show_segment_not_m by (inversion Hok; assumption). reflexivity.
Qed.

(** X2: on a path that [isValidPath] accepts, every segment that
    [derivePath] folds over is read by [parseInt] as an integer that is
    not negative: no NaN and no negative index reaches [derive] or
    [deriveHardened], and there is at least one segment. *)
Theorem valid_path_indices (path : string) :
  isValidPath path = true ->
  path_segments path <> [] /\
  Forall (fun indexStr =>
            exists i, segment_text_index indexStr = Some i /\ (0 <= i)%Z)
         (path_segments path).
Proof.
  intros H.
  destruct (isValidPath_shape _ H) as (rooted & segs & Hne & Hok & ->).
  rewrite (path_segments_show_path _ _ Hne Hok). split.
  - destruct segs; [congruence | discriminate].
  - apply Forall_map. eapply Forall_impl; [exact Hok|].
    intros g Hg. exists (segment_index g).
    split; [apply segment_text_index_show, Hg | apply segment_index_nonneg, Hg].
Qed.

Local Close Scope string_scope.

(** ** Derivation from a private key, step by step *)

Lemma writeUInt32BE_out_of_range value offset buf :
  ~ 0 <= value < 2 ^ 32 -> writeUInt32BE value offset buf = Err RangeError.
Proof.
  intros H. unfold writeUInt32BE.
  destruct (Z.leb_spec 0 value); [|reflexivity].
  destruct (Z.leb_spec value 4294967295); [lia | reflexivity].
Qed.

Lemma CKDPriv_out_of_range parent index σ :
  ~ 0 <= index < 2 ^ 32 -> CKDPriv parent index σ = (Err RangeError, σ).
Proof.
  intros H. unfold CKDPriv.
  rewrite (writeUInt32BE_out_of_range _ _ _ H). reflexivity.
Qed.

Lemma store_extends_refl σ : store_extends σ σ.
Proof. split; auto. Qed.

Lemma store_extends_trans σ1 σ2 σ3 :
  store_extends σ1 σ2 -> store_extends σ2 σ3 -> store_extends σ1 σ3.
Proof. intros [B1 N1] [B2 N2]. split; auto. Qed.

Lemma CKDPriv_store_extends K cc index σ :
  store_extends σ (CKDPriv_store K cc index σ).
Proof. split; intros; cbn; apply lookup_old; assumption. Qed.

Lemma CKDPriv_store_private_ok K cc index σ :
  private_ok (CKDPriv_store K cc index σ) (length (nodes σ)).
Proof.
  eexists (seed_node CATAPULT σ), _, _, _.
  split; [apply lookup_new|]. split; [reflexivity|].
  split; [apply lookup_new | apply lookup_new2].
Qed.

(** One derivation from a node with a private key: the index decides. *)
Lemma derive_private_ok this index σ :
  private_ok σ this ->
  (0 <= index < 2 ^ 32 ->
   exists child σ',
     derive this index σ = (Ok child, σ') /\
     private_ok σ' child /\ store_extends σ σ') /\
  (~ 0 <= index < 2 ^ 32 -> derive this index σ = (Err RangeError, σ)).
Proof.
  intros (n & k & K & cc & Hn & Hk & HK & Hcc).
  rewrite (derive_private _ _ _ _ Hn) by congruence. split.
  - intros Hi. rewrite (CKDPriv_run _ _ _ _ _ _ _ Hn Hk HK Hcc Hi).
    eexists _, _. split; [reflexivity|].
    split; [apply CKDPriv_store_private_ok | apply CKDPriv_store_extends].
  - apply CKDPriv_out_of_range.
Qed.

Lemma derive_segment_private this g σ :
  private_ok σ this -> segment_ok g ->
  (segment_in_range g ->
   exists child σ',
     derive_segment this g σ = (Ok child, σ') /\
     private_ok σ' child /\ store_extends σ σ') /\
  (~ segment_in_range g ->
   derive_segment this g σ
   = (Err (if seg_hardened g then IndexOverflow else RangeError), σ)).
Proof.
  intros Hp Hg. pose proof (segment_index_nonneg _ Hg) as H0.
  unfold derive_segment, segment_in_range.
  destruct (seg_hardened g).
  - split.
    + intros Hi. rewrite deriveHardened_in_range by exact Hi.
      apply (derive_private_ok _ _ _ Hp). lia.
    + intros Hi. unfold deriveHardened.
      destruct (Z.ltb_spec (2 ^ 31 - 1) (segment_index g)); [reflexivity | lia].
  - split.
    + intros Hi. apply (derive_private_ok _ _ _ Hp). lia.
    + intros Hi. apply (derive_private_ok _ _ _ Hp). lia.
Qed.

Lemma reduce_private segs : forall this σ,
  private_ok σ this -> Forall segment_ok segs ->
  (Forall segment_in_range segs ->
   exists child σ',
     reduce derive_segment segs this σ = (Ok child, σ') /\
     private_ok σ' child /\ store_extends σ σ') /\
  (forall pre g post,
     segs = pre ++ g :: post -> Forall segment_in_range pre ->
     ~ segment_in_range g ->
     fst (reduce derive_segment segs this σ)
     = Err (if seg_hardened g then IndexOverflow else RangeError)).
Proof.
  induction segs as [|h segs IH]; intros this σ Hp Hok.
  - split.
    + intros _. exists this, σ. split; [reflexivity|].
      split; [exact Hp | apply store_extends_refl].
    + intros pre g post E. destruct pre; discriminate E.
  - apply Forall_cons in Hok as [Hh Hok].
    destruct (derive_segment_private this h σ Hp Hh) as [Hin Hout].
    cbn [reduce]. split.
    + intros [Hr Hrs]%Forall_cons.
      destruct (Hin Hr) as (c & σ1 & E & Hp1 & Hx1).
      rewrite (bind_Ok _ _ _ _ _ E).
      destruct (proj1 (IH c σ1 Hp1 Hok) Hrs) as (child & σ' & E' & Hp' & Hx').
      exists child, σ'. split; [exact E'|].
      split; [exact Hp' | eapply store_extends_trans; eassumption].
    + intros pre g post E Hpre Hg.
      destruct pre as [|p pre]; cbn in E; injection E as -> ->.
      * rewrite (bind_Err _ _ _ _ _ (Hout Hg)). reflexivity.
      * apply Forall_cons in Hpre as [Hr Hpre].
        destruct (Hin Hr) as (c & σ1 & E & Hp1 & _).
        rewrite (bind_Ok _ _ _ _ _ E).
        apply (proj2 (IH c σ1 Hp1 Hok) pre g post eq_refl Hpre Hg).
Qed.

(** X3: along a path, derivation from a node with a private key goes
    through exactly when every index is in range (at most 2^31 - 1 for a
    segment with the apostrophe, below 2^32 for one without): it then
    returns a node with a private key and leaves every object of the
    store as it was; otherwise it stops at the first index out of range,
    with the index overflow error for a segment with the apostrophe and a
    range error for one without. *)
Theorem derivePath_private (this : nat) (σ : heap) (n : NodeEd25519)
    (rooted : bool) (segs : list segment) :
  nodes σ !! this = Some n -> private_ok σ this ->
  (rooted = true -> __PARENT_FINGERPRINT n = 0) ->
  segs <> [] -> Forall segment_ok segs ->
  (Forall segment_in_range segs ->
   exists child σ',
     derivePath this (show_path rooted segs) σ = (Ok child, σ') /\
     private_ok σ' child /\ store_extends σ σ') /\
  (forall pre g post,
     segs = pre ++ g :: post -> Forall segment_in_range pre ->
     ~ segment_in_range g ->
     fst (derivePath this (show_path rooted segs) σ)
     = Err (if seg_hardened g then IndexOverflow else RangeError)).
Proof.
  intros Hn Hp Hroot Hne Hok.
  rewrite (derivePath_show_path _ _ _ _ _ Hn
             (show_path_valid _ _ Hne Hok) Hne Hok).
  replace (rooted && negb (__PARENT_FINGERPRINT n =? 0)) with false
    by (destruct rooted; [rewrite Hroot by reflexivity|]; reflexivity).
  apply reduce_private; assumption.
Qed.

(** ** Derivation from a public key, step by step *)

Lemma CKDPub_store_extends Q cc index σ :
  store_extends σ (CKDPub_store Q cc index σ).
Proof. split; intros ? ? H; [apply lookup_old, H | exact H]. Qed.

Lemma CKDPub_rec_out_of_range gas parent index σ :
  ~ 0 <= index < 2 ^ 32 ->
  CKDPub_rec (S gas) parent index σ = (Err RangeError, σ).
Proof.
  intros H. cbn [CKDPub_rec].
  rewrite (writeUInt32BE_out_of_range _ _ _ H). reflexivity.
Qed.

(** One derivation from a neutered node at an index without the hardened
    bit stops at the curve addition. *)
Lemma derive_public_throws q this index σ :
  nacl_add = None ->
  (0 < fuel)%nat -> holds_public_key q σ this -> 0 <= index < 2 ^ 31 ->
  fst (derive this index σ) = Err NotAFunction /\
  store_extends σ (snd (derive this index σ)).
Proof.
  intros Hadd Hfuel (n & Q & cc & Hn & HD & Hq & HQ & Hcc) Hi.
  rewrite (derive_neutered_normal _ _ _ _ Hn HD) by lia.
  unfold CKDPub. destruct fuel as [|gas]; [lia|].
  rewrite (CKDPub_rec_run gas _ _ _ _ _ _ _ Hadd Hn Hq HQ Hcc) by lia.
  split; [reflexivity | apply CKDPub_store_extends].
Qed.

Lemma derive_segment_public q this g σ :
  nacl_add = None ->
  (0 < fuel)%nat -> holds_public_key q σ this -> segment_ok g ->
  fst (derive_segment this g σ) = Err (neutered_step_error g) /\
  store_extends σ (snd (derive_segment this g σ)).
Proof.
  intros Hadd Hfuel Hp Hg. pose proof (segment_index_nonneg _ Hg) as H0.
  pose proof Hp as (n & Q & cc & Hn & HD & Hq & HQ & Hcc).
  unfold derive_segment, neutered_step_error.
  destruct (seg_hardened g).
  - unfold deriveHardened.
    destruct (Z.ltb_spec (2 ^ 31 - 1) (segment_index g)).
    + split; [reflexivity | apply store_extends_refl].
    + rewrite (derive_neutered_hardened _ _ _ _ Hn HD)
        by (unfold HIGHEST_BIT; lia).
      split; [reflexivity | apply store_extends_refl].
  - destruct (Z.ltb_spec (segment_index g) (2 ^ 31)).
    + apply (derive_public_throws q); [assumption..|lia].
    + rewrite (derive_neutered_hardened _ _ _ _ Hn HD) by lia.
      split; [reflexivity | apply store_extends_refl].
Qed.

(** X4: with a [nacl_catapult] that has no member [add], no path derives
    a node from a neutered node: [derivePath] throws at the first segment
    of every path that [isValidPath] accepts, and it leaves every node
    and every buffer as it was. The error is the index overflow error for
    a segment with the apostrophe and an index above 2^31 - 1, the
    missing private key error for another segment with the apostrophe or
    an index from 2^31 on, and the TypeError of the curve addition for
    an index below 2^31 without apostrophe. *)
Theorem derivePath_public (q this : nat) (σ : heap) (n : NodeEd25519)
    (rooted : bool) (g : segment) (segs : list segment) :
  nacl_add = None -> (0 < fuel)%nat ->
  nodes σ !! this = Some n -> holds_public_key q σ this ->
  (rooted = true -> __PARENT_FINGERPRINT n = 0) ->
  Forall segment_ok (g :: segs) ->
  isValidPath (show_path rooted (g :: segs)) = true /\
  fst (derivePath this (show_path rooted (g :: segs)) σ)
  = Err (neutered_step_error g) /\
  store_extends σ (snd (derivePath this (show_path rooted (g :: segs)) σ)).
Proof.
  intros Hadd Hfuel Hn Hp Hroot Hok.
  assert (Hne : g :: segs <> []) by discriminate.
  pose proof (show_path_valid rooted _ Hne Hok) as Hvalid.
  split; [exact Hvalid|].
  rewrite (derivePath_show_path _ _ _ _ _ Hn Hvalid Hne Hok).
  replace (rooted && negb (__PARENT_FINGERPRINT n =? 0)) with false
    by (destruct rooted; [rewrite Hroot by reflexivity|]; reflexivity).
  apply Forall_cons in Hok as [Hg _].
  destruct (derive_segment_public q this g σ Hadd Hfuel Hp Hg) as [E Hx].
  cbn [reduce]. unfold mbind, M_bind.
  destruct (derive_segment this g σ) as [[c|e] σ1]; cbn [fst snd] in *.
  - discriminate E.
  - split; assumption.
Qed.

(** ** What fromBase58 returns *)

Lemma byte_to_Z_range b : 0 <= byte_to_Z b < 256.
Proof. unfold byte_to_Z. pose proof (Byte.to_N_bounded b). lia. Qed.

Lemma byte_of_Z_eq z b : z mod 256 = byte_to_Z b -> byte_of_Z z = b.
Proof.
  intros H. unfold byte_of_Z.
  change 255 with (Z.ones 8). rewrite Z.land_ones by lia.
  change (2 ^ 8) with 256. rewrite H. unfold byte_to_Z.
  rewrite N2Z.id, Byte.of_to_N. reflexivity.
Qed.

Lemma byte_of_to_Z b : byte_of_Z (byte_to_Z b) = b.
Proof. apply byte_of_Z_eq, Z.mod_small, byte_to_Z_range. Qed.

Lemma uint32_be_of_bytes a b c d :
  uint32_be (byte_to_Z a * 2 ^ 24 + byte_to_Z b * 2 ^ 16
             + byte_to_Z c * 2 ^ 8 + byte_to_Z d) = [a; b; c; d].
Proof.
  pose proof (byte_to_Z_range a) as Ha. pose proof (byte_to_Z_range b) as Hb.
  pose proof (byte_to_Z_range c) as Hc. pose proof (byte_to_Z_range d) as Hd.
  unfold uint32_be.
  repeat f_equal; apply byte_of_Z_eq;
    rewrite ?Z.shiftr_div_pow2 by lia;
    change (2 ^ 24) with 16777216; change (2 ^ 16) with 65536;
    change (2 ^ 8) with 256;
    generalize dependent (byte_to_Z a); generalize dependent (byte_to_Z b);
    generalize dependent (byte_to_Z c); generalize dependent (byte_to_Z d);
    clear; intros; Z.div_mod_to_equations; lia.
Qed.

Lemma readUInt32BE_range offset buf v :
  readUInt32BE offset buf = Ok v -> 0 <= v < 2 ^ 32.
Proof.
  unfold readUInt32BE. intros H.
  repeat case_match; try discriminate. injection H as <-.
  match goal with
  | |- 0 <= byte_to_Z ?a * _ + byte_to_Z ?b * _ + byte_to_Z ?c * _
            + byte_to_Z ?d < _ =>
      pose proof (byte_to_Z_range a); pose proof (byte_to_Z_range b);
      pose proof (byte_to_Z_range c); pose proof (byte_to_Z_range d)
  end.
  change (2 ^ 24) with 16777216. change (2 ^ 16) with 65536.
  change (2 ^ 8) with 256. change (2 ^ 32) with 4294967296. lia.
Qed.

Lemma byte_at_range i buf : 0 <= byte_at i buf < 256.
Proof.
  unfold byte_at. destruct (buf !! i); cbn; [apply byte_to_Z_range | lia].
Qed.

Lemma length_slice start stop (buf : list byte) :
  (stop <= length buf)%nat -> length (slice start stop buf) = (stop - start)%nat.
Proof. intros H. unfold slice. rewrite length_take, length_drop. lia. Qed.

(** A result of [fromBase58] comes from a payload that passed the four
    checks. *)
Lemma fromBase58_Ok_inv inString net σ this σ' :
  fromBase58 inString net σ = (Ok this, σ') ->
  exists buffer version pf idx marker,
    bs58check_decode inString = Some buffer /\ length buffer = 78%nat /\
    readUInt32BE 0 buffer = Ok version /\ readUInt32BE 5 buffer = Ok pf /\
    readUInt32BE 9 buffer = Ok idx /\ readUInt8 45 buffer = Ok marker /\
    (version = privateKeyPrefix CATAPULT \/ version = publicKeyPrefix CATAPULT) /\
    (byte_at 4 buffer = 0 -> pf = 0 /\ idx = 0) /\
    (version = privateKeyPrefix CATAPULT -> marker = 0) /\
    this = length (nodes σ) /\
    σ' = decoded_store (version =? privateKeyPrefix CATAPULT) net buffer pf idx σ.
Proof.
  intros H.
  destruct (bs58check_decode inString) as [buffer|] eqn:Hdec;
    [|unfold fromBase58 in H; rewrite Hdec in H; discriminate H].
  destruct (Nat.eqb_spec (length buffer) 78) as [Hlen|Hlen];
    [|unfold fromBase58 in H; rewrite Hdec in H;
      apply Nat.eqb_neq in Hlen; rewrite Hlen in H; discriminate H].
  destruct (readUInt32BE_is_Ok 0 buffer) as [version Hv]; [lia|].
  destruct (readUInt32BE_is_Ok 5 buffer) as [pf Hpf]; [lia|].
  destruct (readUInt32BE_is_Ok 9 buffer) as [idx Hidx]; [lia|].
  destruct (readUInt8_is_Ok 45 buffer) as [marker Hm]; [lia|].
  assert (Hver : version = privateKeyPrefix CATAPULT
                 \/ version = publicKeyPrefix CATAPULT).
  { destruct (Z.eq_dec version (privateKeyPrefix CATAPULT)) as [|N1]; [auto|].
    destruct (Z.eq_dec version (publicKeyPrefix CATAPULT)) as [|N2]; [auto|].
    exfalso. unfold fromBase58 in H.
    rewrite Hdec, Hlen, Hv in H. cbn [Nat.eqb negb] in H. unfold_monad.
    apply Z.eqb_neq in N1, N2. rewrite N1, N2 in H. discriminate H. }
  assert (Hmaster : byte_at 4 buffer = 0 -> pf = 0 /\ idx = 0).
  { intros Hd.
    destruct (Z.eq_dec pf 0) as [Epf|Npf];
      [destruct (Z.eq_dec idx 0) as [Eidx|Nidx]; [auto|]|];
      exfalso; unfold fromBase58 in H;
      rewrite Hdec, Hlen, Hv, Hpf, Hidx in H; cbn [Nat.eqb negb] in H;
      unfold_monad;
      replace (negb (version =? privateKeyPrefix CATAPULT)
               && negb (version =? publicKeyPrefix CATAPULT)) with false in H
        by (destruct Hver as [->| ->]; rewrite Z.eqb_refl;
            [reflexivity | symmetry; apply andb_false_r]);
      rewrite Hd in H; cbn in H.
    - subst pf. cbn in H. apply Z.eqb_neq in Nidx. rewrite Nidx in H.
      discriminate H.
    - apply Z.eqb_neq in Npf. rewrite Npf in H. discriminate H. }
  assert (Hmark : version = privateKeyPrefix CATAPULT -> marker = 0).
  { intros Hpriv. destruct (Z.eq_dec marker 0) as [|N]; [assumption|].
    exfalso. unfold fromBase58 in H.
    rewrite Hdec, Hlen, Hv, Hpf, Hidx, Hm in H. cbn [Nat.eqb negb] in H.
    unfold_monad.
    rewrite Hpriv, Z.eqb_refl in H. cbn [negb andb] in H.
    replace ((byte_at 4 buffer =? 0) && negb (pf =? 0)) with false in H
      by (destruct (Z.eqb_spec (byte_at 4 buffer) 0) as [E|E];
          [destruct (Hmaster E) as [-> _]|]; reflexivity).
    replace ((byte_at 4 buffer =? 0) && negb (idx =? 0)) with false in H
      by (destruct (Z.eqb_spec (byte_at 4 buffer) 0) as [E|E];
          [destruct (Hmaster E) as [_ ->]|]; reflexivity).
    cbn in H. apply Z.eqb_neq in N. rewrite N in H. discriminate H. }
  pose proof (fromBase58_run inString net σ buffer version pf idx marker
                Hdec Hlen Hv Hpf Hidx Hm Hver Hmaster Hmark) as Hrun.
  cbn zeta in Hrun. rewrite Hrun in H. injection H as <- <-.
  exists buffer, version, pf, idx, marker.
  do 9 (split; [first [assumption | reflexivity]|]). split; reflexivity.
Qed.

Lemma decoded_store_extends private net buffer pf idx σ :
  store_extends σ (decoded_store private net buffer pf idx σ).
Proof. split; intros; cbn; apply lookup_old; assumption. Qed.

(** X5: every node that [fromBase58] returns is a new node of the data
    model: a depth that fits a byte, a uint32 index and parent
    fingerprint, index and parent fingerprint 0 at depth 0, the network
    it was given, a 32-byte chain code, and either a 32-byte private key
    and no public key or a 33-byte public key and no private key; the
    objects of the store are left as they were. *)
Theorem fromBase58_well_formed (inString : string) (net : Network)
    (σ σ' : heap) (this : nat) :
  fromBase58 inString net σ = (Ok this, σ') ->
  exists c cc,
    this = length (nodes σ) /\ nodes σ' !! this = Some c /\
    store_extends σ σ' /\
    fields_in_range c /\ master_invariant c /\ network c = net /\
    buffers σ' !! chainCode c = Some cc /\ length cc = 32%nat /\
    ((exists k K, __D c = Some k /\ __Q c = None /\
                  buffers σ' !! k = Some K /\ length K = 32%nat) \/
     (exists X Q, __D c = None /\ __Q c = Some X /\
                  buffers σ' !! X = Some Q /\ length Q = 33%nat)).
Proof.
  intros H.
  destruct (fromBase58_Ok_inv _ _ _ _ _ H)
    as (buffer & version & pf & idx & marker & Hdec & Hlen & Hv & Hpf & Hidx
        & Hm & Hver & Hmaster & Hmark & -> & ->).
  set (private := version =? privateKeyPrefix CATAPULT).
  exists (decoded_node private net buffer pf idx σ), (slice 13 45 buffer).
  split; [reflexivity|]. split; [apply lookup_new|].
  split; [apply decoded_store_extends|].
  split; [|split; [|split; [|split; [|split]]]].
  - split; [apply byte_at_range|].
    split; [apply (readUInt32BE_range _ _ _ Hidx) | apply (readUInt32BE_range _ _ _ Hpf)].
  - exact Hmaster.
  - reflexivity.
  - apply lookup_new.
  - apply length_slice. lia.
  - destruct private.
    + left. eexists _, _. split; [reflexivity|]. split; [reflexivity|].
      split; [apply lookup_new2 | apply length_slice; lia].
    + right. eexists _, _. split; [reflexivity|]. split; [reflexivity|].
      split; [apply lookup_new2 | apply length_slice; lia].
Qed.

(** ** Decoding, then encoding *)

Lemma extended_key_of_buffer (buffer : list byte) version pf idx :
  length buffer = 78%nat ->
  readUInt32BE 0 buffer = Ok version -> readUInt32BE 5 buffer = Ok pf ->
  readUInt32BE 9 buffer = Ok idx ->
  extended_key version (byte_at 4 buffer) pf idx
    (slice 13 45 buffer) (slice 45 78 buffer) = buffer.
Proof.
  intros Hlen Hv Hpf Hidx.
  do 13 (destruct buffer as [|? buffer]; [discriminate Hlen|]).
  cbn in Hlen. injection Hlen as Hlen.
  unfold readUInt32BE in Hv, Hpf, Hidx. cbn in Hv, Hpf, Hidx.
  injection Hv as <-. injection Hpf as <-. injection Hidx as <-.
  unfold extended_key, byte_at. cbn [lookup list_lookup from_option].
  rewrite !uint32_be_of_bytes, byte_of_to_Z.
  unfold slice. cbn [drop take app Nat.sub].
  do 13 f_equal.
  rewrite (take_ge (drop 32 buffer)) by (rewrite length_drop; lia).
  apply take_drop.
Qed.

Lemma key_field_private (buffer : list byte) :
  length buffer = 78%nat -> readUInt8 45 buffer = Ok 0 ->
  [x00] ++ slice 46 78 buffer = slice 45 78 buffer.
Proof.
  intros Hlen Hm. unfold readUInt8 in Hm.
  destruct (buffer !! 45%nat) as [b|] eqn:E; [|discriminate Hm].
  injection Hm as Hb.
  assert (b = x00) as -> by (rewrite <- (byte_of_to_Z b), Hb; reflexivity).
  unfold slice. rewrite (drop_S _ _ _ E). reflexivity.
Qed.

(** X6: a node that [fromBase58] has returned is encoded by [toBase58] as
    the very payload it was decoded from, and the store is not changed by
    the encoding: decoding and encoding again loses nothing. *)
Theorem toBase58_fromBase58 (inString : string) (net : Network)
    (σ σ' : heap) (this : nat) :
  fromBase58 inString net σ = (Ok this, σ') ->
  exists buffer,
    bs58check_decode inString = Some buffer /\
    toBase58 this σ' = (Ok (bs58check_encode buffer), σ').
Proof.
  intros H.
  destruct (fromBase58_Ok_inv _ _ _ _ _ H)
    as (buffer & version & pf & idx & marker & Hdec & Hlen & Hv & Hpf & Hidx
        & Hm & Hver & Hmaster & Hmark & -> & ->).
  exists buffer. split; [exact Hdec|].
  pose proof (readUInt32BE_range _ _ _ Hv) as Rv.
  pose proof (readUInt32BE_range _ _ _ Hpf) as Rpf.
  pose proof (readUInt32BE_range _ _ _ Hidx) as Ridx.
  pose proof (byte_at_range 4 buffer) as Rd.
  pose proof (extended_key_of_buffer _ _ _ _ Hlen Hv Hpf Hidx) as Hkey.
  destruct (Z.eqb_spec version (privateKeyPrefix CATAPULT)) as [E|E].
  - rewrite (toBase58_private (length (nodes σ))
               (decoded_store true net buffer pf idx σ)
               (decoded_node true net buffer pf idx σ)
               (S (length (buffers σ)))
               (slice 46 78 buffer) (slice 13 45 buffer)).
    + cbn [__DEPTH __INDEX __PARENT_FINGERPRINT decoded_node].
      rewrite (key_field_private _ Hlen) by (rewrite Hm, (Hmark E); reflexivity).
      rewrite <- E, Hkey. reflexivity.
    + apply lookup_new.
    + reflexivity.
    + apply lookup_new2.
    + apply length_slice. lia.
    + apply lookup_new.
    + apply length_slice. lia.
    + repeat split; assumption || apply Rd || apply Ridx || apply Rpf.
    + rewrite <- E. exact Rv.
  - destruct Hver as [Hver|Hver]; [contradiction|].
    rewrite (toBase58_public (length (nodes σ))
               (decoded_store false net buffer pf idx σ)
               (decoded_node false net buffer pf idx σ)
               (S (length (buffers σ)))
               (slice 45 78 buffer) (slice 13 45 buffer)).
    + cbn [__DEPTH __INDEX __PARENT_FINGERPRINT decoded_node].
      rewrite length_slice by lia. cbn [Nat.sub Nat.add].
      rewrite drop_ge by (rewrite length_allocUnsafe; lia).
      rewrite app_nil_r, <- Hver, Hkey. reflexivity.
    + apply lookup_new.
    + reflexivity.
    + reflexivity.
    + apply lookup_new2.
    + rewrite length_slice by lia. lia.
    + apply lookup_new.
    + apply length_slice. lia.
    + repeat split; assumption || apply Rd || apply Ridx || apply Rpf.
    + rewrite <- Hver. exact Rv.
Qed.

(** ** Encoding, then decoding, with key material that fills the field *)

(** X7: a node with a 32-byte private key and a 32-byte chain code, whose
    numeric fields fit the record, is encoded without change to the store
    and decoded again as a node with the same depth, index, parent
    fingerprint, chain code and private key, and no public key. *)
Theorem base58_roundtrip_private (this : nat) (σ : heap) (n : NodeEd25519)
    (k : nat) (K cc : list byte) (net : Network) :
  (forall b, bs58check_decode (bs58check_encode b) = Some b) ->
  nodes σ !! this = Some n -> __D n = Some k ->
  buffers σ !! k = Some K -> length K = 32%nat ->
  buffers σ !! chainCode n = Some cc -> length cc = 32%nat ->
  fields_in_range n -> master_invariant n ->
  0 <= privateKeyPrefix CATAPULT < 2 ^ 32 ->
  exists s this' σ' c k',
    toBase58 this σ = (Ok s, σ) /\
    fromBase58 s net σ = (Ok this', σ') /\
    nodes σ' !! this' = Some c /\
    __DEPTH c = __DEPTH n /\ __INDEX c = __INDEX n /\
    __PARENT_FINGERPRINT c = __PARENT_FINGERPRINT n /\
    buffers σ' !! chainCode c = Some cc /\
    __D c = Some k' /\ buffers σ' !! k' = Some K /\ __Q c = None.
Proof. apply fromBase58_toBase58_private. Qed.

(** X8: a neutered node with a 33-byte public key and a 32-byte chain
    code, whose numeric fields fit the record, is encoded without change
    to the store and decoded again as a neutered node with the same depth,
    index, parent fingerprint, chain code and public key. *)
Theorem base58_roundtrip_public_key_33 (this : nat) (σ : heap)
    (n : NodeEd25519) (q : nat) (Q cc : list byte) (net : Network) :
  (forall b, bs58check_decode (bs58check_encode b) = Some b) ->
  nodes σ !! this = Some n -> __D n = None -> __Q n = Some q ->
  buffers σ !! q = Some Q -> length Q = 33%nat ->
  buffers σ !! chainCode n = Some cc -> length cc = 32%nat ->
  fields_in_range n -> master_invariant n ->
  0 <= publicKeyPrefix CATAPULT < 2 ^ 32 ->
  publicKeyPrefix CATAPULT <> privateKeyPrefix CATAPULT ->
  exists s this' σ' c X,
    toBase58 this σ = (Ok s, σ) /\
    fromBase58 s net σ = (Ok this', σ') /\
    nodes σ' !! this' = Some c /\
    __DEPTH c = __DEPTH n /\ __INDEX c = __INDEX n /\
    __PARENT_FINGERPRINT c = __PARENT_FINGERPRINT n /\
    buffers σ' !! chainCode c = Some cc /\
    __D c = None /\ __Q c = Some X /\ buffers σ' !! X = Some Q.
Proof.
  intros Hrt Hn HD Hq HQ HlQ Hcc Hlcc Hrange Hmaster Hv Hne.
  destruct (fromBase58_toBase58_public this σ n q Q cc net Hrt)
    as (s & this' & σ' & c & X & H);
    [assumption | assumption | assumption | assumption | lia | assumption..|].
  exists s, this', σ', c, X.
  rewrite HlQ in H. cbn [Nat.add] in H.
  rewrite drop_ge, app_nil_r in H by (rewrite length_allocUnsafe; lia).
  exact H.
Qed.

(** ** toBase58 on any node *)

Lemma read_buffer_store l σ : snd (read_buffer l σ) = σ.
Proof. unfold read_buffer. destruct (buffers σ !! l); reflexivity. Qed.

Lemma publicKey_neutered_store this σ n :
  nodes σ !! this = Some n -> __D n = None -> snd (publicKey this σ) = σ.
Proof.
  intros Hn HD. unfold publicKey.
  rewrite (bind_Ok _ _ _ _ _ (read_node_Ok _ _ _ Hn)), HD.
  destruct (__Q n); reflexivity.
Qed.

Lemma toBase58_store this σ : snd (toBase58 this σ) = σ.
Proof.
  unfold toBase58.
  destruct (nodes σ !! this) as [n|] eqn:Hn;
    [|unfold mbind, M_bind, read_node; rewrite Hn; reflexivity].
  rewrite (bind_Ok _ _ _ _ _ (read_node_Ok _ _ _ Hn)).
  rewrite (bind_Ok _ _ _ _ _ (isNeutered_Ok _ _ _ Hn)).
  destruct (writeUInt32BE _ 0 _) as [b1|e]; [|reflexivity].
  rewrite (lift_bind _ _ _ _ eq_refl).
  rewrite (bind_Ok _ _ _ _ _ (depth_Ok _ _ _ Hn)).
  destruct (writeUInt8 _ 4 _) as [b2|e]; [|reflexivity].
  rewrite (lift_bind _ _ _ _ eq_refl).
  rewrite (bind_Ok _ _ _ _ _ (parentFingerprint_Ok _ _ _ Hn)).
  destruct (writeUInt32BE _ 5 _) as [b3|e]; [|reflexivity].
  rewrite (lift_bind _ _ _ _ eq_refl).
  rewrite (bind_Ok _ _ _ _ _ (index_Ok _ _ _ Hn)).
  destruct (writeUInt32BE _ 9 _) as [b4|e]; [|reflexivity].
  rewrite (lift_bind _ _ _ _ eq_refl).
  destruct (buffers σ !! chainCode n) as [cc|] eqn:Hcc;
    [|unfold mbind, M_bind, read_buffer; rewrite Hcc; reflexivity].
  rewrite (bind_Ok _ _ _ _ _ (read_buffer_Ok _ _ _ Hcc)).
  rewrite (bind_Ok _ _ _ _ _ (isNeutered_Ok _ _ _ Hn)).
  destruct (__D n) as [k|] eqn:HD.
  - rewrite bool_decide_eq_false_2 by discriminate. cbn [negb].
    destruct (writeUInt8 0 45 _) as [b5|e]; [|reflexivity].
    rewrite (lift_bind _ _ _ _ eq_refl).
    rewrite (bind_Ok _ _ _ _ _ (privateKey_Ok _ _ _ _ Hn HD)).
    unfold mbind, M_bind, read_buffer. destruct (buffers σ !! k); reflexivity.
  - rewrite bool_decide_eq_true_2 by reflexivity. cbn [negb].
    pose proof (publicKey_neutered_store _ _ _ Hn HD) as Hpk.
    unfold mbind at 1, M_bind at 1.
    destruct (publicKey this σ) as [[q|e] σ1]; cbn in Hpk; subst σ1;
      [|reflexivity].
    unfold mbind, M_bind, read_buffer. destruct (buffers σ !! q); reflexivity.
Qed.

Lemma length_write_bytes (bs buf : list byte) o :
  (o + length bs <= length buf)%nat -> length (write_bytes bs o buf) = length buf.
Proof.
  intros H. unfold write_bytes.
  rewrite !length_app, length_take, length_drop. lia.
Qed.

Lemma take_write_bytes (bs buf : list byte) o k :
  (k <= o <= length buf)%nat -> take k (write_bytes bs o buf) = take k buf.
Proof.
  intros H. unfold write_bytes.
  rewrite take_app_le by (rewrite length_take; lia).
  rewrite take_take. f_equal. lia.
Qed.

Lemma length_buffer_copy (src buf : list byte) o :
  (o <= length buf)%nat -> length (buffer_copy src o buf) = length buf.
Proof.
  intros H. unfold buffer_copy. apply length_write_bytes.
  rewrite length_take. lia.
Qed.

Lemma take_buffer_copy (src buf : list byte) o k :
  (k <= o <= length buf)%nat -> take k (buffer_copy src o buf) = take k buf.
Proof. intros H. unfold buffer_copy. apply take_write_bytes, H. Qed.

Lemma writeUInt8_out_of_range value offset buf :
  ~ 0 <= value < 256 -> writeUInt8 value offset buf = Err RangeError.
Proof.
  intros H. unfold writeUInt8.
  destruct (Z.leb_spec 0 value); [|reflexivity].
  destruct (Z.leb_spec value 255); [lia | reflexivity].
Qed.

Lemma writeUInt8_Ok value offset buf :
  0 <= value < 256 -> (offset + 1 <= length buf)%nat ->
  writeUInt8 value offset buf = Ok (write_bytes [byte_of_Z value] offset buf).
Proof.
  intros Hv Ho. unfold writeUInt8.
  replace (0 <=? value) with true by (symmetry; apply Z.leb_le; lia).
  replace (value <=? 255) with true by (symmetry; apply Z.leb_le; lia).
  replace (offset + 1 <=? length buf)%nat with true
    by (symmetry; apply Nat.leb_le; lia).
  reflexivity.
Qed.

(** X9: [toBase58] never changes the store, and what it encodes, when it
    returns, is always a record of 78 bytes that starts with the version
    prefix for the kind of the node, the depth, the parent fingerprint
    and the index; it returns only for a node whose depth fits a byte and
    whose index and parent fingerprint are uint32. *)
Theorem toBase58_payload (this : nat) (σ σ' : heap) (s : string) :
  toBase58 this σ = (Ok s, σ') ->
  σ' = σ /\
  exists n payload,
    nodes σ !! this = Some n /\ fields_in_range n /\
    s = bs58check_encode payload /\ length payload = 78%nat /\
    take 13 payload
    = uint32_be (if __D n is Some _ then privateKeyPrefix CATAPULT
                 else publicKeyPrefix CATAPULT)
      ++ [byte_of_Z (__DEPTH n)] ++ uint32_be (__PARENT_FINGERPRINT n)
      ++ uint32_be (__INDEX n).
Proof.
  intros H. split; [rewrite <- (toBase58_store this σ), H; reflexivity|].
  pose proof (length_allocUnsafe 78) as Hj.
  unfold toBase58 in H.
  destruct (nodes σ !! this) as [n|] eqn:Hn;
    [|unfold mbind, M_bind, read_node in H; rewrite Hn in H; discriminate H].
  rewrite (bind_Ok _ _ _ _ _ (read_node_Ok _ _ _ Hn)) in H.
  rewrite (bind_Ok _ _ _ _ _ (isNeutered_Ok _ _ _ Hn)) in H.
  set (version := if negb (bool_decide (__D n = None))
                  then privateKeyPrefix CATAPULT
                  else publicKeyPrefix CATAPULT) in H.
  assert (Eversion : version = if __D n is Some _ then privateKeyPrefix CATAPULT
                               else publicKeyPrefix CATAPULT).
  { subst version. destruct (__D n); reflexivity. }
  exists n. rewrite <- Eversion. clearbody version.
  destruct (decide (0 <= version < 2 ^ 32)) as [Hv|Hv];
    [|rewrite (writeUInt32BE_out_of_range _ _ _ Hv) in H; discriminate H].
  destruct (decide (0 <= __DEPTH n < 256)) as [Hd|Hd]; cycle 1.
  { destruct (writeUInt32BE version 0 _) as [b1|e]; [|discriminate H].
    rewrite (lift_bind _ _ _ _ eq_refl) in H.
    rewrite (bind_Ok _ _ _ _ _ (depth_Ok _ _ _ Hn)) in H.
    rewrite (writeUInt8_out_of_range _ _ _ Hd) in H. discriminate H. }
  destruct (decide (0 <= __PARENT_FINGERPRINT n < 2 ^ 32)) as [Hpf|Hpf]; cycle 1.
  { destruct (writeUInt32BE version 0 _) as [b1|e]; [|discriminate H].
    rewrite (lift_bind _ _ _ _ eq_refl) in H.
    rewrite (bind_Ok _ _ _ _ _ (depth_Ok _ _ _ Hn)) in H.
    destruct (writeUInt8 _ 4 _) as [b2|e]; [|discriminate H].
    rewrite (lift_bind _ _ _ _ eq_refl) in H.
    rewrite (bind_Ok _ _ _ _ _ (parentFingerprint_Ok _ _ _ Hn)) in H.
    rewrite (writeUInt32BE_out_of_range _ _ _ Hpf) in H. discriminate H. }
  destruct (decide (0 <= __INDEX n < 2 ^ 32)) as [Hi|Hi]; cycle 1.
  { destruct (writeUInt32BE version 0 _) as [b1|e]; [|discriminate H].
    rewrite (lift_bind _ _ _ _ eq_refl) in H.
    rewrite (bind_Ok _ _ _ _ _ (depth_Ok _ _ _ Hn)) in H.
    destruct (writeUInt8 _ 4 _) as [b2|e]; [|discriminate H].
    rewrite (lift_bind _ _ _ _ eq_refl) in H.
    rewrite (bind_Ok _ _ _ _ _ (parentFingerprint_Ok _ _ _ Hn)) in H.
    destruct (writeUInt32BE _ 5 _) as [b3|e]; [|discriminate H].
    rewrite (lift_bind _ _ _ _ eq_refl) in H.
    rewrite (bind_Ok _ _ _ _ _ (index_Ok _ _ _ Hn)) in H.
    rewrite (writeUInt32BE_out_of_range _ _ _ Hi) in H. discriminate H. }
  destruct (toBase58_header (allocUnsafe 78) version (__DEPTH n)
              (__PARENT_FINGERPRINT n) (__INDEX n) Hj Hv Hd Hpf Hi)
    as (b1 & b2 & b3 & E1 & E2 & E3 & E4).
  rewrite (lift_bind _ _ _ _ E1) in H.
  rewrite (bind_Ok _ _ _ _ _ (depth_Ok _ _ _ Hn)) in H.
  rewrite (lift_bind _ _ _ _ E2) in H.
  rewrite (bind_Ok _ _ _ _ _ (parentFingerprint_Ok _ _ _ Hn)) in H.
  rewrite (lift_bind _ _ _ _ E3) in H.
  rewrite (bind_Ok _ _ _ _ _ (index_Ok _ _ _ Hn)) in H.
  rewrite (lift_bind _ _ _ _ E4) in H.
  clear E1 E2 E3 E4 b1 b2 b3.
  set (header := uint32_be version ++ _ ++ _ ++ _) in *.
  set (b4 := header ++ drop 13 (allocUnsafe 78)) in H.
  assert (L4 : length b4 = 78%nat)
    by (subst b4; rewrite length_extend; [exact Hj | reflexivity | lia]).
  assert (T4 : take 13 b4 = header)
    by (subst b4; apply (take_app_length' header); reflexivity).
  clearbody b4.
  destruct (buffers σ !! chainCode n) as [cc|] eqn:Hcc;
    [|unfold mbind, M_bind, read_buffer in H; rewrite Hcc in H; discriminate H].
  rewrite (bind_Ok _ _ _ _ _ (read_buffer_Ok _ _ _ Hcc)) in H.
  rewrite (bind_Ok _ _ _ _ _ (isNeutered_Ok _ _ _ Hn)) in H.
  set (b5 := buffer_copy cc 13 b4) in H.
  assert (L5 : length b5 = 78%nat)
    by (subst b5; rewrite length_buffer_copy; lia).
  assert (T5 : take 13 b5 = header)
    by (subst b5; rewrite take_buffer_copy; [exact T4 | lia]).
  clearbody b5.
  destruct (__D n) as [k|] eqn:HD.
  - rewrite bool_decide_eq_false_2 in H by discriminate. cbn [negb] in H.
    rewrite writeUInt8_Ok in H by lia.
    rewrite (lift_bind _ _ _ _ eq_refl) in H.
    rewrite (bind_Ok _ _ _ _ _ (privateKey_Ok _ _ _ _ Hn HD)) in H.
    destruct (buffers σ !! k) as [K|] eqn:HK;
      [|unfold mbind, M_bind, read_buffer in H; rewrite HK in H; discriminate H].
    rewrite (bind_Ok _ _ _ _ _ (read_buffer_Ok _ _ _ HK)) in H.
    injection H as <- _.
    eexists. split; [reflexivity|]. split; [repeat split; lia|].
    split; [reflexivity|].
    assert (L6 : length (write_bytes [byte_of_Z 0] 45 b5) = 78%nat)
      by (rewrite length_write_bytes; cbn; lia).
    split.
    + rewrite length_buffer_copy; lia.
    + rewrite take_buffer_copy by lia.
      rewrite take_write_bytes by lia. exact T5.
  - rewrite bool_decide_eq_true_2 in H by reflexivity. cbn [negb] in H.
    pose proof (publicKey_neutered_store _ _ _ Hn HD) as Hpk.
    unfold mbind at 1, M_bind at 1 in H.
    destruct (publicKey this σ) as [[q|e] σ1]; cbn in Hpk; subst σ1;
      [|discriminate H].
    destruct (buffers σ !! q) as [Q|] eqn:HQ;
      [|unfold mbind, M_bind, read_buffer in H; rewrite HQ in H; discriminate H].
    rewrite (bind_Ok _ _ _ _ _ (read_buffer_Ok _ _ _ HQ)) in H.
    injection H as <- _.
    eexists. split; [reflexivity|]. split; [repeat split; lia|].
    split; [reflexivity|].
    split.
    + rewrite length_buffer_copy; lia.
    + rewrite take_buffer_copy by lia. exact T5.
Qed.

(** ** The public key, once computed *)

Lemma publicKey_Ok_inv (this : nat) (σ σ1 : heap) (q : nat) :
  publicKey this σ = (Ok q, σ1) ->
  publicKey this σ1 = (Ok q, σ1) /\
  (forall l bs, buffers σ !! l = Some bs -> buffers σ1 !! l = Some bs) /\
  (forall j, j <> this -> nodes σ1 !! j = nodes σ !! j) /\
  exists n n1,
    nodes σ !! this = Some n /\ nodes σ1 !! this = Some n1 /\
    same_but_Q n n1 /\ __Q n1 = Some q /\
    (__Q n = Some q /\ σ1 = σ \/ __Q n = None /\ q = length (buffers σ)).
Proof.
  intros H.
  destruct (nodes σ !! this) as [n|] eqn:Hn;
    [|unfold publicKey, mbind, M_bind, read_node in H; rewrite Hn in H;
      discriminate H].
  destruct (__Q n) as [q0|] eqn:HQ.
  - rewrite (publicKey_cached _ _ _ _ Hn HQ) in H. injection H as <- <-.
    split; [apply (publicKey_cached _ _ _ _ Hn HQ)|].
    split; [auto|]. split; [auto|].
    exists n, n. split; [reflexivity|]. split; [exact Hn|].
    split; [repeat split|]. split; [exact HQ|].
    left. split; [exact HQ | reflexivity].
  - destruct (__D n) as [d|] eqn:HD; cycle 1.
    { unfold publicKey in H.
      rewrite (bind_Ok _ _ _ _ _ (read_node_Ok _ _ _ Hn)), HQ, HD in H.
      discriminate H. }
    destruct (buffers σ !! d) as [K|] eqn:HK; cycle 1.
    { unfold publicKey in H.
      rewrite (bind_Ok _ _ _ _ _ (read_node_Ok _ _ _ Hn)), HQ, HD in H.
      unfold mbind, M_bind, read_buffer in H. rewrite HK in H. discriminate H. }
    rewrite (publicKey_computed _ _ _ _ _ Hn HQ HD HK) in H.
    injection H as <- <-.
    assert (Hlt : (this < length (nodes σ))%nat) by (eapply lookup_lt_Some, Hn).
    set (n1 := with_Q n (length (buffers σ))).
    set (σ1 := {| buffers := buffers σ ++ [extractPublicKey K];
                  nodes := <[this := n1]> (nodes σ) |}).
    assert (Hn1 : nodes σ1 !! this = Some n1)
      by (apply list_lookup_insert_eq, Hlt).
    split; [apply (publicKey_cached _ _ _ _ Hn1); reflexivity|].
    split; [intros l bs Hl; apply lookup_old, Hl|].
    split; [intros j Hj; cbn; apply list_lookup_insert_ne; congruence|].
    exists n, n1. split; [reflexivity|]. split; [exact Hn1|].
    split; [repeat split|]. split; [reflexivity|].
    right. split; [exact HQ | reflexivity].
Qed.

(** X10: when the getter [publicKey] has returned a buffer, it returns
    the same buffer at every later access and changes the store no more;
    the access that computes the key creates that buffer and stores it in
    the field [__Q] of the node, and changes neither another field, nor
    another node, nor an existing buffer. *)
Theorem publicKey_memoized (this : nat) (σ σ1 : heap) (q : nat) :
  publicKey this σ = (Ok q, σ1) ->
  publicKey this σ1 = (Ok q, σ1) /\
  (forall l bs, buffers σ !! l = Some bs -> buffers σ1 !! l = Some bs) /\
  (forall j, j <> this -> nodes σ1 !! j = nodes σ !! j) /\
  exists n n1,
    nodes σ !! this = Some n /\ nodes σ1 !! this = Some n1 /\
    same_but_Q n n1 /\ __Q n1 = Some q /\
    (__Q n = Some q /\ σ1 = σ \/ __Q n = None /\ q = length (buffers σ)).
Proof. apply publicKey_Ok_inv. Qed.

(** ** What a neutered node refuses *)

Lemma sign_neutered this σ n hash len :
  nodes σ !! this = Some n -> __D n = None ->
  sign this hash len σ = (Err MissingPrivateKey, σ).
Proof.
  intros Hn HD. unfold sign, privateKey.
  unfold mbind at 1, M_bind at 1.
  rewrite (bind_Ok _ _ _ _ _ (read_node_Ok _ _ _ Hn)), HD. reflexivity.
Qed.

Lemma privateKey_neutered this σ n :
  nodes σ !! this = Some n -> __D n = None ->
  privateKey this σ = (Err MissingPrivateKey, σ).
Proof.
  intros Hn HD. unfold privateKey.
  rewrite (bind_Ok _ _ _ _ _ (read_node_Ok _ _ _ Hn)), HD. reflexivity.
Qed.

Lemma neutered_Ok_inv this σ new σ' :
  neutered this σ = (Ok new, σ') ->
  exists q σ1 n1,
    publicKey this σ = (Ok q, σ1) /\ nodes σ1 !! this = Some n1 /\
    new = length (nodes σ1) /\
    σ' = {| buffers := buffers σ1; nodes := nodes σ1 ++ [neutered_node n1 q] |}.
Proof.
  intros H. unfold neutered in H.
  destruct (publicKey this σ) as [[q|e] σ1] eqn:Hpk;
    [|rewrite (bind_Err _ _ _ _ _ Hpk) in H; discriminate H].
  rewrite (bind_Ok _ _ _ _ _ Hpk) in H.
  destruct (nodes σ1 !! this) as [n1|] eqn:Hn1;
    [|unfold mbind, M_bind, read_node in H; rewrite Hn1 in H; discriminate H].
  rewrite (bind_Ok _ _ _ _ _ (read_node_Ok _ _ _ Hn1)) in H.
  rewrite (bind_Ok _ _ _ _ _ (depth_Ok _ _ _ Hn1)) in H.
  rewrite (bind_Ok _ _ _ _ _ (index_Ok _ _ _ Hn1)) in H.
  rewrite (bind_Ok _ _ _ _ _ (parentFingerprint_Ok _ _ _ Hn1)) in H.
  unfold new_NodeEd25519, alloc_node in H. injection H as <- <-.
  exists q, σ1, n1. repeat split; first [assumption | reflexivity].
Qed.

(** X11: the node that [neutered] returns gives no private key, signs
    nothing and derives no hardened child: [privateKey] and [sign] throw
    the missing private key error, and so do [derive] for every index
    from 2^31 on and [deriveHardened] for every index from 0 to 2^31 - 1;
    none of them changes the store. *)
Theorem neutered_refuses (this : nat) (σ σ' : heap) (new : nat) :
  neutered this σ = (Ok new, σ') ->
  privateKey new σ' = (Err MissingPrivateKey, σ') /\
  (forall hash len, sign new hash len σ' = (Err MissingPrivateKey, σ')) /\
  (forall index, 2 ^ 31 <= index ->
     derive new index σ' = (Err MissingPrivateKey, σ')) /\
  (forall index, 0 <= index <= 2 ^ 31 - 1 ->
     deriveHardened new index σ' = (Err MissingPrivateKey, σ')).
Proof.
  intros H.
  destruct (neutered_Ok_inv _ _ _ _ H) as (q & σ1 & n1 & _ & _ & -> & ->).
  assert (Hn : nodes {| buffers := buffers σ1;
                        nodes := nodes σ1 ++ [neutered_node n1 q] |}
               !! length (nodes σ1) = Some (neutered_node n1 q))
    by apply lookup_new.
  assert (HD : __D (neutered_node n1 q) = None) by reflexivity.
  split; [apply (privateKey_neutered _ _ _ Hn HD)|].
  split; [intros hash len; apply (sign_neutered _ _ _ _ _ Hn HD)|].
  split; [intros index Hi; apply (derive_neutered_hardened _ _ _ _ Hn HD Hi)|].
  intros index Hi. rewrite deriveHardened_in_range by lia.
  apply (derive_neutered_hardened _ _ _ _ Hn HD). lia.
Qed.

(** ** What only adds to the store *)

Lemma store_extends_app σ bs ns :
  store_extends σ {| buffers := buffers σ ++ bs; nodes := nodes σ ++ ns |}.
Proof. split; intros; cbn; apply lookup_old; assumption. Qed.

Lemma store_extends_buffers σ bs :
  store_extends σ {| buffers := buffers σ ++ bs; nodes := nodes σ |}.
Proof. split; intros; cbn; [apply lookup_old|]; assumption. Qed.

Lemma fromSeed_extends seed net σ :
  store_extends σ (snd (fromSeed seed net σ)).
Proof.
  unfold fromSeed.
  destruct (length seed <? 16)%nat; [apply store_extends_refl|].
  destruct (64 <? length seed)%nat; [apply store_extends_refl|].
  unfold new_NodeEd25519. unfold_monad. cbn.
  rewrite <- app_assoc. apply store_extends_app.
Qed.

Lemma fromBase58_extends inString net σ :
  store_extends σ (snd (fromBase58 inString net σ)).
Proof.
  destruct (fromBase58 inString net σ) as [[this|e] σ'] eqn:E.
  - destruct (fromBase58_Ok_inv _ _ _ _ _ E)
      as (buffer & version & pf & idx & marker & _ & _ & _ & _ & _ & _ & _
          & _ & _ & _ & ->).
    apply decoded_store_extends.
  - unfold fromBase58 in E.
    destruct (bs58check_decode inString) as [buffer|];
      [|injection E as _ <-; apply store_extends_refl].
    destruct (negb (length buffer =? 78)%nat);
      [injection E as _ <-; apply store_extends_refl|].
    unfold new_NodeEd25519 in E. unfold_monad.
    repeat (case_match; simplify_eq/=);
      first [apply store_extends_refl
            | apply store_extends_buffers ].
Qed.

Lemma CKDPriv_extends parent index σ :
  store_extends σ (snd (CKDPriv parent index σ)).
Proof.
  unfold CKDPriv, privateKey, new_NodeEd25519_default, new_NodeEd25519.
  unfold_monad.
  repeat (case_match; simplify_eq/=); try apply store_extends_refl.
  rewrite <- app_assoc. apply store_extends_app.
Qed.

(** X13: [fromSeed], [fromBase58] and [CKDPriv] only add to the store:
    whatever they are given and whatever they return, every buffer and
    every node that existed is still there, unchanged. *)
Theorem constructors_only_add (σ : heap) :
  (forall seed net, store_extends σ (snd (fromSeed seed net σ))) /\
  (forall inString net, store_extends σ (snd (fromBase58 inString net σ))) /\
  (forall parent index, store_extends σ (snd (CKDPriv parent index σ))).
Proof.
  split; [|split].
  - intros. apply fromSeed_extends.
  - intros. apply fromBase58_extends.
  - intros. apply CKDPriv_extends.
Qed.

(** ** The indices a node with a private key accepts *)

(** X14: on a node with a private key, [derive] returns a child exactly
    for the indices from 0 to 2^32 - 1 and throws a range error, leaving
    the store as it was, for every other index; [deriveHardened] returns
    a child exactly for the indices from -2^31 to 2^31 - 1: for a negative
    index it is [derive] at [index + 2^31], which is below 2^31, so the
    child it returns is not a hardened one. Below -2^31 it throws a range
    error, above 2^31 - 1 the index overflow error. *)
Theorem private_index_bounds (this : nat) (index : Z) (σ : heap) :
  private_ok σ this ->
  (0 <= index < 2 ^ 32 ->
   exists child σ', derive this index σ = (Ok child, σ')) /\
  (~ 0 <= index < 2 ^ 32 -> derive this index σ = (Err RangeError, σ)) /\
  (- 2 ^ 31 <= index <= 2 ^ 31 - 1 ->
   exists child σ',
     deriveHardened this index σ = (Ok child, σ') /\
     derive this (index + 2 ^ 31) σ = (Ok child, σ')) /\
  (index < - 2 ^ 31 -> deriveHardened this index σ = (Err RangeError, σ)) /\
  (2 ^ 31 - 1 < index -> deriveHardened this index σ = (Err IndexOverflow, σ)).
Proof.
  intros Hp.
  split; [|split; [|split; [|split]]].
  - intros Hi.
    destruct (proj1 (derive_private_ok this index σ Hp) Hi) as (c & σ' & E & _).
    exists c, σ'. exact E.
  - apply (derive_private_ok this index σ Hp).
  - intros Hi. rewrite deriveHardened_in_range by lia.
    destruct (proj1 (derive_private_ok this (index + 2 ^ 31) σ Hp))
      as (c & σ' & E & _); [lia|].
    exists c, σ'. split; exact E.
  - intros Hi. rewrite deriveHardened_in_range by lia.
    apply (derive_private_ok this (index + 2 ^ 31) σ Hp). lia.
  - intros Hi. unfold deriveHardened.
    destruct (Z.ltb_spec (2 ^ 31 - 1) index); [reflexivity | lia].
Qed.

(** ** From a seed to an extended key and back *)

Lemma fromSeed_run seed net σ :
  (16 <= length seed <= 64)%nat ->
  let I := hmac_sha512 (list_byte_of_string "Catapult seed") seed in
  fromSeed seed net σ =
    (Ok (length (nodes σ)),
     {| buffers := buffers σ ++ [slice 0 32 I; drop 32 I];
        nodes := nodes σ ++ [seed_node net σ] |}).
Proof.
  intros H I. unfold fromSeed, new_NodeEd25519, seed_node. unfold_monad.
  destruct (Nat.ltb_spec (length seed) 16); [lia|].
  destruct (Nat.ltb_spec 64 (length seed)); [lia|]. cbn.
  rewrite length_app, <- app_assoc. cbn. repeat f_equal; lia.
Qed.

(** X15: the master node made from a seed of 16 to 64 bytes is encoded by
    [toBase58] and decoded again by [fromBase58] as a node with the same
    private key and chain code, the two halves of the HMAC-SHA512 of the
    seed keyed with the text [Catapult seed], at depth 0 with index and
    parent fingerprint 0 and no public key. *)
Theorem fromSeed_export_import (seed : list byte) (net net' : Network) (σ : heap) :
  (forall key data, length (hmac_sha512 key data) = 64%nat) ->
  (forall b, bs58check_decode (bs58check_encode b) = Some b) ->
  0 <= privateKeyPrefix CATAPULT < 2 ^ 32 ->
  (16 <= length seed <= 64)%nat ->
  let I := hmac_sha512 (list_byte_of_string "Catapult seed") seed in
  exists this σ1 s this' σ2 c k,
    fromSeed seed net σ = (Ok this, σ1) /\
    toBase58 this σ1 = (Ok s, σ1) /\
    fromBase58 s net' σ1 = (Ok this', σ2) /\
    nodes σ2 !! this' = Some c /\
    __D c = Some k /\ buffers σ2 !! k = Some (take 32 I) /\
    buffers σ2 !! chainCode c = Some (drop 32 I) /\
    __Q c = None /\ network c = net' /\
    __DEPTH c = 0 /\ __INDEX c = 0 /\ __PARENT_FINGERPRINT c = 0.
Proof.
  intros Hhmac Hrt Hv Hlen I.
  pose proof (fromSeed_run seed net σ Hlen) as Hseed. cbn zeta in Hseed.
  fold I in Hseed.
  set (σ1 := {| buffers := buffers σ ++ [slice 0 32 I; drop 32 I];
                nodes := nodes σ ++ [seed_node net σ] |}) in *.
  assert (HI : length I = 64%nat) by apply Hhmac.
  destruct (fromBase58_toBase58_private (length (nodes σ)) σ1
              (seed_node net σ) (length (buffers σ))
              (slice 0 32 I) (drop 32 I) net' Hrt)
    as (s & this' & σ2 & c & k & Henc & Hdec & Hc & Hd & Hi & Hpf & Hcc & Hk
        & HK & HQ).
  - apply lookup_new.
  - reflexivity.
  - apply lookup_new.
  - rewrite length_slice; lia.
  - apply lookup_new2.
  - rewrite length_drop. lia.
  - unfold fields_in_range. cbn. lia.
  - unfold master_invariant. cbn. auto.
  - exact Hv.
  - exists (length (nodes σ)), σ1, s, this', σ2, c, k.
    split; [exact Hseed|]. split; [exact Henc|]. split; [exact Hdec|].
    split; [exact Hc|]. split; [exact Hk|]. split; [exact HK|].
    split; [exact Hcc|]. split; [exact HQ|].
    destruct (fromBase58_Ok_inv _ _ _ _ _ Hdec)
      as (buffer & version & pf & idx & marker & _ & _ & _ & _ & _ & _ & _
          & _ & _ & -> & ->).
    unfold decoded_store in Hc. cbn [nodes] in Hc.
    rewrite lookup_new in Hc. injection Hc as <-.
    split; [reflexivity|]. cbn in Hd, Hi, Hpf.
    split; [exact Hd|]. split; [exact Hi | exact Hpf].
Qed.

(** ** Signing, verifying and the fingerprint *)

(** X16: on a node with a private key [K], [sign] hands the curve engine
    the data, the public key of the node and [K] with a hasher of 64
    bytes, whatever length it is given, and leaves the store as one access
    to [publicKey] leaves it; [verify] afterwards hands the engine the
    same public key, with a hasher of 32 bytes for a signature of 32 bytes
    and of 64 bytes for any other. *)
Theorem sign_then_verify (this : nat) (σ σ1 : heap) (n : NodeEd25519)
    (k q : nat) (K Q hash : list byte) (len : nat) :
  nodes σ !! this = Some n -> __D n = Some k -> buffers σ !! k = Some K ->
  publicKey this σ = (Ok q, σ1) -> buffers σ1 !! q = Some Q ->
  sign this hash len σ = (Ok (CatapultECC_sign hash Q K 64), σ1) /\
  forall signature,
    verify this hash signature σ1
    = (Ok (CatapultECC_verify hash Q signature
             (if (length signature =? 32)%nat then 32%nat else 64%nat)), σ1).
Proof.
  intros Hn Hk HK Hpk HQ.
  destruct (publicKey_Ok_inv _ _ _ _ Hpk) as (Hagain & Hbuf & _ & _).
  split.
  - unfold sign.
    rewrite (bind_Ok _ _ _ _ _ (privateKey_Ok _ _ _ _ Hn Hk)).
    rewrite (bind_Ok _ _ _ _ _ Hpk).
    rewrite (bind_Ok _ _ _ _ _ (read_buffer_Ok _ _ _ HQ)).
    rewrite (bind_Ok _ _ _ _ _ (read_buffer_Ok _ _ _ (Hbuf _ _ HK))).
    reflexivity.
  - intros signature. unfold verify.
    rewrite (bind_Ok _ _ _ _ _ Hagain).
    rewrite (bind_Ok _ _ _ _ _ (read_buffer_Ok _ _ _ HQ)).
    reflexivity.
Qed.

(** X17: the node that [neutered] returns has the identifier and the
    fingerprint of the node it was made from: both are computed from the
    one buffer that the two nodes hold as public key. *)
Theorem neutered_fingerprint (this : nat) (σ σ' : heap) (new : nat) :
  neutered this σ = (Ok new, σ') ->
  identifier new σ' = identifier this σ' /\
  fingerprint new σ' = fingerprint this σ'.
Proof.
  intros H.
  destruct (neutered_Ok_inv _ _ _ _ H) as (q & σ1 & n1 & Hpk & Hn1 & -> & ->).
  destruct (publicKey_Ok_inv _ _ _ _ Hpk)
    as (_ & _ & _ & n & n1' & _ & Hn1' & _ & HQ1 & _).
  rewrite Hn1 in Hn1'. injection Hn1' as <-.
  set (σ' := {| buffers := buffers σ1;
                nodes := nodes σ1 ++ [neutered_node n1 q] |}).
  assert (Hnew : publicKey (length (nodes σ1)) σ' = (Ok q, σ'))
    by (eapply publicKey_cached; [apply lookup_new | reflexivity]).
  assert (Hold : publicKey this σ' = (Ok q, σ'))
    by (eapply publicKey_cached; [apply lookup_old, Hn1 | exact HQ1]).
  assert (E : identifier (length (nodes σ1)) σ' = identifier this σ').
  { unfold identifier.
    rewrite (bind_Ok _ _ _ _ _ Hnew), (bind_Ok _ _ _ _ _ Hold). reflexivity. }
  split; [exact E|].
  unfold fingerprint, mbind, M_bind. rewrite E. reflexivity.
Qed.

(** ** The indices a neutered node accepts *)

(** X18: with a [nacl_catapult] that has no member [add], a neutered
    node derives no child at all, whatever the index: [derive] throws a
    range error for a negative index, the TypeError of the curve addition
    from 0 to 2^31 - 1 and the missing private key error from 2^31 on;
    [deriveHardened] throws a range error below -2^31, the TypeError from
    -2^31 to -1 (where it is [derive] at [index + 2^31]), the missing
    private key error from 0 to 2^31 - 1 and the index overflow error
    above. Every node and every buffer is left as it was. *)
Theorem neutered_index_bounds (q this : nat) (index : Z) (σ : heap) :
  nacl_add = None -> (0 < fuel)%nat -> holds_public_key q σ this ->
  (index < 0 -> derive this index σ = (Err RangeError, σ)) /\
  (0 <= index < 2 ^ 31 ->
   fst (derive this index σ) = Err NotAFunction /\
   store_extends σ (snd (derive this index σ))) /\
  (2 ^ 31 <= index -> derive this index σ = (Err MissingPrivateKey, σ)) /\
  (index < - 2 ^ 31 -> deriveHardened this index σ = (Err RangeError, σ)) /\
  (- 2 ^ 31 <= index < 0 ->
   fst (deriveHardened this index σ) = Err NotAFunction /\
   store_extends σ (snd (deriveHardened this index σ))) /\
  (0 <= index <= 2 ^ 31 - 1 ->
   deriveHardened this index σ = (Err MissingPrivateKey, σ)) /\
  (2 ^ 31 - 1 < index -> deriveHardened this index σ = (Err IndexOverflow, σ)) /\
  (forall child σ',
     derive this index σ <> (Ok child, σ') /\
     deriveHardened this index σ <> (Ok child, σ')).
Proof.
  intros Hadd Hfuel Hp. pose proof Hp as (n & Q & cc & Hn & HD & Hq & HQ & Hcc).
  assert (Hneg : forall i, i < 0 -> derive this i σ = (Err RangeError, σ)).
  { intros i Hi. rewrite (derive_neutered_normal _ _ _ _ Hn HD) by lia.
    unfold CKDPub. destruct fuel as [|gas]; [lia|].
    apply CKDPub_rec_out_of_range. lia. }
  assert (Hover : 2 ^ 31 - 1 < index ->
                  deriveHardened this index σ = (Err IndexOverflow, σ)).
  { intros Hi. unfold deriveHardened.
    destruct (Z.ltb_spec (2 ^ 31 - 1) index); [reflexivity | lia]. }
  split; [apply Hneg|].
  split; [intros Hi; apply (derive_public_throws q); assumption|].
  split; [intros Hi; apply (derive_neutered_hardened _ _ _ _ Hn HD Hi)|].
  split; [intros Hi; rewrite deriveHardened_in_range by lia; apply Hneg; lia|].
  split; [intros Hi; rewrite deriveHardened_in_range by lia;
          apply (derive_public_throws q); [assumption..|lia]|].
  split; [intros Hi; rewrite deriveHardened_in_range by lia;
          apply (derive_neutered_hardened _ _ _ _ Hn HD); lia|].
  split; [exact Hover|].
  intros child σ'. split.
  - destruct (Z.lt_ge_cases index 0) as [Hi|Hi]; [rewrite Hneg by exact Hi; discriminate|].
    destruct (Z.lt_ge_cases index (2 ^ 31)) as [Hj|Hj].
    + destruct (derive_public_throws q this index σ Hadd Hfuel Hp) as [E _]; [lia|].
      intros E'. rewrite E' in E. discriminate E.
    + rewrite (derive_neutered_hardened _ _ _ _ Hn HD Hj). discriminate.
  - destruct (Z.lt_ge_cases (2 ^ 31 - 1) index) as [Hi|Hi];
      [rewrite Hover by exact Hi; discriminate|].
    rewrite deriveHardened_in_range by lia.
    destruct (Z.lt_ge_cases (index + 2 ^ 31) 0) as [Hj|Hj];
      [rewrite Hneg by exact Hj; discriminate|].
    destruct (Z.lt_ge_cases index 0) as [Hk|Hk].
    + destruct (derive_public_throws q this (index + 2 ^ 31) σ Hadd Hfuel Hp)
        as [E _]; [lia|].
      intros E'. rewrite E' in E. discriminate E.
    + rewrite (derive_neutered_hardened _ _ _ _ Hn HD) by lia. discriminate.
Qed.

(** ** A path from the root on a node that is not a master node *)

Local Open Scope string_scope.

Lemma show_path_unrooted_head segs c rest :
  Forall segment_ok segs -> segs <> [] ->
  show_path false segs = String c rest -> is_digit c = true.
Proof.
  intros Hok Hne E. destruct segs as [|g segs]; [congruence|].
  apply Forall_cons in Hok as [[Hg Hall] _].
  unfold show_path in E. cbn [append map] in E.
  destruct (seg_digits g) as [|d ds] eqn:Ed; [congruence|].
  cbn in Hall. apply andb_true_iff in Hall as [Hd _].
  assert (exists tl, join_path (show_segment g :: map show_segment segs)
                     = String d tl) as [tl Etl].
  { destruct segs; cbn [map join_path]; unfold show_segment at 1;
      rewrite Ed; cbn [append]; eexists; reflexivity. }
  rewrite Etl in E. injection E as <- _. exact Hd.
Qed.

(** X19: a path that [isValidPath] accepts and that starts with [m/]
    is refused, with the error that a master node is expected and no
    change to the store, on every node whose parent fingerprint is not 0,
    before any segment is derived. *)
Theorem derivePath_expects_master (this : nat) (σ : heap) (n : NodeEd25519)
    (rest : string) :
  nodes σ !! this = Some n -> __PARENT_FINGERPRINT n <> 0%Z ->
  isValidPath ("m/" ++ rest) = true ->
  derivePath this ("m/" ++ rest) σ = (Err ExpectedMasterNode, σ).
Proof.
  intros Hn Hpf Hvalid.
  destruct (isValidPath_shape _ Hvalid) as (rooted & segs & Hne & Hok & E).
  destruct rooted.
  - rewrite E in Hvalid |- *.
    rewrite (derivePath_show_path _ _ _ _ _ Hn Hvalid Hne Hok).
    apply Z.eqb_neq in Hpf. rewrite Hpf. reflexivity.
  - symmetry in E. cbn [append] in E.
    apply (show_path_unrooted_head _ _ _ Hok Hne) in E. discriminate E.
Qed.

Local Close Scope string_scope.

(** * The life of a node *)

(** ** The steps that leave the store as it may become *)

Lemma node_evolves_refl n : node_evolves n n.
Proof. split; [repeat split | auto]. Qed.

Lemma node_evolves_trans n1 n2 n3 :
  node_evolves n1 n2 -> node_evolves n2 n3 -> node_evolves n1 n3.
Proof.
  intros [(A1 & A2 & A3 & A4 & A5 & A6) HQ1] [(B1 & B2 & B3 & B4 & B5 & B6) HQ2].
  split; [repeat split; congruence | auto].
Qed.

Lemma store_evolves_refl σ : store_evolves σ σ.
Proof.
  split; [auto|]. intros j n Hj. exists n. split; [exact Hj | apply node_evolves_refl].
Qed.

Lemma store_evolves_trans σ1 σ2 σ3 :
  store_evolves σ1 σ2 -> store_evolves σ2 σ3 -> store_evolves σ1 σ3.
Proof.
  intros [Hb1 Hn1] [Hb2 Hn2]. split; [auto|].
  intros j n Hj. destruct (Hn1 j n Hj) as (n2 & Hj2 & E2).
  destruct (Hn2 j n2 Hj2) as (n3 & Hj3 & E3).
  exists n3. split; [exact Hj3 | eapply node_evolves_trans; eassumption].
Qed.

Lemma store_extends_evolves σ σ' : store_extends σ σ' -> store_evolves σ σ'.
Proof.
  intros [Hb Hn]. split; [exact Hb|].
  intros j n Hj. exists n. split; [apply Hn, Hj | apply node_evolves_refl].
Qed.

Lemma evolving_ret {A : Type} (a : A) : evolving (mret a).
Proof. intros σ. apply store_evolves_refl. Qed.

Lemma evolving_throw {A : Type} (e : error) : evolving (throw e : M A).
Proof. intros σ. apply store_evolves_refl. Qed.

Lemma evolving_lift {A : Type} (r : result A) : evolving (lift r).
Proof. intros σ. apply store_evolves_refl. Qed.

Lemma evolving_bind {A B : Type} (m : M A) (f : A -> M B) :
  evolving m -> (forall a, evolving (f a)) -> evolving (m ≫= f).
Proof.
  intros Hm Hf σ. specialize (Hm σ). unfold mbind, M_bind.
  destruct (m σ) as [[a|e] σ1]; cbn [snd] in *.
  - eapply store_evolves_trans; [exact Hm | apply Hf].
  - exact Hm.
Qed.

Lemma evolving_read_buffer l : evolving (read_buffer l).
Proof.
  intros σ. unfold read_buffer.
  destruct (buffers σ !! l); apply store_evolves_refl.
Qed.

Lemma evolving_read_node this : evolving (read_node this).
Proof.
  intros σ. unfold read_node.
  destruct (nodes σ !! this); apply store_evolves_refl.
Qed.

Lemma evolving_alloc_buffer bs : evolving (alloc_buffer bs).
Proof.
  intros σ. apply store_extends_evolves.
  split; intros ? ? H; [apply lookup_old, H | exact H].
Qed.

Lemma evolving_alloc_node n : evolving (alloc_node n).
Proof.
  intros σ. apply store_extends_evolves.
  split; intros ? ? H; [exact H | apply lookup_old, H].
Qed.

(** The one assignment of the class: the getter sets [__Q] when it is
    not set, to a buffer it has created. *)
Lemma evolving_publicKey this : evolving (publicKey this).
Proof.
  intros σ. unfold publicKey. unfold_monad.
  destruct (nodes σ !! this) as [n|] eqn:Hn; [|apply store_evolves_refl].
  destruct (__Q n) as [q|] eqn:HQ; [apply store_evolves_refl|].
  destruct (__D n) as [d|] eqn:HD; [|apply store_evolves_refl].
  destruct (buffers σ !! d) as [K|]; [|apply store_evolves_refl].
  cbn [snd buffers nodes]. split; cbn [buffers nodes].
  - intros l bs Hl. apply lookup_old, Hl.
  - intros j m Hj. destruct (decide (j = this)) as [->|Hne].
    + rewrite Hn in Hj. injection Hj as <-.
      eexists. split.
      * apply list_lookup_insert_eq. eapply lookup_lt_Some, Hn.
      * split; [repeat split; cbn; congruence|]. intros q Hq. congruence.
    + exists m. split; [|apply node_evolves_refl].
      rewrite list_lookup_insert_ne by congruence. exact Hj.
Qed.

(** Decompose a computation into its steps. *)
Ltac evolve :=
  repeat first
    [ apply evolving_ret | apply evolving_throw | apply evolving_lift
    | apply evolving_read_buffer | apply evolving_read_node
    | apply evolving_alloc_buffer | apply evolving_alloc_node
    | apply evolving_publicKey
    | apply evolving_bind; [|intros ?]
    | progress cbv zeta
    | match goal with
      | |- evolving (if ?b then _ else _) => destruct b
      | |- evolving (match ?x with _ => _ end) => destruct x
      end ].

Lemma evolving_getters this :
  evolving (depth this) /\ evolving (index this) /\
  evolving (parentFingerprint this) /\ evolving (privateKey this) /\
  evolving (isNeutered this).
Proof.
  unfold depth, index, parentFingerprint, privateKey, isNeutered.
  repeat split; evolve.
Qed.

Lemma evolving_identifier this :
  evolving (identifier this) /\ evolving (fingerprint this).
Proof. unfold fingerprint, identifier. split; evolve. Qed.

Lemma evolving_fromSeed seed net : evolving (fromSeed seed net).
Proof. unfold fromSeed, new_NodeEd25519. evolve. Qed.

Lemma evolving_fromBase58 inString net : evolving (fromBase58 inString net).
Proof. unfold fromBase58, new_NodeEd25519. evolve. Qed.

Lemma evolving_neutered this : evolving (neutered this).
Proof.
  unfold neutered, new_NodeEd25519, depth, index, parentFingerprint. evolve.
Qed.

Lemma evolving_toBase58 this : evolving (toBase58 this).
Proof.
  unfold toBase58, isNeutered, depth, index, parentFingerprint, privateKey.
  evolve.
Qed.

Lemma evolving_sign this hash len : evolving (sign this hash len).
Proof. unfold sign, privateKey. evolve. Qed.

Lemma evolving_verify this hash signature : evolving (verify this hash signature).
Proof. unfold verify. evolve. Qed.

Lemma evolving_CKDPriv parent index : evolving (CKDPriv parent index).
Proof.
  unfold CKDPriv, privateKey, new_NodeEd25519_default, new_NodeEd25519.
  evolve.
Qed.

(** [CKDPub] stops at the curve addition, before anything is written. *)
Lemma evolving_CKDPub_rec gas parent index :
  nacl_add = None -> evolving (CKDPub_rec gas parent index).
Proof.
  intros Hadd. destruct gas as [|gas]; cbn [CKDPub_rec]; [evolve|].
  rewrite Hadd. cbn [is_null].
  unfold new_NodeEd25519_default, new_NodeEd25519. evolve.
Qed.

Lemma evolving_derive this index :
  nacl_add = None -> evolving (derive this index).
Proof.
  intros Hadd. unfold derive. cbv zeta. apply evolving_bind.
  - destruct (HIGHEST_BIT <=? index);
      [apply evolving_getters | apply evolving_ret].
  - intros refused. destruct refused; [apply evolving_throw|].
    apply evolving_bind; [apply evolving_getters|].
    intros neut. destruct (negb neut);
      [apply evolving_CKDPriv | apply evolving_CKDPub_rec, Hadd].
Qed.

Lemma evolving_deriveHardened this index :
  nacl_add = None -> evolving (deriveHardened this index).
Proof.
  intros Hadd. unfold deriveHardened. cbv zeta.
  destruct (_ <? index); [apply evolving_throw | apply evolving_derive, Hadd].
Qed.

Lemma evolving_reduce {A B : Type} (f : B -> A -> M B) (l : list A) :
  (forall b x, evolving (f b x)) -> forall init, evolving (reduce f l init).
Proof.
  intros Hf. induction l as [|x l IH]; intros init; cbn [reduce].
  - apply evolving_ret.
  - apply evolving_bind; [apply Hf | exact IH].
Qed.

Lemma evolving_derivePath this path :
  nacl_add = None -> evolving (derivePath this path).
Proof.
  intros Hadd. unfold derivePath.
  assert (Hstep : forall b x, evolving (derivePath_step b x)).
  { intros b x. unfold derivePath_step.
    destruct (String.eqb _ _).
    - destruct (parseInt _);
        [apply evolving_deriveHardened, Hadd | apply evolving_throw].
    - destruct (parseInt _);
        [apply evolving_derive, Hadd | apply evolving_throw]. }
  destruct (negb (isValidPath path)); [apply evolving_throw|].
  cbv zeta. apply evolving_bind.
  - destruct (match split "/" path with
              | [] => false
              | s :: _ => (s =? "m")%string
              end); [apply evolving_getters | apply evolving_ret].
  - intros pf.
    destruct (_ && negb (pf =? 0)); [apply evolving_throw|].
    apply evolving_reduce, Hstep.
Qed.

Lemma perform_evolves σ op :
  nacl_add = None -> store_evolves σ (perform σ op).
Proof.
  intros Hadd. destruct op; cbn [perform];
    first [ apply evolving_fromSeed | apply evolving_fromBase58
          | apply evolving_publicKey | apply evolving_neutered
          | apply evolving_toBase58 | apply evolving_sign
          | apply evolving_verify | apply evolving_CKDPriv
          | apply evolving_CKDPub_rec, Hadd
          | apply evolving_derivePath, Hadd
          | apply evolving_deriveHardened, Hadd
          | apply evolving_derive, Hadd
          | apply evolving_getters | apply evolving_identifier ].
Qed.

Lemma perform_all_evolves ops : forall σ,
  nacl_add = None -> store_evolves σ (fold_left perform ops σ).
Proof.
  induction ops as [|op ops IH]; intros σ Hadd; cbn [fold_left].
  - apply store_evolves_refl.
  - eapply store_evolves_trans; [apply perform_evolves, Hadd | apply IH, Hadd].
Qed.

(** C3: a node never changes but for the one assignment of its public
    key. With the library as it is, where [nacl_catapult] has no member
    [add], take any node of any store and any sequence of calls of the
    methods of the class and of [CKDPriv] and [CKDPub], returned or
    thrown: afterwards the node has the private key, chain code, network,
    depth, index and parent fingerprint it had; a public key that was set
    is the same buffer, and every buffer holds the bytes it held, the one
    of the public key among them. *)
Theorem node_immutable (ops : list operation) (σ : heap) (this : nat)
    (n : NodeEd25519) :
  nacl_add = None ->
  nodes σ !! this = Some n ->
  let σ' := fold_left perform ops σ in
  exists n',
    nodes σ' !! this = Some n' /\
    __D n' = __D n /\ chainCode n' = chainCode n /\ network n' = network n /\
    __DEPTH n' = __DEPTH n /\ __INDEX n' = __INDEX n /\
    __PARENT_FINGERPRINT n' = __PARENT_FINGERPRINT n /\
    (forall q, __Q n = Some q -> __Q n' = Some q) /\
    (forall l bs, buffers σ !! l = Some bs -> buffers σ' !! l = Some bs).
Proof.
  intros Hadd Hn σ'.
  destruct (perform_all_evolves ops σ Hadd) as [Hb Hnodes].
  destruct (Hnodes this n Hn) as (n' & Hn' & (E1 & E2 & E3 & E4 & E5 & E6) & HQ).
  exists n'. repeat split; assumption.
Qed.

End Engine.

(** * The statements on the sample *)

(** The embedding runs: on the sample, [m/0'/1] creates two nodes after the
    two of the store and returns the second; from the neutered node a
    hardened step is refused and a step that is not hardened stops at the
    curve addition; the neutered node is read back from its extended key
    with a public key of 33 bytes. *)
Example sample_derivePath :
  fst (derivePath Sample.hmac_sha512 Sample.extractPublicKey Sample.nacl_add
         Sample.CATAPULT Sample.uninitialised 1 0 "m/0'/1" Sample.store)
  = Ok 3%nat /\
  fst (derivePath Sample.hmac_sha512 Sample.extractPublicKey Sample.nacl_add
         Sample.CATAPULT Sample.uninitialised 1 1 "0'/1" Sample.store)
  = Err MissingPrivateKey /\
  fst (derivePath Sample.hmac_sha512 Sample.extractPublicKey Sample.nacl_add
         Sample.CATAPULT Sample.uninitialised 1 1 "0/1'" Sample.store)
  = Err NotAFunction /\
  fst (derivePath Sample.hmac_sha512 Sample.extractPublicKey Sample.nacl_add
         Sample.CATAPULT Sample.uninitialised 1 0 "m/0'/x" Sample.store)
  = Err InvalidPath.
Proof. repeat split. Qed.

Example sample_roundtrip_key_length :
  let '(s, σ) := toBase58 Sample.extractPublicKey Sample.bs58check_encode
                   Sample.CATAPULT Sample.uninitialised 1 Sample.store in
  match s with
  | Ok text =>
      let '(r, σ') := fromBase58 Sample.bs58check_decode Sample.CATAPULT
                        text Sample.CATAPULT σ in
      match r with
      | Ok this => (n ← nodes σ' !! this; q ← __Q n; Q ← buffers σ' !! q;
                    Some (length Q)) = Some 33%nat
      | Err _ => False
      end
  | Err _ => False
  end.
Proof. vm_compute. reflexivity. Qed.

Lemma sample_decode_encode (b : list byte) :
  Sample.bs58check_decode (Sample.bs58check_encode b) = Some b.
Proof.
  unfold Sample.bs58check_decode, Sample.bs58check_encode.
  f_equal. apply list_byte_of_string_of_list_byte.
Qed.

Lemma fromSeed_seed_boundary_witness :
  fst (fromSeed Sample.hmac_sha512 (repeat x00 15) Sample.CATAPULT Sample.store)
    = Err InvalidSeedLength /\
  fst (fromSeed Sample.hmac_sha512 (repeat x00 65) Sample.CATAPULT Sample.store)
    = Err InvalidSeedLength /\
  (exists this σ',
     fromSeed Sample.hmac_sha512 (repeat x00 16) Sample.CATAPULT Sample.store
     = (Ok this, σ')) /\
  (exists this σ',
     fromSeed Sample.hmac_sha512 (repeat x00 64) Sample.CATAPULT Sample.store
     = (Ok this, σ')).
Proof.
  destruct (fromSeed_seed_boundary Sample.hmac_sha512 (repeat x00 15)
              Sample.CATAPULT Sample.store) as [H15 _].
  destruct (fromSeed_seed_boundary Sample.hmac_sha512 (repeat x00 65)
              Sample.CATAPULT Sample.store) as [H65 _].
  destruct (fromSeed_seed_boundary Sample.hmac_sha512 (repeat x00 16)
              Sample.CATAPULT Sample.store) as [_ H16].
  destruct (fromSeed_seed_boundary Sample.hmac_sha512 (repeat x00 64)
              Sample.CATAPULT Sample.store) as [_ H64].
  split; [|split; [|split]].
  - apply H15. left. cbn. lia.
  - apply H65. right. cbn. lia.
  - eexists _, _. apply H16. cbn. lia.
  - eexists _, _. apply H64. cbn. lia.
Defined.

Lemma CKDPriv_child_witness :
  let I := Sample.hmac_sha512 Sample.chain_code
             ([x00] ++ Sample.private_key ++ uint32_be 1) in
  exists child σ' c IL,
    CKDPriv Sample.hmac_sha512 Sample.CATAPULT Sample.uninitialised
      0 1 Sample.store = (Ok child, σ') /\
    nodes σ' !! child = Some c /\
    __D c = Some IL /\ buffers σ' !! IL = Some (slice 0 32 I) /\
    buffers σ' !! chainCode c = Some (drop 32 I) /\
    __Q c = None /\
    __DEPTH c = 0 /\ __INDEX c = 0 /\ __PARENT_FINGERPRINT c = 0 /\
    (0 <= __DEPTH Sample.master -> __DEPTH c <> __DEPTH Sample.master + 1).
Proof.
  apply (CKDPriv_child Sample.hmac_sha512 Sample.CATAPULT Sample.uninitialised
           0%nat 1 Sample.store Sample.master 0%nat
           Sample.private_key Sample.chain_code);
    [reflexivity | reflexivity | reflexivity | reflexivity | lia].
Defined.

Lemma base58_roundtrip_public_key_32_witness :
  exists s this' σ' c X Q',
    toBase58 Sample.extractPublicKey Sample.bs58check_encode Sample.CATAPULT
      Sample.uninitialised 1 Sample.store = (Ok s, Sample.store) /\
    fromBase58 Sample.bs58check_decode Sample.CATAPULT s Sample.CATAPULT
      Sample.store = (Ok this', σ') /\
    nodes σ' !! this' = Some c /\
    __Q c = Some X /\ buffers σ' !! X = Some Q' /\
    Q' = Sample.public_key ++ drop 77 (allocUnsafe Sample.uninitialised 78) /\
    length Q' = 33%nat /\ Q' <> Sample.public_key.
Proof.
  apply (base58_roundtrip_public_key_32 Sample.extractPublicKey
           Sample.bs58check_encode Sample.bs58check_decode Sample.CATAPULT
           Sample.uninitialised 1%nat Sample.store Sample.watcher 2%nat
           Sample.public_key Sample.chain_code Sample.CATAPULT).
  - exact sample_decode_encode.
  - reflexivity.
  - reflexivity.
  - reflexivity.
  - reflexivity.
  - reflexivity.
  - reflexivity.
  - reflexivity.
  - unfold fields_in_range. cbn. lia.
  - unfold master_invariant. cbn. lia.
  - cbn. lia.
  - cbn. lia.
Defined.

Lemma node_immutable_witness :
  let ops := [ call_CKDPub 1 0; call_derive 1 5; call_deriveHardened 1 (-1);
               call_derivePath 1 "0/1"; call_neutered 0; call_publicKey 0;
               call_derive 0 7; call_toBase58 1 ] in
  let σ' := fold_left
              (perform Sample.hmac_sha512 Sample.extractPublicKey
                 Sample.hash160 Sample.nacl_add Sample.bs58check_encode
                 Sample.bs58check_decode Sample.CATAPULT Sample.uninitialised
                 1 Sample.CatapultECC_sign Sample.CatapultECC_verify)
              ops Sample.store in
  exists n',
    nodes σ' !! 1%nat = Some n' /\
    __D n' = __D Sample.watcher /\
    chainCode n' = chainCode Sample.watcher /\
    network n' = network Sample.watcher /\
    __DEPTH n' = __DEPTH Sample.watcher /\
    __INDEX n' = __INDEX Sample.watcher /\
    __PARENT_FINGERPRINT n' = __PARENT_FINGERPRINT Sample.watcher /\
    (forall q, __Q Sample.watcher = Some q -> __Q n' = Some q) /\
    (forall l bs, buffers Sample.store !! l = Some bs ->
                  buffers σ' !! l = Some bs).
Proof.
  intros ops.
  apply (node_immutable Sample.hmac_sha512 Sample.extractPublicKey
           Sample.hash160 Sample.nacl_add Sample.bs58check_encode
           Sample.bs58check_decode Sample.CATAPULT Sample.uninitialised
           1%nat Sample.CatapultECC_sign Sample.CatapultECC_verify
           ops Sample.store 1%nat Sample.watcher);
    reflexivity.
Defined.

Lemma derive_dispatch_witness :
  derive Sample.hmac_sha512 Sample.extractPublicKey Sample.nacl_add
    Sample.CATAPULT Sample.uninitialised 1 1 (2 ^ 31) Sample.store
  = (Err MissingPrivateKey, Sample.store) /\
  derive Sample.hmac_sha512 Sample.extractPublicKey Sample.nacl_add
    Sample.CATAPULT Sample.uninitialised 1 1 5 Sample.store
  = CKDPub Sample.hmac_sha512 Sample.extractPublicKey Sample.nacl_add
      Sample.CATAPULT Sample.uninitialised 1 1 5 Sample.store /\
  derive Sample.hmac_sha512 Sample.extractPublicKey Sample.nacl_add
    Sample.CATAPULT Sample.uninitialised 1 0 5 Sample.store
  = CKDPriv Sample.hmac_sha512 Sample.CATAPULT Sample.uninitialised
      0 5 Sample.store.
Proof.
  destruct (derive_dispatch Sample.hmac_sha512 Sample.extractPublicKey
              Sample.nacl_add Sample.CATAPULT Sample.uninitialised
              1%nat 1%nat (2 ^ 31) Sample.store Sample.watcher eq_refl)
    as (Hhard & _ & _).
  destruct (derive_dispatch Sample.hmac_sha512 Sample.extractPublicKey
              Sample.nacl_add Sample.CATAPULT Sample.uninitialised
              1%nat 1%nat 5 Sample.store Sample.watcher eq_refl)
    as (_ & _ & Hpub).
  destruct (derive_dispatch Sample.hmac_sha512 Sample.extractPublicKey
              Sample.nacl_add Sample.CATAPULT Sample.uninitialised
              1%nat 0%nat 5 Sample.store Sample.master eq_refl)
    as (_ & Hpriv & _).
  split; [|split].
  - apply Hhard; [reflexivity | lia].
  - apply Hpub; [reflexivity | lia].
  - apply Hpriv. discriminate.
Defined.

Lemma deriveHardened_overflow_witness :
  fst (deriveHardened Sample.hmac_sha512 Sample.extractPublicKey Sample.nacl_add
         Sample.CATAPULT Sample.uninitialised 1 0 (2 ^ 31) Sample.store)
  = Err IndexOverflow /\
  deriveHardened Sample.hmac_sha512 Sample.extractPublicKey Sample.nacl_add
    Sample.CATAPULT Sample.uninitialised 1 0 (2 ^ 31 - 1) Sample.store
  = derive Sample.hmac_sha512 Sample.extractPublicKey Sample.nacl_add
      Sample.CATAPULT Sample.uninitialised 1 0 (2 ^ 31 - 1 + 2 ^ 31) Sample.store.
Proof.
  destruct (deriveHardened_overflow Sample.hmac_sha512 Sample.extractPublicKey
              Sample.nacl_add Sample.CATAPULT Sample.uninitialised
              1%nat 0%nat (2 ^ 31) Sample.store) as [Hover _].
  destruct (deriveHardened_overflow Sample.hmac_sha512 Sample.extractPublicKey
              Sample.nacl_add Sample.CATAPULT Sample.uninitialised
              1%nat 0%nat (2 ^ 31 - 1) Sample.store) as [_ Hin].
  split.
  - apply Hover. lia.
  - apply Hin. lia.
Defined.

Lemma fromBase58_checks_witness :
  fromBase58 Sample.bs58check_decode Sample.CATAPULT
    (Sample.bs58check_encode (repeat x00 77)) Sample.CATAPULT Sample.store
  = (Err InvalidLength, Sample.store) /\
  fst (fromBase58 Sample.bs58check_decode Sample.CATAPULT
         (Sample.bs58check_encode Sample.bad_marker) Sample.CATAPULT Sample.store)
  = Err InvalidPrivateKeyMarker.
Proof.
  destruct (fromBase58_checks Sample.bs58check_decode Sample.CATAPULT
              (Sample.bs58check_encode (repeat x00 77)) Sample.CATAPULT
              Sample.store (repeat x00 77) (sample_decode_encode _))
    as [Hlength _].
  destruct (fromBase58_checks Sample.bs58check_decode Sample.CATAPULT
              (Sample.bs58check_encode Sample.bad_marker) Sample.CATAPULT
              Sample.store Sample.bad_marker (sample_decode_encode _))
    as [_ Hfields].
  split.
  - apply Hlength. cbn. lia.
  - destruct (Hfields eq_refl)
      as (version & pf & idx & marker & Hv & Hpf & Hidx & Hm & _ & _ & H & _).
    vm_compute in Hv, Hpf, Hidx, Hm.
    injection Hv as <-. injection Hpf as <-. injection Hidx as <-.
    injection Hm as <-.
    apply H; [reflexivity | intros _; split; reflexivity | lia].
Defined.

Lemma derivePath_folds_witness :
  derivePath Sample.hmac_sha512 Sample.extractPublicKey Sample.nacl_add
    Sample.CATAPULT Sample.uninitialised 1 0 "m/0'/1" Sample.store
  = (deriveHardened Sample.hmac_sha512 Sample.extractPublicKey Sample.nacl_add
       Sample.CATAPULT Sample.uninitialised 1 0 0
     ≫= fun child =>
          derive Sample.hmac_sha512 Sample.extractPublicKey Sample.nacl_add
            Sample.CATAPULT Sample.uninitialised 1 child 1) Sample.store /\
  exists child σ',
    derivePath Sample.hmac_sha512 Sample.extractPublicKey Sample.nacl_add
      Sample.CATAPULT Sample.uninitialised 1 0 "m/0'/1" Sample.store
    = (Ok child, σ').
Proof.
  destruct (derivePath_folds Sample.hmac_sha512 Sample.extractPublicKey
              Sample.nacl_add Sample.CATAPULT Sample.uninitialised
              1%nat 0%nat Sample.store Sample.master eq_refl) as [H _].
  destruct (H eq_refl) as [H1 H2]. split; [exact H1|].
  apply (H2 0%nat Sample.private_key Sample.chain_code); reflexivity.
Defined.

Lemma neutered_strips_private_key_witness :
  exists new σ' q n',
    neutered Sample.extractPublicKey 0 Sample.store = (Ok new, σ') /\
    new = length (nodes Sample.store) /\
    nodes σ' !! new = Some (neutered_node Sample.master q) /\
    nodes σ' !! 0%nat = Some n' /\
    same_but_Q Sample.master n' /\ __Q n' = Some q /\
    (__Q Sample.master = None \/ __Q Sample.master = Some q) /\
    (forall l bs, buffers Sample.store !! l = Some bs -> buffers σ' !! l = Some bs) /\
    isNeutered new σ' = (Ok true, σ') /\
    publicKey Sample.extractPublicKey new σ' = (Ok q, σ') /\
    publicKey Sample.extractPublicKey 0 σ' = (Ok q, σ') /\
    exists σ1, publicKey Sample.extractPublicKey 0 Sample.store = (Ok q, σ1) /\
               buffers σ1 !! q = buffers σ' !! q.
Proof.
  apply (neutered_strips_private_key Sample.extractPublicKey 0%nat
           Sample.store Sample.master).
  - reflexivity.
  - right. exists 0%nat, Sample.private_key. split; reflexivity.
Defined.

Lemma CKDPub_throws_without_retry_witness :
  exists σ',
    CKDPub_rec Sample.hmac_sha512 Sample.extractPublicKey Sample.nacl_add
      Sample.CATAPULT Sample.uninitialised 1 1 0 Sample.store
    = (Err NotAFunction, σ') /\
    nodes σ' = nodes Sample.store /\
    buffers σ' !! 2%nat = Some Sample.public_key /\
    (forall l bs, buffers Sample.store !! l = Some bs ->
                  buffers σ' !! l = Some bs).
Proof.
  destruct (CKDPub_throws_without_retry Sample.hmac_sha512
              Sample.extractPublicKey Sample.nacl_add Sample.CATAPULT
              Sample.uninitialised 1%nat 0 Sample.store) as (_ & _ & Hthrows).
  destruct (Hthrows eq_refl) as [_ Hadd].
  apply (Hadd Sample.watcher 2%nat Sample.public_key Sample.chain_code);
    [reflexivity | reflexivity | reflexivity | reflexivity | lia].
Defined.

(** * The further properties on the sample *)

Lemma sample_private_ok : private_ok Sample.store 0.
Proof.
  exists Sample.master, 0%nat, Sample.private_key, Sample.chain_code.
  repeat split.
Qed.

Lemma sample_holds_public_key : holds_public_key 2 Sample.store 1.
Proof.
  exists Sample.watcher, Sample.public_key, Sample.chain_code.
  repeat split.
Qed.

Lemma sample_segments_ok :
  Forall segment_ok Sample.path_0h_1 /\ Forall segment_ok Sample.path_0_big /\
  Forall segment_ok Sample.path_0_1.
Proof. repeat split; repeat constructor; discriminate. Qed.

Lemma isValidPath_iff_witness : isValidPath "m/0'/1" = true.
Proof.
  apply (isValidPath_iff "m/0'/1").
  exists true, Sample.path_0h_1.
  split; [discriminate|]. split; [apply sample_segments_ok | reflexivity].
Defined.

Lemma valid_path_indices_witness :
  path_segments "m/0'/1" <> [] /\
  Forall (fun indexStr =>
            exists i, segment_text_index indexStr = Some i /\ 0 <= i)
         (path_segments "m/0'/1").
Proof. apply (valid_path_indices "m/0'/1"). reflexivity. Defined.

Lemma derivePath_private_witness :
  (exists child σ',
     derivePath Sample.hmac_sha512 Sample.extractPublicKey Sample.nacl_add
       Sample.CATAPULT Sample.uninitialised 1 0
       (show_path true Sample.path_0h_1) Sample.store = (Ok child, σ') /\
     private_ok σ' child /\ store_extends Sample.store σ') /\
  fst (derivePath Sample.hmac_sha512 Sample.extractPublicKey Sample.nacl_add
         Sample.CATAPULT Sample.uninitialised 1 0
         (show_path true Sample.path_0_big) Sample.store)
  = Err IndexOverflow.
Proof.
  destruct (derivePath_private Sample.hmac_sha512 Sample.extractPublicKey
              Sample.nacl_add Sample.CATAPULT Sample.uninitialised 1%nat
              0%nat Sample.store Sample.master true Sample.path_0h_1
              eq_refl sample_private_ok (fun _ => eq_refl)
              ltac:(discriminate) (proj1 sample_segments_ok)) as [Hin _].
  destruct (derivePath_private Sample.hmac_sha512 Sample.extractPublicKey
              Sample.nacl_add Sample.CATAPULT Sample.uninitialised 1%nat
              0%nat Sample.store Sample.master true Sample.path_0_big
              eq_refl sample_private_ok (fun _ => eq_refl)
              ltac:(discriminate) (proj1 (proj2 sample_segments_ok)))
    as [_ Hout].
  split.
  - apply Hin. repeat constructor; vm_compute; discriminate.
  - apply (Hout [ {| seg_digits := "0"; seg_hardened := false |} ]
             {| seg_digits := "2147483648"; seg_hardened := true |} []).
    + reflexivity.
    + repeat constructor.
    + vm_compute. intros H. apply H. reflexivity.
Defined.

Lemma derivePath_public_witness :
  (isValidPath (show_path false Sample.path_0_1) = true /\
   fst (derivePath Sample.hmac_sha512 Sample.extractPublicKey Sample.nacl_add
          Sample.CATAPULT Sample.uninitialised 1 1
          (show_path false Sample.path_0_1) Sample.store)
   = Err NotAFunction) /\
  fst (derivePath Sample.hmac_sha512 Sample.extractPublicKey Sample.nacl_add
         Sample.CATAPULT Sample.uninitialised 1 1
         (show_path true Sample.path_0h_1) Sample.store)
  = Err MissingPrivateKey.
Proof.
  destruct (derivePath_public Sample.hmac_sha512 Sample.extractPublicKey
              Sample.nacl_add Sample.CATAPULT Sample.uninitialised 1%nat
              2%nat 1%nat Sample.store Sample.watcher false
              {| seg_digits := "0"; seg_hardened := false |}
              [ {| seg_digits := "1"; seg_hardened := false |} ]
              eq_refl ltac:(lia) eq_refl sample_holds_public_key
              ltac:(discriminate) (proj2 (proj2 sample_segments_ok)))
    as (Hvalid & Hfirst & _).
  destruct (derivePath_public Sample.hmac_sha512 Sample.extractPublicKey
              Sample.nacl_add Sample.CATAPULT Sample.uninitialised 1%nat
              2%nat 1%nat Sample.store Sample.watcher true
              {| seg_digits := "0"; seg_hardened := true |}
              [ {| seg_digits := "1"; seg_hardened := false |} ]
              eq_refl ltac:(lia) eq_refl sample_holds_public_key
              ltac:(reflexivity) (proj1 sample_segments_ok))
    as (_ & Hhardened & _).
  split; [split; [exact Hvalid | exact Hfirst] | exact Hhardened].
Defined.

Lemma fromBase58_well_formed_witness :
  let σ' := snd (fromBase58 Sample.bs58check_decode Sample.CATAPULT
                   (Sample.bs58check_encode Sample.private_record)
                   Sample.CATAPULT Sample.store) in
  exists c cc,
    2%nat = length (nodes Sample.store) /\ nodes σ' !! 2%nat = Some c /\
    store_extends Sample.store σ' /\
    fields_in_range c /\ master_invariant c /\ network c = Sample.CATAPULT /\
    buffers σ' !! chainCode c = Some cc /\ length cc = 32%nat /\
    ((exists k K, __D c = Some k /\ __Q c = None /\
                  buffers σ' !! k = Some K /\ length K = 32%nat) \/
     (exists X Q, __D c = None /\ __Q c = Some X /\
                  buffers σ' !! X = Some Q /\ length Q = 33%nat)).
Proof.
  apply (fromBase58_well_formed Sample.bs58check_decode Sample.CATAPULT
           (Sample.bs58check_encode Sample.private_record)
           Sample.CATAPULT Sample.store).
  vm_compute. reflexivity.
Defined.

Lemma toBase58_fromBase58_witness :
  let σ' := snd (fromBase58 Sample.bs58check_decode Sample.CATAPULT
                   (Sample.bs58check_encode Sample.private_record)
                   Sample.CATAPULT Sample.store) in
  exists buffer,
    Sample.bs58check_decode (Sample.bs58check_encode Sample.private_record)
    = Some buffer /\
    toBase58 Sample.extractPublicKey Sample.bs58check_encode Sample.CATAPULT
      Sample.uninitialised 2 σ' = (Ok (Sample.bs58check_encode buffer), σ').
Proof.
  apply (toBase58_fromBase58 Sample.extractPublicKey Sample.bs58check_encode
           Sample.bs58check_decode Sample.CATAPULT Sample.uninitialised
           (Sample.bs58check_encode Sample.private_record)
           Sample.CATAPULT Sample.store).
  vm_compute. reflexivity.
Defined.

Lemma base58_roundtrip_private_witness :
  exists s this' σ' c k',
    toBase58 Sample.extractPublicKey Sample.bs58check_encode Sample.CATAPULT
      Sample.uninitialised 0 Sample.store = (Ok s, Sample.store) /\
    fromBase58 Sample.bs58check_decode Sample.CATAPULT s Sample.CATAPULT
      Sample.store = (Ok this', σ') /\
    nodes σ' !! this' = Some c /\
    __DEPTH c = __DEPTH Sample.master /\ __INDEX c = __INDEX Sample.master /\
    __PARENT_FINGERPRINT c = __PARENT_FINGERPRINT Sample.master /\
    buffers σ' !! chainCode c = Some Sample.chain_code /\
    __D c = Some k' /\ buffers σ' !! k' = Some Sample.private_key /\
    __Q c = None.
Proof.
  apply (base58_roundtrip_private Sample.extractPublicKey
           Sample.bs58check_encode Sample.bs58check_decode Sample.CATAPULT
           Sample.uninitialised 0%nat Sample.store Sample.master 0%nat
           Sample.private_key Sample.chain_code Sample.CATAPULT).
  - exact sample_decode_encode.
  - reflexivity.
  - reflexivity.
  - reflexivity.
  - reflexivity.
  - reflexivity.
  - reflexivity.
  - unfold fields_in_range. cbn. lia.
  - unfold master_invariant. cbn. lia.
  - cbn. lia.
Defined.

Lemma base58_roundtrip_public_key_33_witness :
  exists s this' σ' c X,
    toBase58 Sample.extractPublicKey Sample.bs58check_encode Sample.CATAPULT
      Sample.uninitialised 2 Sample.store_33 = (Ok s, Sample.store_33) /\
    fromBase58 Sample.bs58check_decode Sample.CATAPULT s Sample.CATAPULT
      Sample.store_33 = (Ok this', σ') /\
    nodes σ' !! this' = Some c /\
    __DEPTH c = __DEPTH Sample.watcher_33 /\
    __INDEX c = __INDEX Sample.watcher_33 /\
    __PARENT_FINGERPRINT c = __PARENT_FINGERPRINT Sample.watcher_33 /\
    buffers σ' !! chainCode c = Some Sample.chain_code /\
    __D c = None /\ __Q c = Some X /\
    buffers σ' !! X = Some Sample.public_key_33.
Proof.
  apply (base58_roundtrip_public_key_33 Sample.extractPublicKey
           Sample.bs58check_encode Sample.bs58check_decode Sample.CATAPULT
           Sample.uninitialised 2%nat Sample.store_33 Sample.watcher_33 3%nat
           Sample.public_key_33 Sample.chain_code Sample.CATAPULT).
  - exact sample_decode_encode.
  - reflexivity.
  - reflexivity.
  - reflexivity.
  - reflexivity.
  - reflexivity.
  - reflexivity.
  - reflexivity.
  - unfold fields_in_range. cbn. lia.
  - unfold master_invariant. cbn. lia.
  - cbn. lia.
  - cbn. lia.
Defined.

Lemma toBase58_payload_witness :
  let s := Sample.bs58check_encode
             (extended_key 76066276 0 0 0 Sample.chain_code
                (x00 :: Sample.private_key)) in
  Sample.store = Sample.store /\
  exists n payload,
    nodes Sample.store !! 0%nat = Some n /\ fields_in_range n /\
    s = Sample.bs58check_encode payload /\ length payload = 78%nat /\
    take 13 payload
    = uint32_be (if __D n is Some _ then privateKeyPrefix Sample.CATAPULT
                 else publicKeyPrefix Sample.CATAPULT)
      ++ [byte_of_Z (__DEPTH n)] ++ uint32_be (__PARENT_FINGERPRINT n)
      ++ uint32_be (__INDEX n).
Proof.
  apply (toBase58_payload Sample.extractPublicKey Sample.bs58check_encode
           Sample.CATAPULT Sample.uninitialised 0%nat Sample.store Sample.store).
  vm_compute. reflexivity.
Defined.

Lemma publicKey_memoized_witness :
  let σ1 := snd (publicKey Sample.extractPublicKey 0 Sample.store) in
  publicKey Sample.extractPublicKey 0 σ1 = (Ok 3%nat, σ1) /\
  (forall l bs, buffers Sample.store !! l = Some bs -> buffers σ1 !! l = Some bs) /\
  (forall j, j <> 0%nat -> nodes σ1 !! j = nodes Sample.store !! j) /\
  exists n n1,
    nodes Sample.store !! 0%nat = Some n /\ nodes σ1 !! 0%nat = Some n1 /\
    same_but_Q n n1 /\ __Q n1 = Some 3%nat /\
    (__Q n = Some 3%nat /\ σ1 = Sample.store \/
     __Q n = None /\ 3%nat = length (buffers Sample.store)).
Proof.
  apply (publicKey_memoized Sample.extractPublicKey 0%nat Sample.store).
  vm_compute. reflexivity.
Defined.

Lemma neutered_refuses_witness :
  let σ' := snd (neutered Sample.extractPublicKey 0 Sample.store) in
  privateKey 2 σ' = (Err MissingPrivateKey, σ') /\
  (forall hash len,
     sign Sample.extractPublicKey Sample.CatapultECC_sign 2 hash len σ'
     = (Err MissingPrivateKey, σ')) /\
  (forall index, 2 ^ 31 <= index ->
     derive Sample.hmac_sha512 Sample.extractPublicKey Sample.nacl_add
       Sample.CATAPULT Sample.uninitialised 1 2 index σ'
     = (Err MissingPrivateKey, σ')) /\
  (forall index, 0 <= index <= 2 ^ 31 - 1 ->
     deriveHardened Sample.hmac_sha512 Sample.extractPublicKey Sample.nacl_add
       Sample.CATAPULT Sample.uninitialised 1 2 index σ'
     = (Err MissingPrivateKey, σ')).
Proof.
  apply (neutered_refuses Sample.hmac_sha512 Sample.extractPublicKey
           Sample.nacl_add Sample.CATAPULT Sample.uninitialised 1%nat
           Sample.CatapultECC_sign 0%nat Sample.store).
  vm_compute. reflexivity.
Defined.

Lemma constructors_only_add_witness :
  store_extends Sample.store
    (snd (fromSeed Sample.hmac_sha512 (repeat x00 16) Sample.CATAPULT Sample.store)) /\
  store_extends Sample.store
    (snd (fromBase58 Sample.bs58check_decode Sample.CATAPULT
            (Sample.bs58check_encode Sample.bad_marker) Sample.CATAPULT
            Sample.store)) /\
  store_extends Sample.store
    (snd (CKDPriv Sample.hmac_sha512 Sample.CATAPULT Sample.uninitialised
            0 1 Sample.store)).
Proof.
  destruct (constructors_only_add Sample.hmac_sha512 Sample.bs58check_decode
              Sample.CATAPULT Sample.uninitialised Sample.store)
    as (Hseed & Hdec & Hpriv).
  split; [apply Hseed|]. split; [apply Hdec | apply Hpriv].
Defined.

Lemma private_index_bounds_witness :
  (exists child σ',
     derive Sample.hmac_sha512 Sample.extractPublicKey Sample.nacl_add
       Sample.CATAPULT Sample.uninitialised 1 0 4294967295 Sample.store
     = (Ok child, σ')) /\
  derive Sample.hmac_sha512 Sample.extractPublicKey Sample.nacl_add
    Sample.CATAPULT Sample.uninitialised 1 0 4294967296 Sample.store
  = (Err RangeError, Sample.store) /\
  (exists child σ',
     deriveHardened Sample.hmac_sha512 Sample.extractPublicKey Sample.nacl_add
       Sample.CATAPULT Sample.uninitialised 1 0 (-1) Sample.store
     = (Ok child, σ') /\
     derive Sample.hmac_sha512 Sample.extractPublicKey Sample.nacl_add
       Sample.CATAPULT Sample.uninitialised 1 0 (-1 + 2 ^ 31) Sample.store
     = (Ok child, σ')) /\
  deriveHardened Sample.hmac_sha512 Sample.extractPublicKey Sample.nacl_add
    Sample.CATAPULT Sample.uninitialised 1 0 (-2147483649) Sample.store
  = (Err RangeError, Sample.store) /\
  deriveHardened Sample.hmac_sha512 Sample.extractPublicKey Sample.nacl_add
    Sample.CATAPULT Sample.uninitialised 1 0 2147483648 Sample.store
  = (Err IndexOverflow, Sample.store).
Proof.
  destruct (private_index_bounds Sample.hmac_sha512 Sample.extractPublicKey
              Sample.nacl_add Sample.CATAPULT Sample.uninitialised 1%nat 0%nat
              4294967295 Sample.store sample_private_ok) as (Hin & _).
  destruct (private_index_bounds Sample.hmac_sha512 Sample.extractPublicKey
              Sample.nacl_add Sample.CATAPULT Sample.uninitialised 1%nat 0%nat
              4294967296 Sample.store sample_private_ok) as (_ & Hout & _).
  destruct (private_index_bounds Sample.hmac_sha512 Sample.extractPublicKey
              Sample.nacl_add Sample.CATAPULT Sample.uninitialised 1%nat 0%nat
              (-1) Sample.store sample_private_ok) as (_ & _ & Hneg & _).
  destruct (private_index_bounds Sample.hmac_sha512 Sample.extractPublicKey
              Sample.nacl_add Sample.CATAPULT Sample.uninitialised 1%nat 0%nat
              (-2147483649) Sample.store sample_private_ok)
    as (_ & _ & _ & Hlow & _).
  destruct (private_index_bounds Sample.hmac_sha512 Sample.extractPublicKey
              Sample.nacl_add Sample.CATAPULT Sample.uninitialised 1%nat 0%nat
              2147483648 Sample.store sample_private_ok)
    as (_ & _ & _ & _ & Hhigh).
  split; [apply Hin; lia|].
  split; [apply Hout; lia|].
  split; [apply Hneg; lia|].
  split; [apply Hlow; lia | apply Hhigh; lia].
Defined.

Lemma fromSeed_export_import_witness :
  let seed := repeat x00 16 in
  let I := Sample.hmac_sha512 (list_byte_of_string "Catapult seed") seed in
  exists this σ1 s this' σ2 c k,
    fromSeed Sample.hmac_sha512 seed Sample.CATAPULT Sample.store
    = (Ok this, σ1) /\
    toBase58 Sample.extractPublicKey Sample.bs58check_encode Sample.CATAPULT
      Sample.uninitialised this σ1 = (Ok s, σ1) /\
    fromBase58 Sample.bs58check_decode Sample.CATAPULT s Sample.CATAPULT σ1
    = (Ok this', σ2) /\
    nodes σ2 !! this' = Some c /\
    __D c = Some k /\
    buffers σ2 !! k = Some (take 32 I) /\
    buffers σ2 !! chainCode c = Some (drop 32 I) /\
    __Q c = None /\ network c = Sample.CATAPULT /\
    __DEPTH c = 0 /\ __INDEX c = 0 /\ __PARENT_FINGERPRINT c = 0.
Proof.
  apply (fromSeed_export_import Sample.hmac_sha512 Sample.extractPublicKey
           Sample.bs58check_encode Sample.bs58check_decode Sample.CATAPULT
           Sample.uninitialised (repeat x00 16) Sample.CATAPULT
           Sample.CATAPULT Sample.store).
  - intros key data. unfold Sample.hmac_sha512. apply length_resize.
  - exact sample_decode_encode.
  - cbn. lia.
  - cbn. lia.
Defined.

Lemma sign_then_verify_witness :
  let σ1 := snd (publicKey Sample.extractPublicKey 0 Sample.store) in
  let Q := reverse Sample.private_key in
  sign Sample.extractPublicKey Sample.CatapultECC_sign 0 [x09] 64 Sample.store
  = (Ok (Sample.CatapultECC_sign [x09] Q Sample.private_key 64), σ1) /\
  forall signature,
    verify Sample.extractPublicKey Sample.CatapultECC_verify 0 [x09]
      signature σ1
    = (Ok (Sample.CatapultECC_verify [x09] Q signature
             (if (length signature =? 32)%nat then 32%nat else 64%nat)), σ1).
Proof.
  apply (sign_then_verify Sample.extractPublicKey Sample.CatapultECC_sign
           Sample.CatapultECC_verify 0%nat Sample.store
           (snd (publicKey Sample.extractPublicKey 0 Sample.store))
           Sample.master 0%nat 3%nat Sample.private_key
           (reverse Sample.private_key) [x09] 64%nat);
    vm_compute; reflexivity.
Defined.

Lemma neutered_fingerprint_witness :
  let σ' := snd (neutered Sample.extractPublicKey 0 Sample.store) in
  identifier Sample.extractPublicKey Sample.hash160 2 σ'
  = identifier Sample.extractPublicKey Sample.hash160 0 σ' /\
  fingerprint Sample.extractPublicKey Sample.hash160 2 σ'
  = fingerprint Sample.extractPublicKey Sample.hash160 0 σ'.
Proof.
  apply (neutered_fingerprint Sample.extractPublicKey Sample.hash160 0%nat
           Sample.store).
  vm_compute. reflexivity.
Defined.

Lemma neutered_index_bounds_witness :
  derive Sample.hmac_sha512 Sample.extractPublicKey Sample.nacl_add
    Sample.CATAPULT Sample.uninitialised 1 1 (-1) Sample.store
  = (Err RangeError, Sample.store) /\
  fst (derive Sample.hmac_sha512 Sample.extractPublicKey Sample.nacl_add
         Sample.CATAPULT Sample.uninitialised 1 1 5 Sample.store)
  = Err NotAFunction /\
  derive Sample.hmac_sha512 Sample.extractPublicKey Sample.nacl_add
    Sample.CATAPULT Sample.uninitialised 1 1 2147483648 Sample.store
  = (Err MissingPrivateKey, Sample.store) /\
  deriveHardened Sample.hmac_sha512 Sample.extractPublicKey Sample.nacl_add
    Sample.CATAPULT Sample.uninitialised 1 1 (-2147483649) Sample.store
  = (Err RangeError, Sample.store) /\
  fst (deriveHardened Sample.hmac_sha512 Sample.extractPublicKey
         Sample.nacl_add Sample.CATAPULT Sample.uninitialised 1 1 (-1)
         Sample.store)
  = Err NotAFunction /\
  deriveHardened Sample.hmac_sha512 Sample.extractPublicKey Sample.nacl_add
    Sample.CATAPULT Sample.uninitialised 1 1 0 Sample.store
  = (Err MissingPrivateKey, Sample.store) /\
  deriveHardened Sample.hmac_sha512 Sample.extractPublicKey Sample.nacl_add
    Sample.CATAPULT Sample.uninitialised 1 1 2147483648 Sample.store
  = (Err IndexOverflow, Sample.store).
Proof.
  pose proof (fun index =>
    neutered_index_bounds Sample.hmac_sha512 Sample.extractPublicKey
      Sample.nacl_add Sample.CATAPULT Sample.uninitialised 1%nat 2%nat 1%nat
      index Sample.store eq_refl ltac:(lia) sample_holds_public_key) as H.
  destruct (H (-1)) as (Hneg & _ & _ & _ & Hwrap & _).
  destruct (H 5) as (_ & Hadd & _).
  destruct (H 2147483648) as (_ & _ & Hhard & _ & _ & _ & Hover & _).
  destruct (H (-2147483649)) as (_ & _ & _ & Hlow & _).
  destruct (H 0) as (_ & _ & _ & _ & _ & Hmissing & _).
  split; [apply Hneg; lia|].
  split; [exact (proj1 (Hadd ltac:(lia)))|].
  split; [apply Hhard; lia|].
  split; [apply Hlow; lia|].
  split; [exact (proj1 (Hwrap ltac:(lia)))|].
  split; [apply Hmissing; lia | apply Hover; lia].
Defined.

Lemma derivePath_expects_master_witness :
  derivePath Sample.hmac_sha512 Sample.extractPublicKey Sample.nacl_add
    Sample.CATAPULT Sample.uninitialised 1 2 "m/0" Sample.store_33
  = (Err ExpectedMasterNode, Sample.store_33).
Proof.
  apply (derivePath_expects_master Sample.hmac_sha512 Sample.extractPublicKey
           Sample.nacl_add Sample.CATAPULT Sample.uninitialised 1%nat 2%nat
           Sample.store_33 Sample.watcher_33 "0").
  - reflexivity.
  - cbn. discriminate.
  - vm_compute. reflexivity.
Defined.
